(** * Native-code emission for the ARM64 backend: [intermediate_language_arm64.cc]

    The program under study is a code emitter: every [EmitNativeCode] method
    appends A64 instructions to the assembler buffer.  The embedding follows
    that shape.  An emitter is a function from the static data of an IL
    instruction (operator kind, bound locations, flags) to the list of
    assembler calls it makes, in order; the meaning of the emitted code is
    given by an interpreter for the A64 subset the emitters use.

    Conventions.
    - A 64-bit register value is a [Z]; operations reduce modulo [2^64]
      ([wrap]) and read signed operands through [signed].
    - [UNREACHABLE()], a failed [ASSERT] and a dereferenced [NULL] label abort
      emission: the emitter returns [None].
    - [__ Comment(...)] emits no instruction and is left out. *)

From Stdlib Require Import ZArith List Bool Lia.
Import ListNotations.
Local Open Scope Z_scope.

(* ================================================================== *)
(** * Part I.  Definitions                                             *)
(* ================================================================== *)

(** ** Registers, condition codes and flags *)

Definition Register := nat.
Definition VRegister := nat.

Definition R0 : Register := 0%nat.
Definition R1 : Register := 1%nat.
Definition R2 : Register := 2%nat.
Definition R3 : Register := 3%nat.
Definition R4 : Register := 4%nat.
Definition R5 : Register := 5%nat.
Definition TMP : Register := 16%nat.
Definition TMP2 : Register := 17%nat.
Definition PP : Register := 27%nat.
Definition ZR : Register := 31%nat.

(** The registers an operand may be bound to: never the scratch registers
    [TMP], [TMP2] nor the zero register. *)
Definition is_allocatable (r : Register) : bool :=
  negb (Nat.eqb r TMP) && negb (Nat.eqb r TMP2) && negb (Nat.eqb r ZR).

(** The A64 condition codes. *)
Inductive Condition : Type :=
| EQ | NE | CS | CC | MI | PL | VS | VC | HI | LS | GE | LT | GT | LE | AL | NV.

Definition Condition_eqb (a b : Condition) : bool :=
  match a, b with
  | EQ, EQ | NE, NE | CS, CS | CC, CC | MI, MI | PL, PL | VS, VS | VC, VC
  | HI, HI | LS, LS | GE, GE | LT, LT | GT, GT | LE, LE | AL, AL | NV, NV => true
  | _, _ => false
  end.

Record Flags : Type := mkFlags {
  flag_n : bool;
  flag_z : bool;
  flag_c : bool;
  flag_v : bool
}.

(** Modelled from the spec: the encoder/assembler collaborator
    (vm/assembler_arm64, vm/constants_arm64) is not under src/; the meaning of
    a condition code on the NZCV flags is the architecture's [ConditionHolds]. *)
Definition ConditionHolds (c : Condition) (f : Flags) : bool :=
  match c with
  | EQ => flag_z f
  | NE => negb (flag_z f)
  | CS => flag_c f
  | CC => negb (flag_c f)
  | MI => flag_n f
  | PL => negb (flag_n f)
  | VS => flag_v f
  | VC => negb (flag_v f)
  | HI => flag_c f && negb (flag_z f)
  | LS => negb (flag_c f && negb (flag_z f))
  | GE => Bool.eqb (flag_n f) (flag_v f)
  | LT => negb (Bool.eqb (flag_n f) (flag_v f))
  | GT => Bool.eqb (flag_n f) (flag_v f) && negb (flag_z f)
  | LE => negb (Bool.eqb (flag_n f) (flag_v f) && negb (flag_z f))
  | AL => true
  | NV => true
  end.

(** ** 64-bit arithmetic *)

Definition wrap (z : Z) : Z := z mod 2 ^ 64.

Definition signed (z : Z) : Z :=
  if wrap z <? 2 ^ 63 then wrap z else wrap z - 2 ^ 64.

Definition b2z (b : bool) : Z := if b then 1 else 0.

(** [AddWithCarry] of the architecture: result and NZCV. *)
Definition AddWithCarry (x y : Z) (carry : bool) : Z * Flags :=
  let usum := wrap x + wrap y + b2z carry in
  let ssum := signed x + signed y + b2z carry in
  let r := wrap usum in
  (r, mkFlags (2 ^ 63 <=? r) (r =? 0) (negb (r =? usum)) (negb (signed r =? ssum))).

Definition lnot64 (y : Z) : Z := 2 ^ 64 - 1 - wrap y.

Definition add_flags (x y : Z) : Z * Flags := AddWithCarry x y false.
Definition sub_flags (x y : Z) : Z * Flags := AddWithCarry x (lnot64 y) true.

(** Flags of a logical operation ([ands], [tst]): N and Z from the result,
    C and V cleared. *)
Definition logic_flags (r : Z) : Flags :=
  mkFlags (2 ^ 63 <=? wrap r) (wrap r =? 0) false false.

Inductive Shift : Type := LSL | LSR | ASR.

Definition shift64 (sh : Shift) (x : Z) (n : Z) : Z :=
  match sh with
  | LSL => wrap (Z.shiftl (wrap x) n)
  | LSR => Z.shiftr (wrap x) n
  | ASR => wrap (Z.shiftr (signed x) n)
  end.

(** [sdiv]: signed division rounding towards zero; a zero divisor gives zero
    and the quotient wraps. *)
Definition sdiv64 (x y : Z) : Z :=
  if signed y =? 0 then 0 else wrap (Z.quot (signed x) (signed y)).

(** [smulh]: bits 127..64 of the signed 128-bit product. *)
Definition smulh64 (x y : Z) : Z := wrap ((signed x * signed y) / 2 ^ 64).

(** ** Tagged small integers *)

Definition kSmiTagSize : Z := 1.
Definition kSmiTagMask : Z := 1.
Definition kSmiBits : Z := 62.
Definition kHeapObjectTag : Z := 1.
Definition kSmiMin : Z := - 2 ^ 62.
Definition kSmiMax : Z := 2 ^ 62 - 1.

Definition IsSmiValue (v : Z) : Prop := kSmiMin <= v <= kSmiMax.
Definition is_smi_value (v : Z) : bool := (kSmiMin <=? v) && (v <=? kSmiMax).

(** [Smi::RawValue]: the tagged word of a small integer. *)
Definition RawValue (v : Z) : Z := wrap (v * 2).

(** ** Objects, class ids, labels *)

Inductive ClassId : Type :=
| kIllegalCid | kNullCid | kSmiCid | kBoolCid | kDoubleCid
| kFloat32x4Cid | kInt32x4Cid | kFloat64x2Cid
| kArrayCid | kImmutableArrayCid
| kOneByteStringCid | kTwoByteStringCid
| kTypedDataInt8ArrayCid | kTypedDataUint8ArrayCid
| kTypedDataUint8ClampedArrayCid
| kExternalTypedDataUint8ArrayCid | kExternalTypedDataUint8ClampedArrayCid
| kTypedDataInt16ArrayCid | kTypedDataUint16ArrayCid
| kTypedDataInt32ArrayCid | kTypedDataUint32ArrayCid
| kTypedDataFloat32ArrayCid | kTypedDataFloat64ArrayCid
| kTypedDataInt32x4ArrayCid | kTypedDataFloat32x4ArrayCid
| kTypedDataFloat64x2ArrayCid
| kOtherCid (n : nat).

Definition ClassId_eq_dec (a b : ClassId) : {a = b} + {a <> b}.
Proof. decide equality. apply Nat.eq_dec. Defined.

Definition ClassId_eqb (a b : ClassId) : bool :=
  if ClassId_eq_dec a b then true else false.

(** Compile-time constants the emitters embed in the code.  A small integer
    is its own tagged word; every other object is reached through the object
    pool. *)
Inductive Object : Type :=
| Smi (value : Z)
| Bool_True
| Bool_False
| null_object
| FieldHandle (id : nat)
| OtherObject (id : nat).

Definition IsSmi (o : Object) : bool :=
  match o with Smi _ => true | _ => false end.

(** [Smi::Cast(o).Value()]; the cast asserts [IsSmi]. *)
Definition Smi_Value (o : Object) : option Z :=
  match o with Smi v => Some v | _ => None end.

(** [reinterpret_cast<int64_t>(o.raw())] of a small-integer constant. *)
Definition Smi_raw (o : Object) : option Z :=
  match o with Smi v => Some (RawValue v) | _ => None end.

(** Reasons a deoptimization stub is registered with. *)
Inductive DeoptReasonId : Type :=
| kDeoptBinarySmiOp | kDeoptCheckArrayBound | kDeoptBinaryDoubleOp
| kDeoptCheckSmi | kDeoptTestCids.

Definition DeoptReasonId_eqb (a b : DeoptReasonId) : bool :=
  match a, b with
  | kDeoptBinarySmiOp, kDeoptBinarySmiOp
  | kDeoptCheckArrayBound, kDeoptCheckArrayBound
  | kDeoptBinaryDoubleOp, kDeoptBinaryDoubleOp
  | kDeoptCheckSmi, kDeoptCheckSmi
  | kDeoptTestCids, kDeoptTestCids => true
  | _, _ => false
  end.

(** The C++ [Label] objects that occur in the emitters. *)
Inductive LocalName : Type :=
| is_true | is_false | done | store_value | skip_store
| store_pointer | store_double | store_float32x4 | store_float64x2
| copy_double | copy_float32x4 | copy_float64x2 | is_smi.

Definition LocalName_eqb (a b : LocalName) : bool :=
  match a, b with
  | is_true, is_true | is_false, is_false | done, done
  | store_value, store_value | skip_store, skip_store
  | store_pointer, store_pointer | store_double, store_double
  | store_float32x4, store_float32x4 | store_float64x2, store_float64x2
  | copy_double, copy_double | copy_float32x4, copy_float32x4
  | copy_float64x2, copy_float64x2 | is_smi, is_smi => true
  | _, _ => false
  end.

Inductive Label : Type :=
| DeoptStub (deopt_id : nat) (reason : DeoptReasonId)
    (* compiler->AddDeoptStub(deopt_id, reason) *)
| BlockLabel (block : nat)
    (* a label handed in by the compiler: block entries, CreateBranchLabels *)
| LocalLabel (name : LocalName)
    (* a Label declared on the emitter's stack *)
| SlowPathEntry (n : nat)
| SlowPathExit (n : nat).

Definition Label_eqb (a b : Label) : bool :=
  match a, b with
  | DeoptStub i r, DeoptStub j s => Nat.eqb i j && DeoptReasonId_eqb r s
  | BlockLabel i, BlockLabel j => Nat.eqb i j
  | LocalLabel x, LocalLabel y => LocalName_eqb x y
  | SlowPathEntry i, SlowPathEntry j => Nat.eqb i j
  | SlowPathExit i, SlowPathExit j => Nat.eqb i j
  | _, _ => false
  end.

Record BranchLabels : Type := mkBranchLabels {
  true_label : Label;
  false_label : Label;
  fall_through : Label
}.

Record Class : Type := mkClass {
  class_id : ClassId;
  instance_size : Z
}.

(** ** The assembler vocabulary *)

Inductive Operand : Type :=
| Imm (imm : Z)
| Reg (rm : Register)
| Shifted (rm : Register) (sh : Shift) (amount : Z).

Inductive OperandSize : Type :=
| kByte | kUnsignedByte | kHalfword | kUnsignedHalfword
| kWord | kUnsignedWord | kDoubleWord.

Inductive Address : Type :=
| Address_offset (base : Register) (offset : Z)
    (* Address(base, offset) *)
| Address_reg (base : Register) (index : Register).
    (* Address(base, index, UXTX, Address::Unscaled) *)

(** One constructor per assembler entry point the emitters call. *)
Inductive Instr : Type :=
(* data processing *)
| add (rd rn : Register) (o : Operand)
| adds (rd rn : Register) (o : Operand)
| sub (rd rn : Register) (o : Operand)
| subs (rd rn : Register) (o : Operand)
| cmp (rn : Register) (o : Operand)
| and_ (rd rn : Register) (o : Operand)
| orr (rd rn : Register) (o : Operand)
| eor (rd rn : Register) (o : Operand)
| tsti (rn : Register) (imm : Z)
| mul (rd rn rm : Register)
| smulh (rd rn rm : Register)
| sdiv (rd rn rm : Register)
| msub (rd rn rm ra : Register)
| mov (rd rn : Register)
| csel (rd rn rm : Register) (c : Condition)
| Asr (rd rn : Register) (shift : Z)
| Lsl (rd rn : Register) (shift : Z)
| lslv (rd rn rm : Register)
| asrv (rd rn rm : Register)
(* macro instructions *)
| LoadImmediate (rd : Register) (imm : Z)
| AddImmediate (rd rn : Register) (imm : Z)
| AddImmediateSetFlags (rd rn : Register) (imm : Z)
| SubImmediateSetFlags (rd rn : Register) (imm : Z)
| AndImmediate (rd rn : Register) (imm : Z)
| OrImmediate (rd rn : Register) (imm : Z)
| XorImmediate (rd rn : Register) (imm : Z)
| CompareImmediate (rn : Register) (imm : Z)
| CompareRegisters (rn rm : Register)
| CompareObject (rn : Register) (o : Object)
| CompareClassId (rn : Register) (cid : ClassId)
| LoadObject (rd : Register) (o : Object)
| SmiTag (r : Register)
| SmiUntag (r : Register)
(* memory *)
| ldr (rt : Register) (a : Address) (sz : OperandSize)
| str (rt : Register) (a : Address) (sz : OperandSize)
| LoadFromOffset (rt base : Register) (offset : Z) (sz : OperandSize)
| LoadFieldFromOffset (rt base : Register) (offset : Z)
| fldrs (vt : VRegister) (a : Address)
| fldrd (vt : VRegister) (a : Address)
| fldrq (vt : VRegister) (a : Address)
| fstrs (vt : VRegister) (a : Address)
| StoreDToOffset (vt : VRegister) (base : Register) (offset : Z)
| StoreQToOffset (vt : VRegister) (base : Register) (offset : Z)
| LoadDFieldFromOffset (vt : VRegister) (base : Register) (offset : Z)
| StoreDFieldToOffset (vt : VRegister) (base : Register) (offset : Z)
| LoadQFieldFromOffset (vt : VRegister) (base : Register) (offset : Z)
| StoreQFieldToOffset (vt : VRegister) (base : Register) (offset : Z)
(* stores of object references *)
| StoreIntoObject (object : Register) (dest : Address) (value : Register)
| StoreIntoObjectNoBarrier (object : Register) (dest : Address) (value : Register)
| StoreIntoObjectNoBarrier_constant (object : Register) (dest : Address) (value : Object)
| StoreIntoObjectOffset (object : Register) (offset : Z) (value : Register)
    (can_value_be_smi : bool)
| StoreIntoObjectOffsetNoBarrier (object : Register) (offset : Z) (value : Register)
| StoreIntoObjectOffsetNoBarrier_constant (object : Register) (offset : Z)
    (value : Object)
(* allocation *)
| TryAllocate (cls : Class) (failure : Label) (instance_reg temp_reg : Register)
(* floating point *)
| fcmpd (vn vm : VRegister)
| scvtfd (vd : VRegister) (rn : Register)
(* control *)
| b_ (l : Label)
| b_cond (l : Label) (c : Condition)
| Bind (l : Label)
(* compiler services used by slow paths *)
| SaveLiveRegisters (cpu : list Register) (fpu : list VRegister)
| RestoreLiveRegisters (cpu : list Register) (fpu : list VRegister)
| GenerateCall_AllocationStub (cls : Class).

Definition Code := list Instr.

(** ** Machine state *)

(** What a call into the runtime leaves behind: the callee may overwrite
    every register, the flags and the heap; only the save area of the caller
    and the object pool are kept. *)
Record CallEffect : Type := mkCallEffect {
  call_regs : Register -> Z;
  call_vregs : VRegister -> Z;
  call_flags : Flags;
  call_mem : Z -> Z;
  call_heap_top : Z;
  call_heap_end : Z;
  call_store_buffer : list Z
}.

Record State : Type := mkState {
  regs : Register -> Z;          (* X registers *)
  vregs : VRegister -> Z;        (* V registers *)
  flags : Flags;                 (* NZCV *)
  mem : Z -> Z;                  (* byte-addressed memory *)
  stack : list Z;                (* the save area used by slow paths *)
  pool : Object -> Z;            (* tagged word of each pool object *)
  tags_of : Class -> Z;          (* header word of a fresh instance *)
  heap_top : Z;                  (* bump-allocation top and end *)
  heap_end : Z;
  store_buffer : list Z;         (* objects recorded by the write barrier *)
  calls : list CallEffect        (* outcomes of the runtime calls to come *)
}.

Definition with_regs (f : Register -> Z) (s : State) : State :=
  mkState f (vregs s) (flags s) (mem s) (stack s) (pool s) (tags_of s)
          (heap_top s) (heap_end s) (store_buffer s) (calls s).
Definition with_vregs (f : VRegister -> Z) (s : State) : State :=
  mkState (regs s) f (flags s) (mem s) (stack s) (pool s) (tags_of s)
          (heap_top s) (heap_end s) (store_buffer s) (calls s).
Definition with_flags (f : Flags) (s : State) : State :=
  mkState (regs s) (vregs s) f (mem s) (stack s) (pool s) (tags_of s)
          (heap_top s) (heap_end s) (store_buffer s) (calls s).
Definition with_mem (m : Z -> Z) (s : State) : State :=
  mkState (regs s) (vregs s) (flags s) m (stack s) (pool s) (tags_of s)
          (heap_top s) (heap_end s) (store_buffer s) (calls s).
Definition with_stack (k : list Z) (s : State) : State :=
  mkState (regs s) (vregs s) (flags s) (mem s) k (pool s) (tags_of s)
          (heap_top s) (heap_end s) (store_buffer s) (calls s).
Definition with_heap_top (t : Z) (s : State) : State :=
  mkState (regs s) (vregs s) (flags s) (mem s) (stack s) (pool s) (tags_of s)
          t (heap_end s) (store_buffer s) (calls s).
Definition with_store_buffer (l : list Z) (s : State) : State :=
  mkState (regs s) (vregs s) (flags s) (mem s) (stack s) (pool s) (tags_of s)
          (heap_top s) (heap_end s) l (calls s).

Definition upd (f : nat -> Z) (k : nat) (v : Z) : nat -> Z :=
  fun k' => if Nat.eqb k' k then v else f k'.

(** Reading [ZR] gives zero and writing it is discarded. *)
Definition get_reg (s : State) (r : Register) : Z :=
  if Nat.eqb r ZR then 0 else regs s r.

Definition set_reg (r : Register) (v : Z) (s : State) : State :=
  if Nat.eqb r ZR then s else with_regs (upd (regs s) r v) s.

Definition get_vreg (s : State) (v : VRegister) : Z := vregs s v.

Definition set_vreg (v : VRegister) (x : Z) (s : State) : State :=
  with_vregs (upd (vregs s) v x) s.

(** The low 64 bits of a V register: its D view. *)
Definition get_dreg (s : State) (v : VRegister) : Z := vregs s v mod 2 ^ 64.

Definition operand_value (s : State) (o : Operand) : Z :=
  match o with
  | Imm i => wrap i
  | Reg rm => get_reg s rm
  | Shifted rm sh n => shift64 sh (get_reg s rm) n
  end.

(** Tagged word of a constant: immediate for a small integer, from the pool
    otherwise. *)
Definition object_word (s : State) (o : Object) : Z :=
  match o with
  | Smi v => RawValue v
  | _ => pool s o
  end.

(** *** Memory: little-endian, byte addressed *)

Definition store_byte (m : Z -> Z) (a : Z) (v : Z) : Z -> Z :=
  fun a' => if a' =? a then v mod 256 else m a'.

Fixpoint store_bytes (n : nat) (m : Z -> Z) (a : Z) (v : Z) : Z -> Z :=
  match n with
  | O => m
  | S k => store_bytes k (store_byte m a v) (a + 1) (v / 256)
  end.

Fixpoint load_bytes (n : nat) (m : Z -> Z) (a : Z) : Z :=
  match n with
  | O => 0
  | S k => m a mod 256 + 256 * load_bytes k m (a + 1)
  end.

Definition size_bytes (sz : OperandSize) : nat :=
  match sz with
  | kByte | kUnsignedByte => 1
  | kHalfword | kUnsignedHalfword => 2
  | kWord | kUnsignedWord => 4
  | kDoubleWord => 8
  end.

Definition sign_extend (bits : Z) (v : Z) : Z :=
  if v <? 2 ^ (bits - 1) then v else wrap (v - 2 ^ bits).

(** A load widens to 64 bits according to its size and signedness. *)
Definition load_sized (sz : OperandSize) (m : Z -> Z) (a : Z) : Z :=
  let v := load_bytes (size_bytes sz) m a in
  match sz with
  | kByte => sign_extend 8 v
  | kHalfword => sign_extend 16 v
  | kWord => sign_extend 32 v
  | kUnsignedByte | kUnsignedHalfword | kUnsignedWord | kDoubleWord => v
  end.

Definition address_of (s : State) (a : Address) : Z :=
  match a with
  | Address_offset base off => wrap (get_reg s base + off)
  | Address_reg base index => wrap (get_reg s base + get_reg s index)
  end.

(** Address of a field of a tagged object pointer. *)
Definition field_address (s : State) (base : Register) (offset : Z) : Z :=
  wrap (get_reg s base + offset - kHeapObjectTag).

(** *** Floating-point comparison on IEEE-754 binary64 bit patterns *)

Definition double_is_nan (bits : Z) : bool :=
  let w := bits mod 2 ^ 64 in
  ((w / 2 ^ 52) mod 2 ^ 11 =? 2 ^ 11 - 1) && negb (w mod 2 ^ 52 =? 0).

(** Order key of a non-NaN double: sign and magnitude; both zeros map to 0. *)
Definition double_key (bits : Z) : Z :=
  let w := bits mod 2 ^ 64 in
  if w <? 2 ^ 63 then w else - (w - 2 ^ 63).

(** NZCV after [fcmp]: unordered 0011, equal 0110, less 1000, greater 0010. *)
Definition fcmp_flags (x y : Z) : Flags :=
  if double_is_nan x || double_is_nan y then mkFlags false false true true
  else if double_key x =? double_key y then mkFlags false true true false
  else if double_key x <? double_key y then mkFlags true false false false
  else mkFlags false false true false.

(** ** Execution of one instruction *)

Inductive StepResult : Type :=
| Continue (s : State)
| Goto (l : Label) (s : State)
| Fault.

Definition set_flags_of (rf : Z * Flags) (s : State) : State :=
  with_flags (snd rf) s.

Definition set_reg_flags (rd : Register) (rf : Z * Flags) (s : State) : State :=
  with_flags (snd rf) (set_reg rd (fst rf) s).

Definition store_at (n : nat) (a : Z) (v : Z) (s : State) : State :=
  with_mem (store_bytes n (mem s) a v) s.

(** Modelled from the spec: the write barrier of the assembler's
    [StoreIntoObject] is not under src/; a barrier-aware store records the
    written object for the collector unless the stored word is a small
    integer. *)
Definition record_barrier (object value : Z) (s : State) : State :=
  if Z.land value kSmiTagMask =? 0 then s
  else with_store_buffer (object :: store_buffer s) s.

Fixpoint restore_regs (rs : list Register) (vals : list Z) (s : State) : State :=
  match rs, vals with
  | r :: rs', v :: vals' => restore_regs rs' vals' (set_reg r v s)
  | _, _ => s
  end.

Fixpoint restore_vregs (vs : list VRegister) (vals : list Z) (s : State) : State :=
  match vs, vals with
  | r :: vs', v :: vals' => restore_vregs vs' vals' (set_vreg r v s)
  | _, _ => s
  end.

(** Modelled from the spec: the encoder/assembler collaborator and the
    compiler services for slow paths are not under src/.  Each instruction has
    its architectural meaning; a macro instruction has the meaning of the
    instruction it stands for; [TryAllocate] is the bump-pointer fast path
    that branches to [failure] on exhaustion; a runtime call consumes the next
    [CallEffect].  Instructions no property here executes ([scvtfd],
    [CompareClassId]) are not interpreted and fault. *)
Definition step (i : Instr) (s : State) : StepResult :=
  match i with
  | add rd rn o => Continue (set_reg rd (wrap (get_reg s rn + operand_value s o)) s)
  | adds rd rn o =>
      Continue (set_reg_flags rd (add_flags (get_reg s rn) (operand_value s o)) s)
  | sub rd rn o => Continue (set_reg rd (wrap (get_reg s rn - operand_value s o)) s)
  | subs rd rn o =>
      Continue (set_reg_flags rd (sub_flags (get_reg s rn) (operand_value s o)) s)
  | cmp rn o => Continue (set_flags_of (sub_flags (get_reg s rn) (operand_value s o)) s)
  | and_ rd rn o =>
      Continue (set_reg rd (Z.land (wrap (get_reg s rn)) (wrap (operand_value s o))) s)
  | orr rd rn o =>
      Continue (set_reg rd (Z.lor (wrap (get_reg s rn)) (wrap (operand_value s o))) s)
  | eor rd rn o =>
      Continue (set_reg rd (Z.lxor (wrap (get_reg s rn)) (wrap (operand_value s o))) s)
  | tsti rn imm =>
      Continue (with_flags (logic_flags (Z.land (wrap (get_reg s rn)) (wrap imm))) s)
  | mul rd rn rm => Continue (set_reg rd (wrap (get_reg s rn * get_reg s rm)) s)
  | smulh rd rn rm => Continue (set_reg rd (smulh64 (get_reg s rn) (get_reg s rm)) s)
  | sdiv rd rn rm => Continue (set_reg rd (sdiv64 (get_reg s rn) (get_reg s rm)) s)
  | msub rd rn rm ra =>
      Continue (set_reg rd (wrap (get_reg s ra - get_reg s rn * get_reg s rm)) s)
  | mov rd rn => Continue (set_reg rd (get_reg s rn) s)
  | csel rd rn rm c =>
      Continue (set_reg rd (if ConditionHolds c (flags s)
                            then get_reg s rn else get_reg s rm) s)
  | Asr rd rn n => Continue (set_reg rd (shift64 ASR (get_reg s rn) n) s)
  | Lsl rd rn n => Continue (set_reg rd (shift64 LSL (get_reg s rn) n) s)
  | lslv rd rn rm =>
      Continue (set_reg rd (shift64 LSL (get_reg s rn) (wrap (get_reg s rm) mod 64)) s)
  | asrv rd rn rm =>
      Continue (set_reg rd (shift64 ASR (get_reg s rn) (wrap (get_reg s rm) mod 64)) s)
  | LoadImmediate rd imm => Continue (set_reg rd (wrap imm) s)
  | AddImmediate rd rn imm => Continue (set_reg rd (wrap (get_reg s rn + imm)) s)
  | AddImmediateSetFlags rd rn imm =>
      Continue (set_reg_flags rd (add_flags (get_reg s rn) imm) s)
  | SubImmediateSetFlags rd rn imm =>
      Continue (set_reg_flags rd (sub_flags (get_reg s rn) imm) s)
  | AndImmediate rd rn imm =>
      Continue (set_reg rd (Z.land (wrap (get_reg s rn)) (wrap imm)) s)
  | OrImmediate rd rn imm =>
      Continue (set_reg rd (Z.lor (wrap (get_reg s rn)) (wrap imm)) s)
  | XorImmediate rd rn imm =>
      Continue (set_reg rd (Z.lxor (wrap (get_reg s rn)) (wrap imm)) s)
  | CompareImmediate rn imm => Continue (set_flags_of (sub_flags (get_reg s rn) imm) s)
  | CompareRegisters rn rm =>
      Continue (set_flags_of (sub_flags (get_reg s rn) (get_reg s rm)) s)
  | CompareObject rn o =>
      Continue (set_flags_of (sub_flags (get_reg s rn) (object_word s o)) s)
  | CompareClassId _ _ => Fault
  | LoadObject rd o => Continue (set_reg rd (object_word s o) s)
  | SmiTag r => Continue (set_reg r (shift64 LSL (get_reg s r) kSmiTagSize) s)
  | SmiUntag r => Continue (set_reg r (shift64 ASR (get_reg s r) kSmiTagSize) s)
  | ldr rt a sz => Continue (set_reg rt (load_sized sz (mem s) (address_of s a)) s)
  | str rt a sz => Continue (store_at (size_bytes sz) (address_of s a) (get_reg s rt) s)
  | LoadFromOffset rt base off sz =>
      Continue (set_reg rt (load_sized sz (mem s) (wrap (get_reg s base + off))) s)
  | LoadFieldFromOffset rt base off =>
      Continue (set_reg rt (load_bytes 8 (mem s) (field_address s base off)) s)
  | fldrs vt a => Continue (set_vreg vt (load_bytes 4 (mem s) (address_of s a)) s)
  | fldrd vt a => Continue (set_vreg vt (load_bytes 8 (mem s) (address_of s a)) s)
  | fldrq vt a => Continue (set_vreg vt (load_bytes 16 (mem s) (address_of s a)) s)
  | fstrs vt a => Continue (store_at 4 (address_of s a) (get_vreg s vt) s)
  | StoreDToOffset vt base off =>
      Continue (store_at 8 (wrap (get_reg s base + off)) (get_dreg s vt) s)
  | StoreQToOffset vt base off =>
      Continue (store_at 16 (wrap (get_reg s base + off)) (get_vreg s vt) s)
  | LoadDFieldFromOffset vt base off =>
      Continue (set_vreg vt (load_bytes 8 (mem s) (field_address s base off)) s)
  | StoreDFieldToOffset vt base off =>
      Continue (store_at 8 (field_address s base off) (get_dreg s vt) s)
  | LoadQFieldFromOffset vt base off =>
      Continue (set_vreg vt (load_bytes 16 (mem s) (field_address s base off)) s)
  | StoreQFieldToOffset vt base off =>
      Continue (store_at 16 (field_address s base off) (get_vreg s vt) s)
  | StoreIntoObject object dest value =>
      Continue (record_barrier (get_reg s object) (get_reg s value)
                  (store_at 8 (address_of s dest) (get_reg s value) s))
  | StoreIntoObjectNoBarrier object dest value =>
      Continue (store_at 8 (address_of s dest) (get_reg s value) s)
  | StoreIntoObjectNoBarrier_constant object dest value =>
      Continue (store_at 8 (address_of s dest) (object_word s value) s)
  | StoreIntoObjectOffset object off value _ =>
      Continue (record_barrier (get_reg s object) (get_reg s value)
                  (store_at 8 (field_address s object off) (get_reg s value) s))
  | StoreIntoObjectOffsetNoBarrier object off value =>
      Continue (store_at 8 (field_address s object off) (get_reg s value) s)
  | StoreIntoObjectOffsetNoBarrier_constant object off value =>
      Continue (store_at 8 (field_address s object off) (object_word s value) s)
  | TryAllocate cls failure instance_reg temp_reg =>
      let next := heap_top s + instance_size cls in
      if heap_end s <=? next then Goto failure s
      else Continue
             (set_reg instance_reg (wrap (heap_top s + kHeapObjectTag))
                (store_at 8 (heap_top s) (tags_of s cls) (with_heap_top next s)))
  | fcmpd vn vm => Continue (with_flags (fcmp_flags (get_dreg s vn) (get_dreg s vm)) s)
  | scvtfd _ _ => Fault
  | b_ l => Goto l s
  | b_cond l c => if ConditionHolds c (flags s) then Goto l s else Continue s
  | Bind _ => Continue s
  | SaveLiveRegisters cpu fpu =>
      Continue (with_stack (map (get_reg s) cpu ++ map (get_vreg s) fpu ++ stack s) s)
  | RestoreLiveRegisters cpu fpu =>
      let n := length cpu in
      let k := length fpu in
      if Nat.leb (n + k) (length (stack s)) then
        Continue (with_stack (skipn (n + k) (stack s))
                    (restore_vregs fpu (firstn k (skipn n (stack s)))
                       (restore_regs cpu (firstn n (stack s)) s)))
      else Fault
  | GenerateCall_AllocationStub cls =>
      match calls s with
      | [] => Fault
      | e :: rest =>
          Continue (mkState (call_regs e) (call_vregs e) (call_flags e) (call_mem e)
                      (stack s) (pool s) (tags_of s)
                      (call_heap_top e) (call_heap_end e) (call_store_buffer e) rest)
      end
  end.

(** ** Execution of emitted code *)

Inductive Outcome : Type :=
| Fallthrough (s : State)        (* control leaves through the end of the code *)
| Jump (l : Label) (s : State)   (* control leaves to a label bound elsewhere *)
| Stuck.

Definition binds_label (l : Label) (i : Instr) : bool :=
  match i with Bind l' => Label_eqb l l' | _ => false end.

(** One forward pass over a stretch of code.  With [seek = Some l] control is
    on its way to label [l]: instructions are skipped until [Bind l]. *)
Fixpoint run (code : Code) (seek : option Label) (s : State) : Outcome :=
  match code with
  | [] => match seek with None => Fallthrough s | Some l => Jump l s end
  | i :: rest =>
      match seek with
      | Some l => if binds_label l i then run rest None s else run rest (Some l) s
      | None =>
          match step i s with
          | Continue s' => run rest None s'
          | Goto l s' => run rest (Some l) s'
          | Fault => Stuck
          end
      end
  end.

(** An instruction's code: the main-line stretch and the out-of-line slow
    path appended after all main-line code. *)
Record Emitted : Type := mkEmitted {
  main_code : Code;
  slow_code : Code
}.

Definition binds (code : Code) (l : Label) : bool := existsb (binds_label l) code.

(** Execution across the two stretches: a jump out of the main line to a
    label of the slow path continues there, and a jump back continues in the
    main line at that label. *)
Fixpoint exec (fuel : nat) (e : Emitted) (seek : option Label) (s : State) : Outcome :=
  match run (main_code e) seek s with
  | Jump l s1 =>
      if binds (slow_code e) l then
        match run (slow_code e) (Some l) s1 with
        | Jump l2 s2 =>
            if binds (main_code e) l2 then
              match fuel with
              | O => Stuck
              | S fuel' => exec fuel' e (Some l2) s2
              end
            else Jump l2 s2
        | Fallthrough _ => Stuck
        | Stuck => Stuck
        end
      else Jump l s1
  | o => o
  end.

(** ** Locations and location summaries *)

Inductive Location : Type :=
| RegisterLocation (r : Register)
| FpuRegisterLocation (v : VRegister)
| Constant (o : Object)
| StackSlot (index : Z)
| Invalid.

Definition IsConstant (l : Location) : bool :=
  match l with Constant _ => true | _ => false end.
Definition IsRegister (l : Location) : bool :=
  match l with RegisterLocation _ => true | _ => false end.

(** The accessors assert the kind of the location. *)
Definition reg (l : Location) : option Register :=
  match l with RegisterLocation r => Some r | _ => None end.
Definition fpu_reg (l : Location) : option VRegister :=
  match l with FpuRegisterLocation v => Some v | _ => None end.
Definition constant (l : Location) : option Object :=
  match l with Constant o => Some o | _ => None end.

Record RegisterSet : Type := mkRegisterSet {
  cpu_registers : list Register;
  fpu_registers : list VRegister
}.

Definition RegisterSet_Add (l : Location) (s : RegisterSet) : RegisterSet :=
  match l with
  | RegisterLocation r => mkRegisterSet (r :: cpu_registers s) (fpu_registers s)
  | FpuRegisterLocation v => mkRegisterSet (cpu_registers s) (v :: fpu_registers s)
  | _ => s
  end.

Definition RegisterSet_Remove (l : Location) (s : RegisterSet) : RegisterSet :=
  match l with
  | RegisterLocation r =>
      mkRegisterSet (filter (fun r' => negb (Nat.eqb r' r)) (cpu_registers s))
                    (fpu_registers s)
  | FpuRegisterLocation v =>
      mkRegisterSet (cpu_registers s)
                    (filter (fun v' => negb (Nat.eqb v' v)) (fpu_registers s))
  | _ => s
  end.

Record LocationSummary : Type := mkLocationSummary {
  inputs : list Location;
  temps : list Location;
  output : Location;
  live_registers : RegisterSet
}.

Definition in_ (locs : LocationSummary) (i : nat) : option Location :=
  nth_error (inputs locs) i.
Definition temp_ (locs : LocationSummary) (i : nat) : option Location :=
  nth_error (temps locs) i.
Definition out (locs : LocationSummary) : Location := output locs.

(** Emission is partial: sequencing in the option monad. *)
Definition obind {A B : Type} (m : option A) (k : A -> option B) : option B :=
  match m with Some a => k a | None => None end.

Notation "x <- m ;; k" := (obind m (fun x => k))
  (at level 61, m at next level, right associativity).
Notation "' p <- m ;; k" := (obind m (fun x => match x with p => k end))
  (at level 61, p pattern, m at next level, right associativity).

Definition ASSERT (cond : bool) : option unit :=
  if cond then Some tt else None.

(** ** Static data the emitters consult *)

Inductive Token_Kind : Type :=
| kEQ | kNE | kLT | kGT | kLTE | kGTE
| kADD | kSUB | kMUL | kTRUNCDIV | kMOD | kDIV
| kBIT_AND | kBIT_OR | kBIT_XOR | kSHL | kSHR
| kOR | kAND | kIS | kISNOT.

Definition Token_Kind_eqb (a b : Token_Kind) : bool :=
  match a, b with
  | kEQ, kEQ | kNE, kNE | kLT, kLT | kGT, kGT | kLTE, kLTE | kGTE, kGTE
  | kADD, kADD | kSUB, kSUB | kMUL, kMUL | kTRUNCDIV, kTRUNCDIV | kMOD, kMOD
  | kDIV, kDIV | kBIT_AND, kBIT_AND | kBIT_OR, kBIT_OR | kBIT_XOR, kBIT_XOR
  | kSHL, kSHL | kSHR, kSHR | kOR, kOR | kAND, kAND | kIS, kIS
  | kISNOT, kISNOT => true
  | _, _ => false
  end.

Inductive Representation : Type :=
| kNoRepresentation | kTagged | kUnboxedDouble
| kUnboxedInt32x4 | kUnboxedFloat32x4 | kUnboxedFloat64x2.

(** Modelled from the spec: class [Range] of the range analysis is not under
    src/; a range is a closed interval whose ends may be infinite, the static
    knowledge the optimizer hands to this layer. *)
Inductive RangeBoundary : Type :=
| kMinusInfinity
| Finite (value : Z)
| kPlusInfinity.

Definition boundary_le (a b : RangeBoundary) : bool :=
  match a, b with
  | kMinusInfinity, _ => true
  | _, kPlusInfinity => true
  | Finite x, Finite y => x <=? y
  | _, _ => false
  end.

Record Range : Type := mkRange {
  range_min : RangeBoundary;
  range_max : RangeBoundary
}.

Definition IsWithin (r : Range) (lo hi : RangeBoundary) : bool :=
  boundary_le lo (range_min r) && boundary_le (range_max r) hi.

Definition Overlaps (r : Range) (lo hi : Z) : bool :=
  boundary_le (range_min r) (Finite hi) && boundary_le (Finite lo) (range_max r).

(** A value the range admits. *)
Definition range_contains (r : Range) (v : Z) : bool :=
  boundary_le (range_min r) (Finite v) && boundary_le (Finite v) (range_max r).

(** Constants of the object layout and of the compilation, external to this
    file. *)
Record FlowGraphCompiler : Type := mkFlowGraphCompiler {
  is_optimizing : bool;
  FLAG_throw_on_javascript_int_overflow : bool;
  DataOffsetFor : ClassId -> Z;
  double_class : Class;
  float32x4_class : Class;
  float64x2_class : Class;
  class_id_value : ClassId -> Z;       (* the number of a class id *)
  Double_value_offset : Z;
  Float32x4_value_offset : Z;
  Float64x2_value_offset : Z;
  Field_is_nullable_offset : Z;
  Field_kind_bits_offset : Z;
  Field_guarded_cid_offset : Z;
  Field_kUnboxingCandidateBit : Z
}.

(** ** The emitters *)

(** *** Conditions and the branch protocol *)

Definition NegateCondition (condition : Condition) : option Condition :=
  match condition with
  | EQ => Some NE
  | NE => Some EQ
  | LT => Some GE
  | LE => Some GT
  | GT => Some LE
  | GE => Some LT
  | CC => Some CS
  | LS => Some HI
  | HI => Some LS
  | CS => Some CC
  | _ => None                       (* UNREACHABLE() *)
  end.

(** The ten condition codes [NegateCondition] has a case for. *)
Definition handled_conditions : list Condition :=
  [EQ; NE; LT; LE; GT; GE; CC; CS; HI; LS].

Definition TokenKindToSmiCondition (kind : Token_Kind) : option Condition :=
  match kind with
  | kEQ => Some EQ
  | kNE => Some NE
  | kLT => Some LT
  | kGT => Some GT
  | kLTE => Some LE
  | kGTE => Some GE
  | _ => None                       (* UNREACHABLE() *)
  end.

Definition FlipCondition (condition : Condition) : option Condition :=
  match condition with
  | EQ => Some EQ
  | NE => Some NE
  | LT => Some GT
  | LE => Some GE
  | GT => Some LT
  | GE => Some LE
  | CC => Some HI
  | LS => Some CS
  | HI => Some CC
  | CS => Some LS
  | _ => None                       (* UNREACHABLE() *)
  end.

Definition EmitBranchOnCondition (true_condition : Condition)
    (labels : BranchLabels) : option Code :=
  if Label_eqb (fall_through labels) (false_label labels) then
    (* If the next block is the false successor we will fall through to it. *)
    Some [b_cond (true_label labels) true_condition]
  else
    (* If the next block is not the false successor we will branch to it. *)
    false_condition <- NegateCondition true_condition ;;
    Some (b_cond (false_label labels) false_condition ::
          (* Fall through or jump to the true successor. *)
          (if negb (Label_eqb (fall_through labels) (true_label labels))
           then [b_ (true_label labels)] else [])).

(** A comparison instruction: [EqualityCompareInstr], [RelationalOpInstr]. *)
Record ComparisonInstr : Type := mkComparisonInstr {
  kind : Token_Kind;
  operation_cid : ClassId;
  locs : LocationSummary
}.

Definition EmitSmiComparisonOp (locs : LocationSummary) (kind : Token_Kind)
    : option (Code * Condition) :=
  left <- in_ locs 0 ;;
  right <- in_ locs 1 ;;
  _ <- ASSERT (negb (IsConstant left) || negb (IsConstant right)) ;;
  true_condition <- TokenKindToSmiCondition kind ;;
  if IsConstant left then
    r <- reg right ;;
    c <- constant left ;;
    flipped <- FlipCondition true_condition ;;
    Some ([CompareObject r c], flipped)
  else if IsConstant right then
    l <- reg left ;;
    c <- constant right ;;
    Some ([CompareObject l c], true_condition)
  else
    l <- reg left ;;
    r <- reg right ;;
    Some ([CompareRegisters l r], true_condition).

Definition TokenKindToDoubleCondition (kind : Token_Kind) : option Condition :=
  match kind with
  | kEQ => Some EQ
  | kNE => Some NE
  | kLT => Some LT
  | kGT => Some GT
  | kLTE => Some LE
  | kGTE => Some GE
  | _ => None                       (* UNREACHABLE() *)
  end.

Definition EmitDoubleComparisonOp (locs : LocationSummary) (kind : Token_Kind)
    : option (Code * Condition) :=
  l0 <- in_ locs 0 ;;
  left <- fpu_reg l0 ;;
  l1 <- in_ locs 1 ;;
  right <- fpu_reg l1 ;;
  true_condition <- TokenKindToDoubleCondition kind ;;
  Some ([fcmpd left right], true_condition).

Definition EqualityCompareInstr_EmitComparisonCode (this : ComparisonInstr)
    (labels : BranchLabels) : option (Code * Condition) :=
  if ClassId_eqb (operation_cid this) kSmiCid then
    EmitSmiComparisonOp (locs this) (kind this)
  else
    _ <- ASSERT (ClassId_eqb (operation_cid this) kDoubleCid) ;;
    EmitDoubleComparisonOp (locs this) (kind this).

(** The code both comparison instructions use to turn the branch outcome into
    one of the two boolean constants. *)
Definition materialize_bool (result : Register) : Code :=
  [ Bind (LocalLabel is_false);
    LoadObject result Bool_False;
    b_ (LocalLabel done);
    Bind (LocalLabel is_true);
    LoadObject result Bool_True;
    Bind (LocalLabel done) ].

(** The extra branch for an unordered comparison of doubles. *)
Definition nan_branch (cid : ClassId) (true_condition : Condition)
    (target : Label) : Code :=
  if ClassId_eqb cid kDoubleCid && negb (Condition_eqb true_condition NE) then
    (* Special case for NaN comparison. Result is always false unless
       relational operator is !=. *)
    [b_cond target VS]
  else [].

Definition EqualityCompareInstr_EmitNativeCode (this : ComparisonInstr)
    : option Code :=
  _ <- ASSERT (Token_Kind_eqb (kind this) kEQ || Token_Kind_eqb (kind this) kNE) ;;
  let labels :=
    mkBranchLabels (LocalLabel is_true) (LocalLabel is_false) (LocalLabel is_false) in
  '(cmp_code, true_condition) <- EqualityCompareInstr_EmitComparisonCode this labels ;;
  let nan := nan_branch (operation_cid this) true_condition (LocalLabel is_false) in
  branch <- EmitBranchOnCondition true_condition labels ;;
  result <- reg (out (locs this)) ;;
  Some (cmp_code ++ nan ++ branch ++ materialize_bool result).

Definition EqualityCompareInstr_EmitBranchCode (this : ComparisonInstr)
    (labels : BranchLabels) : option Code :=
  _ <- ASSERT (Token_Kind_eqb (kind this) kNE || Token_Kind_eqb (kind this) kEQ) ;;
  '(cmp_code, true_condition) <- EqualityCompareInstr_EmitComparisonCode this labels ;;
  let nan := nan_branch (operation_cid this) true_condition (false_label labels) in
  branch <- EmitBranchOnCondition true_condition labels ;;
  Some (cmp_code ++ nan ++ branch).

Definition RelationalOpInstr_EmitComparisonCode (this : ComparisonInstr)
    (labels : BranchLabels) : option (Code * Condition) :=
  if ClassId_eqb (operation_cid this) kSmiCid then
    EmitSmiComparisonOp (locs this) (kind this)
  else
    _ <- ASSERT (ClassId_eqb (operation_cid this) kDoubleCid) ;;
    EmitDoubleComparisonOp (locs this) (kind this).

Definition RelationalOpInstr_EmitNativeCode (this : ComparisonInstr)
    : option Code :=
  let labels :=
    mkBranchLabels (LocalLabel is_true) (LocalLabel is_false) (LocalLabel is_false) in
  '(cmp_code, true_condition) <- RelationalOpInstr_EmitComparisonCode this labels ;;
  let nan := nan_branch (operation_cid this) true_condition (LocalLabel is_false) in
  branch <- EmitBranchOnCondition true_condition labels ;;
  result <- reg (out (locs this)) ;;
  Some (cmp_code ++ nan ++ branch ++ materialize_bool result).

Definition RelationalOpInstr_EmitBranchCode (this : ComparisonInstr)
    (labels : BranchLabels) : option Code :=
  '(cmp_code, true_condition) <- RelationalOpInstr_EmitComparisonCode this labels ;;
  let nan := nan_branch (operation_cid this) true_condition (false_label labels) in
  branch <- EmitBranchOnCondition true_condition labels ;;
  Some (cmp_code ++ nan ++ branch).

(** *** Indexed loads and stores *)

Record LoadIndexedInstr : Type := mkLoadIndexedInstr {
  li_class_id : ClassId;
  li_index_scale : Z;
  li_IsExternal : bool;
  li_locs : LocationSummary
}.

Definition LoadIndexedInstr_representation (cid : ClassId) : option Representation :=
  match cid with
  | kArrayCid | kImmutableArrayCid
  | kTypedDataInt8ArrayCid | kTypedDataUint8ArrayCid
  | kTypedDataUint8ClampedArrayCid
  | kExternalTypedDataUint8ArrayCid | kExternalTypedDataUint8ClampedArrayCid
  | kTypedDataInt16ArrayCid | kTypedDataUint16ArrayCid
  | kOneByteStringCid | kTwoByteStringCid
  | kTypedDataInt32ArrayCid | kTypedDataUint32ArrayCid => Some kTagged
  | kTypedDataFloat32ArrayCid | kTypedDataFloat64ArrayCid => Some kUnboxedDouble
  | kTypedDataInt32x4ArrayCid => Some kUnboxedInt32x4
  | kTypedDataFloat32x4ArrayCid => Some kUnboxedFloat32x4
  | kTypedDataFloat64x2ArrayCid => Some kUnboxedFloat64x2
  | _ => None                       (* UNIMPLEMENTED() *)
  end.

Definition is_unboxed_representation (r : Representation) : bool :=
  match r with
  | kUnboxedDouble | kUnboxedFloat32x4 | kUnboxedInt32x4 | kUnboxedFloat64x2 => true
  | _ => false
  end.

Definition LoadIndexedInstr_EmitNativeCode (compiler : FlowGraphCompiler)
    (this : LoadIndexedInstr) : option Code :=
  l0 <- in_ (li_locs this) 0 ;;
  array <- reg l0 ;;
  l1 <- in_ (li_locs this) 1 ;;
  index <- reg l1 ;;
  (* The array register points to the backing store for external arrays. *)
  let offset :=
    if negb (li_IsExternal this)
    then DataOffsetFor compiler (li_class_id this) - kHeapObjectTag
    else 0 in
  '(address_code, element_address) <-
    (if li_index_scale this =? 1 then
       Some ([add index array (Shifted index ASR kSmiTagSize)],
             Address_offset index offset)
     else if li_index_scale this =? 2 then
       if negb (offset =? 0) then
         Some ([add index array (Reg index)], Address_offset index offset)
       else
         Some ([], Address_reg array index)
     else if li_index_scale this =? 4 then
       Some ([add index array (Shifted index LSL 1)], Address_offset index offset)
     else if li_index_scale this =? 8 then
       Some ([add index array (Shifted index LSL 2)], Address_offset index offset)
     else if li_index_scale this =? 16 then
       Some ([add index array (Shifted index LSL 3)], Address_offset index offset)
     else None) ;;                  (* UNREACHABLE() *)
  representation <- LoadIndexedInstr_representation (li_class_id this) ;;
  if is_unboxed_representation representation then
    result <- fpu_reg (out (li_locs this)) ;;
    match li_class_id this with
    | kTypedDataFloat32ArrayCid =>
        (* Load single precision float. *)
        Some (address_code ++ [fldrs result element_address])
    | kTypedDataFloat64ArrayCid =>
        (* Load double precision float. *)
        Some (address_code ++ [fldrd result element_address])
    | kTypedDataFloat64x2ArrayCid
    | kTypedDataInt32x4ArrayCid
    | kTypedDataFloat32x4ArrayCid =>
        Some (address_code ++ [fldrq result element_address])
    | _ => Some address_code
    end
  else
    result <- reg (out (li_locs this)) ;;
    match li_class_id this with
    | kTypedDataInt8ArrayCid =>
        _ <- ASSERT (li_index_scale this =? 1) ;;
        Some (address_code ++ [ldr result element_address kByte; SmiTag result])
    | kTypedDataUint8ArrayCid
    | kTypedDataUint8ClampedArrayCid
    | kExternalTypedDataUint8ArrayCid
    | kExternalTypedDataUint8ClampedArrayCid
    | kOneByteStringCid =>
        _ <- ASSERT (li_index_scale this =? 1) ;;
        Some (address_code ++ [ldr result element_address kUnsignedByte; SmiTag result])
    | kTypedDataInt16ArrayCid =>
        Some (address_code ++ [ldr result element_address kHalfword; SmiTag result])
    | kTypedDataUint16ArrayCid
    | kTwoByteStringCid =>
        Some (address_code ++
              [ldr result element_address kUnsignedHalfword; SmiTag result])
    | kTypedDataInt32ArrayCid =>
        Some (address_code ++ [ldr result element_address kWord; SmiTag result])
    | kTypedDataUint32ArrayCid =>
        Some (address_code ++ [ldr result element_address kUnsignedWord; SmiTag result])
    | _ =>
        _ <- ASSERT (ClassId_eqb (li_class_id this) kArrayCid
                     || ClassId_eqb (li_class_id this) kImmutableArrayCid) ;;
        Some (address_code ++ [ldr result element_address kDoubleWord])
    end.

Record StoreIndexedInstr : Type := mkStoreIndexedInstr {
  si_class_id : ClassId;
  si_index_scale : Z;
  si_IsExternal : bool;
  si_ShouldEmitStoreBarrier : bool;
  si_locs : LocationSummary
}.

(** [static_cast<int8_t>(value)]. *)
Definition static_cast_int8 (value : Z) : Z :=
  let low := value mod 256 in
  if low <? 128 then low else low - 256.

Definition StoreIndexedInstr_EmitNativeCode (compiler : FlowGraphCompiler)
    (this : StoreIndexedInstr) : option Code :=
  l0 <- in_ (si_locs this) 0 ;;
  array <- reg l0 ;;
  index <- in_ (si_locs this) 1 ;;
  index_reg <- reg index ;;
  scale_code <-
    (if si_index_scale this =? 1 then Some [SmiUntag index_reg]
     else if si_index_scale this =? 2 then Some []
     else if si_index_scale this =? 4 then Some [Lsl index_reg index_reg 1]
     else if si_index_scale this =? 8 then Some [Lsl index_reg index_reg 2]
     else if si_index_scale this =? 16 then Some [Lsl index_reg index_reg 3]
     else None) ;;                  (* UNREACHABLE() *)
  let offset_code :=
    if negb (si_IsExternal this) then
      [AddImmediate index_reg index_reg
         (DataOffsetFor compiler (si_class_id this) - kHeapObjectTag)]
    else [] in
  let element_address := Address_reg array index_reg in
  let prefix := scale_code ++ offset_code in
  in2 <- in_ (si_locs this) 2 ;;
  match si_class_id this with
  | kArrayCid =>
      if si_ShouldEmitStoreBarrier this then
        value <- reg in2 ;;
        Some (prefix ++ [StoreIntoObject array element_address value])
      else if IsConstant in2 then
        c <- constant in2 ;;
        Some (prefix ++ [StoreIntoObjectNoBarrier_constant array element_address c])
      else
        value <- reg in2 ;;
        Some (prefix ++ [StoreIntoObjectNoBarrier array element_address value])
  | kTypedDataInt8ArrayCid
  | kTypedDataUint8ArrayCid
  | kExternalTypedDataUint8ArrayCid
  | kOneByteStringCid =>
      if IsConstant in2 then
        c <- constant in2 ;;
        v <- Smi_Value c ;;
        Some (prefix ++ [LoadImmediate TMP (static_cast_int8 v);
                         str TMP element_address kUnsignedByte])
      else
        value <- reg in2 ;;
        Some (prefix ++ [SmiUntag value; str value element_address kUnsignedByte])
  | kTypedDataUint8ClampedArrayCid
  | kExternalTypedDataUint8ClampedArrayCid =>
      if IsConstant in2 then
        c <- constant in2 ;;
        v <- Smi_Value c ;;
        (* Clamp to 0x0 or 0xFF respectively. *)
        let value := if v >? 255 then 255 else if v <? 0 then 0 else v in
        Some (prefix ++ [LoadImmediate TMP (static_cast_int8 value);
                         str TMP element_address kUnsignedByte])
      else
        value <- reg in2 ;;
        Some (prefix ++
              [ SmiUntag value;
                CompareImmediate value 255;
                (* Clamp to 0x00 or 0xFF respectively. *)
                b_cond (LocalLabel store_value) LS;
                LoadImmediate TMP 0;
                LoadImmediate TMP2 255;
                csel value TMP value LE;
                csel value TMP2 value GT;
                Bind (LocalLabel store_value);
                str value element_address kUnsignedByte ])
  | kTypedDataInt16ArrayCid
  | kTypedDataUint16ArrayCid =>
      value <- reg in2 ;;
      Some (prefix ++ [SmiUntag value; str value element_address kUnsignedHalfword])
  | kTypedDataInt32ArrayCid
  | kTypedDataUint32ArrayCid =>
      value <- reg in2 ;;
      Some (prefix ++ [SmiUntag value; str value element_address kUnsignedWord])
  | kTypedDataFloat32ArrayCid =>
      v <- fpu_reg in2 ;;
      Some (prefix ++ [add index_reg index_reg (Reg array);
                       fstrs v (Address_offset index_reg 0)])
  | kTypedDataFloat64ArrayCid =>
      v <- fpu_reg in2 ;;
      Some (prefix ++ [add index_reg index_reg (Reg array);
                       StoreDToOffset v index_reg 0])
  | kTypedDataFloat64x2ArrayCid
  | kTypedDataInt32x4ArrayCid
  | kTypedDataFloat32x4ArrayCid =>
      v <- fpu_reg in2 ;;
      Some (prefix ++ [add index_reg index_reg (Reg array);
                       StoreQToOffset v index_reg 0])
  | _ => None                       (* UNREACHABLE() *)
  end.

(** *** Instance-field stores *)

Record StoreInstanceFieldInstr : Type := mkStoreInstanceFieldInstr {
  sf_IsUnboxedStore : bool;
  sf_IsPotentialUnboxedStore : bool;
  sf_is_initialization : bool;
  sf_UnboxedFieldCid : ClassId;     (* field().UnboxedFieldCid() *)
  sf_field : Object;                (* Field::ZoneHandle(field().raw()) *)
  sf_offset_in_bytes : Z;
  sf_ShouldEmitStoreBarrier : bool;
  sf_CanValueBeSmi : bool;
  sf_locs : LocationSummary
}.

(** [StoreInstanceFieldSlowPath::EmitNativeCode] for the [n]-th slow path the
    instruction registered; [locs] is the summary as emission left it. *)
Definition StoreInstanceFieldSlowPath_EmitNativeCode (n : nat)
    (locs : LocationSummary) (cls : Class) : option Code :=
  let live := RegisterSet_Remove (out locs) (live_registers locs) in
  t0 <- temp_ locs 0 ;;
  temp0 <- reg t0 ;;
  Some [ Bind (SlowPathEntry n);
         SaveLiveRegisters (cpu_registers live) (fpu_registers live);
         GenerateCall_AllocationStub cls;
         mov temp0 R0;
         RestoreLiveRegisters (cpu_registers live) (fpu_registers live);
         b_ (SlowPathExit n) ].

(** The allocate-and-install sequence shared by the unboxed stores. *)
Definition allocate_box (n : nat) (cls : Class) (instance_reg temp temp2 : Register)
    (offset_in_bytes : Z) : Code :=
  [ TryAllocate cls (SlowPathEntry n) temp temp2;
    Bind (SlowPathExit n);
    mov temp2 temp;
    StoreIntoObjectOffset instance_reg offset_in_bytes temp2 true ].

Definition StoreInstanceFieldInstr_EmitNativeCode (compiler : FlowGraphCompiler)
    (this : StoreInstanceFieldInstr) : option Emitted :=
  let locs := sf_locs this in
  l0 <- in_ locs 0 ;;
  instance_reg <- reg l0 ;;
  l1 <- in_ locs 1 ;;
  if sf_IsUnboxedStore this && is_optimizing compiler then
    value <- fpu_reg l1 ;;
    t0 <- temp_ locs 0 ;;
    temp <- reg t0 ;;
    t1 <- temp_ locs 1 ;;
    temp2 <- reg t1 ;;
    let cid := sf_UnboxedFieldCid this in
    '(init_code, slow) <-
      (if sf_is_initialization this then
         cls <- match cid with
                | kDoubleCid => Some (double_class compiler)
                | kFloat32x4Cid => Some (float32x4_class compiler)
                | kFloat64x2Cid => Some (float64x2_class compiler)
                | _ => None         (* UNREACHABLE() *)
                end ;;
         slow_path <- StoreInstanceFieldSlowPath_EmitNativeCode 0 locs cls ;;
         Some (allocate_box 0 cls instance_reg temp temp2 (sf_offset_in_bytes this),
               slow_path)
       else
         Some ([LoadFieldFromOffset temp instance_reg (sf_offset_in_bytes this)], [])) ;;
    store <- match cid with
             | kDoubleCid =>
                 Some [StoreDFieldToOffset value temp (Double_value_offset compiler)]
             | kFloat32x4Cid =>
                 Some [StoreQFieldToOffset value temp (Float32x4_value_offset compiler)]
             | kFloat64x2Cid =>
                 Some [StoreQFieldToOffset value temp (Float64x2_value_offset compiler)]
             | _ => None            (* UNREACHABLE() *)
             end ;;
    Some (mkEmitted (init_code ++ store) slow)
  else
    '(unboxing_code, slow) <-
      (if sf_IsPotentialUnboxedStore this then
         value_reg <- reg l1 ;;
         t0 <- temp_ locs 0 ;;
         temp <- reg t0 ;;
         t1 <- temp_ locs 1 ;;
         temp2 <- reg t1 ;;
         t2 <- temp_ locs 2 ;;
         fpu_temp <- fpu_reg t2 ;;
         let locs' :=
           if negb (is_optimizing compiler) then
             mkLocationSummary (inputs locs) (temps locs) (output locs)
               (RegisterSet_Add l1 (RegisterSet_Add l0 (live_registers locs)))
           else locs in
         slow0 <- StoreInstanceFieldSlowPath_EmitNativeCode 0 locs' (double_class compiler) ;;
         slow1 <- StoreInstanceFieldSlowPath_EmitNativeCode 1 locs' (float32x4_class compiler) ;;
         slow2 <- StoreInstanceFieldSlowPath_EmitNativeCode 2 locs' (float64x2_class compiler) ;;
         Some
           ([ LoadObject temp (sf_field this);
              LoadFieldFromOffset temp2 temp (Field_is_nullable_offset compiler);
              CompareImmediate temp2 (class_id_value compiler kNullCid);
              b_cond (LocalLabel store_pointer) EQ;
              LoadFromOffset temp2 temp
                (Field_kind_bits_offset compiler - kHeapObjectTag) kUnsignedByte;
              tsti temp2 (Z.shiftl 1 (Field_kUnboxingCandidateBit compiler));
              b_cond (LocalLabel store_pointer) EQ;
              LoadFieldFromOffset temp2 temp (Field_guarded_cid_offset compiler);
              CompareImmediate temp2 (class_id_value compiler kDoubleCid);
              b_cond (LocalLabel store_double) EQ;
              LoadFieldFromOffset temp2 temp (Field_guarded_cid_offset compiler);
              CompareImmediate temp2 (class_id_value compiler kFloat32x4Cid);
              b_cond (LocalLabel store_float32x4) EQ;
              LoadFieldFromOffset temp2 temp (Field_guarded_cid_offset compiler);
              CompareImmediate temp2 (class_id_value compiler kFloat64x2Cid);
              b_cond (LocalLabel store_float64x2) EQ;
              (* Fall through. *)
              b_ (LocalLabel store_pointer) ]
            ++ [ Bind (LocalLabel store_double);
                 LoadFieldFromOffset temp instance_reg (sf_offset_in_bytes this);
                 CompareObject temp null_object;
                 b_cond (LocalLabel copy_double) NE ]
            ++ allocate_box 0 (double_class compiler) instance_reg temp temp2
                 (sf_offset_in_bytes this)
            ++ [ Bind (LocalLabel copy_double);
                 LoadDFieldFromOffset fpu_temp value_reg (Double_value_offset compiler);
                 StoreDFieldToOffset fpu_temp temp (Double_value_offset compiler);
                 b_ (LocalLabel skip_store) ]
            ++ [ Bind (LocalLabel store_float32x4);
                 LoadFieldFromOffset temp instance_reg (sf_offset_in_bytes this);
                 CompareObject temp null_object;
                 b_cond (LocalLabel copy_float32x4) NE ]
            ++ allocate_box 1 (float32x4_class compiler) instance_reg temp temp2
                 (sf_offset_in_bytes this)
            ++ [ Bind (LocalLabel copy_float32x4);
                 LoadQFieldFromOffset fpu_temp value_reg (Float32x4_value_offset compiler);
                 StoreQFieldToOffset fpu_temp value_reg (Float32x4_value_offset compiler);
                 b_ (LocalLabel skip_store) ]
            ++ [ Bind (LocalLabel store_float64x2);
                 LoadFieldFromOffset temp instance_reg (sf_offset_in_bytes this);
                 CompareObject temp null_object;
                 b_cond (LocalLabel copy_float64x2) NE ]
            ++ allocate_box 2 (float64x2_class compiler) instance_reg temp temp2
                 (sf_offset_in_bytes this)
            ++ [ Bind (LocalLabel copy_float64x2);
                 LoadQFieldFromOffset fpu_temp value_reg (Float64x2_value_offset compiler);
                 StoreQFieldToOffset fpu_temp value_reg (Float64x2_value_offset compiler);
                 b_ (LocalLabel skip_store) ]
            ++ [ Bind (LocalLabel store_pointer) ],
            slow0 ++ slow1 ++ slow2)
       else Some ([], [])) ;;
    store <-
      (if sf_ShouldEmitStoreBarrier this then
         value_reg <- reg l1 ;;
         Some (StoreIntoObjectOffset instance_reg (sf_offset_in_bytes this) value_reg
                 (sf_CanValueBeSmi this))
       else if IsConstant l1 then
         c <- constant l1 ;;
         Some (StoreIntoObjectOffsetNoBarrier_constant instance_reg
                 (sf_offset_in_bytes this) c)
       else
         value_reg <- reg l1 ;;
         Some (StoreIntoObjectOffsetNoBarrier instance_reg (sf_offset_in_bytes this)
                 value_reg)) ;;
    Some (mkEmitted (unboxing_code ++ [store; Bind (LocalLabel skip_store)]) slow).

(** *** Arithmetic on tagged small integers *)

Record BinarySmiOpInstr : Type := mkBinarySmiOpInstr {
  op_kind : Token_Kind;
  bs_locs : LocationSummary;
  deopt_id : nat;
  CanDeoptimize : bool;
  is_truncating : bool;
  range : option Range;               (* range() *)
  right_range : option Range;         (* right()->definition()->range() *)
  left_BoundConstant : option Object  (* left()->BindsToConstant() / BoundConstant() *)
}.

(** Branches to a deopt label that may be [NULL]. *)
Definition b_deopt (deopt : option Label) : option Instr :=
  l <- deopt ;; Some (b_ l).
Definition b_cond_deopt (deopt : option Label) (c : Condition) : option Instr :=
  l <- deopt ;; Some (b_cond l c).

Definition EmitJavascriptOverflowCheck (range : option Range)
    (overflow : option Label) (result : Register) : option Code :=
  r <- range ;;
  if negb (IsWithin r (Finite (- 9007199254740992)) (Finite 9007199254740992)) then
    l <- overflow ;;                (* ASSERT(overflow != NULL) *)
    Some [ CompareImmediate result (- 9007199254740992);
           b_cond l LT;
           CompareImmediate result 9007199254740992;
           b_cond l GT ]
  else Some [].

Definition javascript_overflow_check (compiler : FlowGraphCompiler)
    (range : option Range) (deopt : option Label) (result : Register) : option Code :=
  if FLAG_throw_on_javascript_int_overflow compiler
  then EmitJavascriptOverflowCheck range deopt result
  else Some [].

(** Modelled from the spec: [Utils::HighestBit], [Utils::IsPowerOfTwo],
    [Utils::ShiftForPowerOfTwo] and [Utils::Abs] (vm/utils) are not under
    src/; they are the position of the highest set bit of the magnitude, the
    power-of-two test and its exponent. *)
Definition Utils_HighestBit (v : Z) : Z := Z.log2 (Z.abs v).
Definition Utils_IsPowerOfTwo (x : Z) : bool :=
  (Z.land x (x - 1) =? 0) && negb (x =? 0).
Definition Utils_ShiftForPowerOfTwo (x : Z) : Z := Z.log2 x.

Definition needs_check (r : option Range) (lo hi : RangeBoundary) : bool :=
  match r with
  | None => true
  | Some rr => negb (IsWithin rr lo hi)
  end.

Definition EmitSmiShiftLeft (compiler : FlowGraphCompiler)
    (shift_left : BinarySmiOpInstr) : option Code :=
  let is_truncating := is_truncating shift_left in
  let locs := bs_locs shift_left in
  l0 <- in_ locs 0 ;;
  left <- reg l0 ;;
  result <- reg (out locs) ;;
  let deopt :=
    if CanDeoptimize shift_left
    then Some (DeoptStub (deopt_id shift_left) kDeoptBinarySmiOp) else None in
  l1 <- in_ locs 1 ;;
  if IsConstant l1 then
    c <- constant l1 ;;
    (* Immediate shift operation takes 6 bits for the count. *)
    let kCountLimit := 63 in
    value <- Smi_Value c ;;
    code <-
      (if value =? 0 then Some [mov result left]
       else if (value <? 0) || (kCountLimit <=? value) then
         if (kCountLimit <=? value) && is_truncating then Some [mov result ZR]
         else (* Result is Mint or exception. *)
           i <- b_deopt deopt ;; Some [i]
       else
         check <-
           (if negb is_truncating then
              (* Check for overflow (preserve left). *)
              i <- b_cond_deopt deopt NE ;;
              Some [Lsl TMP left value; cmp left (Shifted TMP ASR value); i]
            else Some []) ;;
         (* Shift for result now we know there is no overflow. *)
         Some (check ++ [Lsl result left value])) ;;
    js <- javascript_overflow_check compiler (range shift_left) deopt result ;;
    Some (code ++ js)
  else
    (* Right (locs.in(1)) is not constant. *)
    right <- reg l1 ;;
    let right_range := right_range shift_left in
    match left_BoundConstant shift_left, is_truncating with
    | Some obj, false =>
        (* If left is constant, we know the maximal allowed size for right. *)
        match obj with
        | Smi left_int =>
            if left_int =? 0 then
              i <- b_cond_deopt deopt MI ;;
              Some [CompareRegisters right ZR; i; mov result ZR]
            else
              let max_right := kSmiBits - Utils_HighestBit left_int in
              let right_needs_check :=
                needs_check right_range (Finite 0) (Finite (max_right - 1)) in
              check <-
                (if right_needs_check then
                   i <- b_cond_deopt deopt CS ;;
                   Some [CompareImmediate right (RawValue max_right); i]
                 else Some []) ;;
              js <- javascript_overflow_check compiler (range shift_left) deopt result ;;
              Some (check ++ [Asr TMP right kSmiTagSize; lslv result left TMP] ++ js)
        | _ => javascript_overflow_check compiler (range shift_left) deopt result
        end
    | _, _ =>
        let right_needs_check :=
          needs_check right_range (Finite 0) (Finite (kSmiBits - 1)) in
        code <-
          (if is_truncating then
             if right_needs_check then
               let right_may_be_negative :=
                 needs_check right_range (Finite 0) kPlusInfinity in
               neg <-
                 (if right_may_be_negative then
                    _ <- ASSERT (CanDeoptimize shift_left) ;;
                    i <- b_cond_deopt deopt MI ;;
                    Some [CompareRegisters right ZR; i]
                  else Some []) ;;
               Some (neg ++
                     [ CompareImmediate right (RawValue kSmiBits);
                       csel result ZR result CS;
                       Asr TMP right kSmiTagSize;
                       lslv TMP left TMP;
                       csel result TMP result CC ])
             else
               Some [Asr TMP right kSmiTagSize; lslv result left TMP]
           else
             check <-
               (if right_needs_check then
                  _ <- ASSERT (CanDeoptimize shift_left) ;;
                  i <- b_cond_deopt deopt CS ;;
                  Some [CompareImmediate right (RawValue kSmiBits); i]
                else Some []) ;;
             (* Left is not a constant. *)
             t0 <- temp_ locs 0 ;;
             temp <- reg t0 ;;
             i <- b_cond_deopt deopt NE ;;
             Some (check ++
                   [ Asr TMP right kSmiTagSize;
                     (* Overflow test (preserve left, right, and IP); *)
                     lslv temp left TMP;
                     asrv TMP2 temp TMP;
                     CompareRegisters left TMP2;
                     i;                       (* Overflow. *)
                     (* Shift for result now we know there is no overflow. *)
                     lslv result left TMP ])) ;;
        js <- javascript_overflow_check compiler (range shift_left) deopt result ;;
        Some (code ++ js)
    end.

Definition BinarySmiOpInstr_EmitNativeCode (compiler : FlowGraphCompiler)
    (this : BinarySmiOpInstr) : option Code :=
  if Token_Kind_eqb (op_kind this) kSHL then EmitSmiShiftLeft compiler this
  else
  _ <- ASSERT (negb (is_truncating this)) ;;
  l0 <- in_ (bs_locs this) 0 ;;
  left <- reg l0 ;;
  result <- reg (out (bs_locs this)) ;;
  let deopt :=
    if CanDeoptimize this
    then Some (DeoptStub (deopt_id this) kDeoptBinarySmiOp) else None in
  l1 <- in_ (bs_locs this) 1 ;;
  if IsConstant l1 then
    c <- constant l1 ;;
    imm <- Smi_raw c ;;             (* ASSERT(constant.IsSmi()) *)
    value <- Smi_Value c ;;
    code <-
      match op_kind this with
      | kADD =>
          match deopt with
          | None => Some [AddImmediate result left imm]
          | Some l => Some [AddImmediateSetFlags result left imm; b_cond l VS]
          end
      | kSUB =>
          match deopt with
          | None => Some [AddImmediate result left (- imm)]
          | Some l =>
              (* Negating imm and using AddImmediateSetFlags would not detect
                 the overflow when imm == kMinInt64. *)
              Some [SubImmediateSetFlags result left imm; b_cond l VS]
          end
      | kMUL =>
          (* Keep left value tagged and untag right value. *)
          match deopt with
          | None =>
              if value =? 2 then Some [Lsl result left 1]
              else Some [LoadImmediate TMP value; mul result left TMP]
          | Some l =>
              if value =? 2 then
                Some [ Asr TMP left 63;        (* TMP = sign of left. *)
                       Lsl result left 1;
                       cmp TMP (Shifted result ASR 63);
                       b_cond l NE ]
              else
                Some [ LoadImmediate TMP value;
                       mul result left TMP;
                       smulh TMP left TMP;
                       (* TMP: result bits 64..127. *)
                       cmp TMP (Shifted result ASR 63);
                       b_cond l NE ]
          end
      | kTRUNCDIV =>
          if value =? 1 then Some [mov result left]
          else if value =? -1 then
            (* Check the corner case of dividing the 'MIN_SMI' with -1, in
               which case we cannot negate the result. *)
            i <- b_cond_deopt deopt EQ ;;
            Some [CompareImmediate left 9223372036854775808; i;
                  sub result ZR (Reg left)]
          else
            _ <- ASSERT (Utils_IsPowerOfTwo (Z.abs value)) ;;
            let shift_count := Utils_ShiftForPowerOfTwo (Z.abs value) + kSmiTagSize in
            _ <- ASSERT (1 <? shift_count) ;;   (* 1, -1 case handled above. *)
            let temp := TMP2 in
            Some ([ Asr TMP left 63;
                    add temp left (Shifted TMP LSR (64 - shift_count));
                    Asr result temp shift_count ]
                  ++ (if value <? 0 then [sub result ZR (Reg result)] else [])
                  ++ [SmiTag result])
      | kBIT_AND => Some [AndImmediate result left imm]   (* No overflow check. *)
      | kBIT_OR => Some [OrImmediate result left imm]     (* No overflow check. *)
      | kBIT_XOR => Some [XorImmediate result left imm]   (* No overflow check. *)
      | kSHR =>
          (* Asr operation masks the count to 6 bits. *)
          let kCountLimit := 63 in
          if value =? 0 then Some [mov result left]
          else if value <? 0 then i <- b_deopt deopt ;; Some [i]
          else
            let value := value + kSmiTagSize in
            let value := if kCountLimit <=? value then kCountLimit else value in
            Some [Asr result left value; SmiTag result]
      | _ => None                   (* UNREACHABLE() *)
      end ;;
    js <- javascript_overflow_check compiler (range this) deopt result ;;
    Some (code ++ js)
  else
    right <- reg l1 ;;
    let right_range := right_range this in
    let zero_check :=
      match right_range with
      | None => true
      | Some r => Overlaps r 0 0
      end in
    code <-
      match op_kind this with
      | kADD =>
          match deopt with
          | None => Some [add result left (Reg right)]
          | Some l => Some [adds result left (Reg right); b_cond l VS]
          end
      | kSUB =>
          match deopt with
          | None => Some [sub result left (Reg right)]
          | Some l => Some [subs result left (Reg right); b_cond l VS]
          end
      | kMUL =>
          match deopt with
          | None =>
              Some [ Asr TMP left kSmiTagSize;  (* SmiUntag left into TMP. *)
                     mul result TMP right ]
          | Some l =>
              Some [ Asr TMP left kSmiTagSize;  (* SmiUntag left into TMP. *)
                     mul result TMP right;
                     smulh TMP TMP right;
                     (* TMP: result bits 64..127. *)
                     cmp TMP (Shifted result ASR 63);
                     b_cond l NE ]
          end
      | kBIT_AND => Some [and_ result left (Reg right)]   (* No overflow check. *)
      | kBIT_OR => Some [orr result left (Reg right)]     (* No overflow check. *)
      | kBIT_XOR => Some [eor result left (Reg right)]    (* No overflow check. *)
      | kTRUNCDIV =>
          check <-
            (if zero_check then
               (* Handle divide by zero in runtime. *)
               i <- b_cond_deopt deopt EQ ;;
               Some [CompareRegisters right ZR; i]
             else Some []) ;;
          let temp := TMP2 in
          i <- b_cond_deopt deopt EQ ;;
          Some (check ++
                [ Asr temp left kSmiTagSize;   (* SmiUntag left into temp. *)
                  Asr TMP right kSmiTagSize;   (* SmiUntag right into IP. *)
                  sdiv result temp TMP;
                  (* Check the corner case of dividing the 'MIN_SMI' with -1,
                     in which case we cannot tag the result. *)
                  CompareImmediate result 4611686018427387904;
                  i;
                  SmiTag result ])
      | kMOD =>
          check <-
            (if zero_check then
               (* Handle divide by zero in runtime. *)
               i <- b_cond_deopt deopt EQ ;;
               Some [CompareRegisters right ZR; i]
             else Some []) ;;
          let temp := TMP2 in
          Some (check ++
                [ Asr temp left kSmiTagSize;   (* SmiUntag left into temp. *)
                  Asr TMP right kSmiTagSize;   (* SmiUntag right into IP. *)
                  sdiv result temp TMP;
                  Asr TMP right kSmiTagSize;   (* SmiUntag right into IP. *)
                  msub result TMP result temp; (* result <- left - right * result *)
                  SmiTag result;
                  (*  res = left % right;
                      if (res < 0) {
                        if (right < 0) { res = res - right; }
                        else { res = res + right; }
                      } *)
                  CompareRegisters result ZR;
                  b_cond (LocalLabel done) GE;
                  (* Result is negative, adjust it. *)
                  CompareRegisters right ZR;
                  sub TMP result (Reg right);
                  add result result (Reg right);
                  csel result TMP result LT;
                  Bind (LocalLabel done) ])
      | kSHR =>
          check <-
            (if CanDeoptimize this then
               i <- b_cond_deopt deopt LT ;;
               Some [CompareRegisters right ZR; i]
             else Some []) ;;
          (* sarl operation masks the count to 6 bits. *)
          let kCountLimit := 63 in
          let limit :=
            if needs_check right_range kMinusInfinity (Finite kCountLimit) then
              [ LoadImmediate TMP2 kCountLimit;
                CompareRegisters TMP TMP2;
                csel TMP TMP2 TMP GT ]
            else [] in
          t0 <- temp_ (bs_locs this) 0 ;;
          temp <- reg t0 ;;
          Some (check ++
                [Asr TMP right kSmiTagSize]    (* SmiUntag right into TMP. *)
                ++ limit ++
                [ Asr temp left kSmiTagSize;   (* SmiUntag left into temp. *)
                  asrv result temp TMP;
                  SmiTag result ])
      | _ => None                   (* UNREACHABLE() *)
      end ;;
    js <- javascript_overflow_check compiler (range this) deopt result ;;
    Some (code ++ js).

(** *** Boxing and unboxing of doubles *)

Definition BoxDoubleSlowPath_EmitNativeCode (compiler : FlowGraphCompiler)
    (locs : LocationSummary) : option Code :=
  let double_class := double_class compiler in
  let live := RegisterSet_Remove (out locs) (live_registers locs) in
  out_reg <- reg (out locs) ;;
  Some [ Bind (SlowPathEntry 0);
         SaveLiveRegisters (cpu_registers live) (fpu_registers live);
         GenerateCall_AllocationStub double_class;
         mov out_reg R0;
         RestoreLiveRegisters (cpu_registers live) (fpu_registers live);
         b_ (SlowPathExit 0) ].

Definition BoxDoubleInstr_EmitNativeCode (compiler : FlowGraphCompiler)
    (locs : LocationSummary) : option Emitted :=
  slow_path <- BoxDoubleSlowPath_EmitNativeCode compiler locs ;;
  out_reg <- reg (out locs) ;;
  l0 <- in_ locs 0 ;;
  value <- fpu_reg l0 ;;
  t0 <- temp_ locs 0 ;;
  temp0 <- reg t0 ;;
  Some (mkEmitted
          [ TryAllocate (double_class compiler) (SlowPathEntry 0) out_reg temp0;
            Bind (SlowPathExit 0);
            StoreDFieldToOffset value out_reg (Double_value_offset compiler) ]
          slow_path).

Record UnboxDoubleInstr : Type := mkUnboxDoubleInstr {
  ud_value_cid : ClassId;           (* value()->Type()->ToCid() *)
  ud_is_nullable : bool;            (* value()->Type()->is_nullable() *)
  ud_nullable_cid : ClassId;        (* value()->Type()->ToNullableCid() *)
  ud_deopt_id : nat;
  ud_locs : LocationSummary
}.

Definition UnboxDoubleInstr_EmitNativeCode (compiler : FlowGraphCompiler)
    (this : UnboxDoubleInstr) : option Code :=
  let value_cid := ud_value_cid this in
  l0 <- in_ (ud_locs this) 0 ;;
  value <- reg l0 ;;
  result <- fpu_reg (out (ud_locs this)) ;;
  if ClassId_eqb value_cid kDoubleCid then
    Some [LoadDFieldFromOffset result value (Double_value_offset compiler)]
  else if ClassId_eqb value_cid kSmiCid then
    Some [ Asr TMP value kSmiTagSize;  (* Untag input before conversion. *)
           scvtfd result TMP ]
  else
    let deopt := DeoptStub (ud_deopt_id this) kDeoptBinaryDoubleOp in
    if ud_is_nullable this && ClassId_eqb (ud_nullable_cid this) kDoubleCid then
      Some [ CompareObject value null_object;
             b_cond deopt EQ;
             (* It must be double now. *)
             LoadDFieldFromOffset result value (Double_value_offset compiler) ]
    else
      Some [ tsti value kSmiTagMask;
             b_cond (LocalLabel is_smi) EQ;
             CompareClassId value kDoubleCid;
             b_cond deopt NE;
             LoadDFieldFromOffset result value (Double_value_offset compiler);
             b_ (LocalLabel done);
             Bind (LocalLabel is_smi);
             Asr TMP value kSmiTagSize;  (* Copy and untag. *)
             scvtfd result TMP;
             Bind (LocalLabel done) ].

(** *** Array bounds check *)

Record CheckArrayBoundInstr : Type := mkCheckArrayBoundInstr {
  cab_deopt_id : nat;
  cab_locs : LocationSummary
}.

Definition kLengthPos : nat := 0.
Definition kIndexPos : nat := 1.

Definition CheckArrayBoundInstr_EmitNativeCode (this : CheckArrayBoundInstr)
    : option Code :=
  let deopt := DeoptStub (cab_deopt_id this) kDeoptCheckArrayBound in
  length_loc <- in_ (cab_locs this) kLengthPos ;;
  index_loc <- in_ (cab_locs this) kIndexPos ;;
  if IsConstant length_loc && IsConstant index_loc then
    lc <- constant length_loc ;;
    length <- Smi_Value lc ;;
    ic <- constant index_loc ;;
    index <- Smi_Value ic ;;
    if (length >? index) && (index >=? 0) then
      (* This CheckArrayBoundInstr should have been eliminated. *)
      Some []
    else
      _ <- ASSERT ((length <=? index) || (index <? 0)) ;;
      (* Unconditionally deoptimize for constant bounds checks because they
         only occur only when index is out-of-bounds. *)
      Some [b_ deopt]
  else if IsConstant index_loc then
    length <- reg length_loc ;;
    ic <- constant index_loc ;;
    index_raw <- Smi_raw ic ;;
    Some [CompareImmediate length index_raw; b_cond deopt LS]
  else if IsConstant length_loc then
    lc <- constant length_loc ;;
    length_raw <- Smi_raw lc ;;
    index <- reg index_loc ;;
    Some [CompareImmediate index length_raw; b_cond deopt CS]
  else
    length <- reg length_loc ;;
    index <- reg index_loc ;;
    Some [CompareRegisters index length; b_cond deopt CS].

(** ** Vocabulary of the properties *)

(** Control leaves the code [o] towards [target] in state [s]: by a jump to
    it, or by falling through when it is the label bound next. *)
Definition transfers_to (labels : BranchLabels) (o : Outcome) (target : Label)
    (s : State) : Prop :=
  o = Jump target s \/ (o = Fallthrough s /\ fall_through labels = target).

(** A location holds the small integer [v] in state [s]. *)
Definition holds_smi (s : State) (l : Location) (v : Z) : Prop :=
  match l with
  | RegisterLocation r => is_allocatable r = true /\ get_reg s r = RawValue v
  | Constant (Smi c) => c = v
  | _ => False
  end.

(** ** Vocabulary of the properties, continued *)

(** The mathematical result of a checked operation. *)
Definition checked_result (k : Token_Kind) (x y : Z) : option Z :=
  match k with
  | kADD => Some (x + y)
  | kSUB => Some (x - y)
  | kMUL => Some (x * y)
  | _ => None
  end.

(** The allocator binds the output to a register no input is in. *)
Definition output_distinct (result : Register) (ins : list Location) : Prop :=
  forall r : Register, In (RegisterLocation r) ins -> r <> result.

(** The shape every checked operation reduces to: fall through with the
    tagged result when it is representable, take the guard otherwise. *)
Definition checked_outcome (code : Code) (deopt : Label) (result : Register)
    (v : Z) (s : State) : Prop :=
  exists s' : State,
    run code None s = (if is_smi_value v then Fallthrough s' else Jump deopt s') /\
    (is_smi_value v = true -> get_reg s' result = RawValue v).

(** A value inside the static range of its definition, when one is known. *)
Definition range_admits (r : option Range) (v : Z) : Prop :=
  match r with
  | None => True
  | Some rr => range_contains rr v = true
  end.

(** The remainder as the comment in the [kMOD] case gives it:
    [res = left % right; if (res < 0) { if (right < 0) res = res - right;
    else res = res + right; }]. *)
Definition normalized_remainder (x y : Z) : Z :=
  let res := Z.rem x y in
  if res <? 0 then (if y <? 0 then res - y else res + y) else res.

Definition division_result (k : Token_Kind) (x y : Z) : Z :=
  match k with
  | kTRUNCDIV => Z.quot x y
  | kMOD => normalized_remainder x y
  | _ => 0
  end.

(** A value clamped to the range of an unsigned byte. *)
Definition clamp_uint8 (v : Z) : Z := Z.max 0 (Z.min 255 v).

(** Offset of the first element from the array register: none for external
    data, the data offset less the tag inside the heap. *)
Definition element_offset (compiler : FlowGraphCompiler) (cid : ClassId)
    (is_external : bool) : Z :=
  if is_external then 0 else DataOffsetFor compiler cid - kHeapObjectTag.

Definition is_clamped_cid (cid : ClassId) : bool :=
  match cid with
  | kTypedDataUint8ClampedArrayCid | kExternalTypedDataUint8ClampedArrayCid => true
  | _ => false
  end.

(** Instructions that can take control away from the straight line. *)
Definition transfers_control (i : Instr) : bool :=
  match i with
  | b_ _ | b_cond _ _ | TryAllocate _ _ _ _ => true
  | _ => false
  end.

(** Instructions that set the condition flags. *)
Definition compares (i : Instr) : bool :=
  match i with
  | cmp _ _ | CompareImmediate _ _ | CompareRegisters _ _ | CompareObject _ _
  | CompareClassId _ _ | tsti _ _ | adds _ _ _ | subs _ _ _
  | AddImmediateSetFlags _ _ _ | SubImmediateSetFlags _ _ _ | fcmpd _ _ => true
  | _ => false
  end.

(** The two families of stores of an object reference into a heap object. *)
Definition is_barrier_store (i : Instr) : bool :=
  match i with
  | StoreIntoObject _ _ _ | StoreIntoObjectOffset _ _ _ _ => true
  | _ => false
  end.

Definition is_no_barrier_store (i : Instr) : bool :=
  match i with
  | StoreIntoObjectNoBarrier _ _ _ | StoreIntoObjectNoBarrier_constant _ _ _
  | StoreIntoObjectOffsetNoBarrier _ _ _
  | StoreIntoObjectOffsetNoBarrier_constant _ _ _ => true
  | _ => false
  end.

(** The operand a store of an object reference writes. *)
Definition object_store_source (i : Instr) : option Location :=
  match i with
  | StoreIntoObject _ _ v | StoreIntoObjectNoBarrier _ _ v
  | StoreIntoObjectOffset _ _ v _ | StoreIntoObjectOffsetNoBarrier _ _ v =>
      Some (RegisterLocation v)
  | StoreIntoObjectNoBarrier_constant _ _ c
  | StoreIntoObjectOffsetNoBarrier_constant _ _ c => Some (Constant c)
  | _ => None
  end.

(** Running what an emitter produced, and reading a register at the
    fall-through. *)
Definition run_emitted (code : option Code) (s : State) : Outcome :=
  match code with
  | Some c => run c None s
  | None => Stuck
  end.

Definition fallthrough_value (o : Outcome) (r : Register) : option Z :=
  match o with
  | Fallthrough s => Some (get_reg s r)
  | _ => None
  end.

(** ** Concrete instances *)

Module Example.

Definition cid_number (cid : ClassId) : Z :=
  match cid with
  | kNullCid => 1
  | kSmiCid => 2
  | kDoubleCid => 3
  | kFloat32x4Cid => 4
  | kFloat64x2Cid => 5
  | _ => 0
  end.

Definition compiler : FlowGraphCompiler :=
  mkFlowGraphCompiler true false (fun _ => 16)
    (mkClass kDoubleCid 16) (mkClass kFloat32x4Cid 32) (mkClass kFloat64x2Cid 32)
    cid_number 8 8 8 16 24 32 1.

(** [R0] and [R1] hold the given words, every byte of memory is [byte], and
    the bump allocator has [room] bytes left. *)
Definition state (r0 r1 : Z) (byte : Z) (room : Z) (pending : list CallEffect)
    : State :=
  mkState (upd (upd (fun _ => 0) R0 r0) R1 r1) (fun _ => 0)
    (mkFlags false false false false) (fun _ => byte) [] (fun _ => 0) (fun _ => 0)
    4096 (4096 + room) [] pending.

Definition no_registers : RegisterSet := mkRegisterSet [] [].

(** A binary operation on [R0] and [R1] with its result in [R2]. *)
Definition binary_op (k : Token_Kind) : BinarySmiOpInstr :=
  mkBinarySmiOpInstr k
    (mkLocationSummary [RegisterLocation R0; RegisterLocation R1]
       [RegisterLocation R3] (RegisterLocation R2) no_registers)
    7 true false None None None.

(** A bounds check of the index in [R1] against the length in [R0]. *)
Definition bounds_check : CheckArrayBoundInstr :=
  mkCheckArrayBoundInstr 9
    (mkLocationSummary [RegisterLocation R0; RegisterLocation R1] [] Invalid
       no_registers).

(** A comparison of the doubles in [V0] and [V1] into [R2]. *)
Definition double_comparison (k : Token_Kind) : ComparisonInstr :=
  mkComparisonInstr k kDoubleCid
    (mkLocationSummary [FpuRegisterLocation 0%nat; FpuRegisterLocation 1%nat] []
       (RegisterLocation R2) no_registers).

(** A state whose [V0] holds a quiet NaN. *)
Definition nan_state : State :=
  with_vregs (upd (fun _ => 0) 0%nat 9221120237041090560) (state 0 0 0 0 []).

(** What the allocation stub leaves: the new object in [R0], every other
    register overwritten. *)
Definition stub_effect : CallEffect :=
  mkCallEffect (fun _ => 8193) (fun _ => 0) (mkFlags false false false false)
    (fun _ => 0) 8192 16384 [].

(** A state with a NaN payload in [V0], no room for the inline allocation
    and the stub ready to answer. *)
Definition boxing_state : State :=
  with_vregs (upd (fun _ => 0) 0%nat 9221120237041090561)
    (state 0 0 0 0 [stub_effect]).

(** Storing the constant 300 into the clamped byte array in [R0] at the
    index in [R1]. *)
Definition clamped_store : StoreIndexedInstr :=
  mkStoreIndexedInstr kTypedDataUint8ClampedArrayCid 1 false false
    (mkLocationSummary
       [RegisterLocation R0; RegisterLocation R1; Constant (Smi 300)] [] Invalid
       no_registers).

(** Loading from the unsigned 32-bit array in [R0] at the index in [R1]. *)
Definition uint32_load : LoadIndexedInstr :=
  mkLoadIndexedInstr kTypedDataUint32ArrayCid 4 false
    (mkLocationSummary [RegisterLocation R0; RegisterLocation R1] []
       (RegisterLocation R2) no_registers).

(** Boxing the double in [V0] into [R2], and unboxing it into [V1]. *)
Definition box_locs : LocationSummary :=
  mkLocationSummary [FpuRegisterLocation 0%nat] [RegisterLocation R3]
    (RegisterLocation R2) (mkRegisterSet [R2] [0%nat]).

Definition unbox : UnboxDoubleInstr :=
  mkUnboxDoubleInstr kDoubleCid false kDoubleCid 11
    (mkLocationSummary [RegisterLocation R2] [] (FpuRegisterLocation 1%nat)
       (mkRegisterSet [R2] [0%nat])).

(** Storing [R1] into the array in [R0], with and without the barrier, and
    into a field of the instance in [R0]. *)
Definition array_store (barrier : bool) : StoreIndexedInstr :=
  mkStoreIndexedInstr kArrayCid 8 false barrier
    (mkLocationSummary
       [RegisterLocation R0; RegisterLocation R2; RegisterLocation R1] [] Invalid
       no_registers).

Definition field_store (barrier : bool) : StoreInstanceFieldInstr :=
  mkStoreInstanceFieldInstr false true false kDoubleCid (FieldHandle 0) 24 barrier true
    (mkLocationSummary [RegisterLocation R0; RegisterLocation R1]
       [RegisterLocation R2; RegisterLocation R3; FpuRegisterLocation 0%nat]
       Invalid no_registers).

End Example.

(** ** Further emitters *)

(** *** Checks on the tag bit *)

Record CheckSmiInstr : Type := mkCheckSmiInstr {
  cs_deopt_id : nat;
  cs_locs : LocationSummary
}.

Definition CheckSmiInstr_EmitNativeCode (this : CheckSmiInstr) : option Code :=
  l0 <- in_ (cs_locs this) 0 ;;
  value <- reg l0 ;;
  let deopt := DeoptStub (cs_deopt_id this) kDeoptCheckSmi in
  Some [tsti value kSmiTagMask; b_cond deopt NE].

Record CheckEitherNonSmiInstr : Type := mkCheckEitherNonSmiInstr {
  en_deopt_id : nat;
  en_left_cid : ClassId;            (* left()->Type()->ToCid() *)
  en_right_cid : ClassId;           (* right()->Type()->ToCid() *)
  en_locs : LocationSummary
}.

Definition CheckEitherNonSmiInstr_EmitNativeCode (this : CheckEitherNonSmiInstr)
    : option Code :=
  let deopt := DeoptStub (en_deopt_id this) kDeoptBinaryDoubleOp in
  let left_cid := en_left_cid this in
  let right_cid := en_right_cid this in
  l0 <- in_ (en_locs this) 0 ;;
  left <- reg l0 ;;
  l1 <- in_ (en_locs this) 1 ;;
  right <- reg l1 ;;
  let test :=
    if ClassId_eqb left_cid kSmiCid then [tsti right kSmiTagMask]
    else if ClassId_eqb right_cid kSmiCid then [tsti left kSmiTagMask]
    else [orr TMP left (Reg right); tsti TMP kSmiTagMask] in
  Some (test ++ [b_cond deopt EQ]).

(** *** Boolean negation *)

Definition BooleanNegateInstr_EmitNativeCode (locs : LocationSummary) : option Code :=
  l0 <- in_ locs 0 ;;
  value <- reg l0 ;;
  result <- reg (out locs) ;;
  Some [ LoadObject result Bool_True;
         LoadObject TMP Bool_False;
         CompareRegisters result value;
         csel result TMP result EQ ].

(** *** Static fields *)

(** [Field::value_offset()] is a constant of the object layout, external to
    this file; the emitters take it as [value_offset]. *)
Definition LoadStaticFieldInstr_EmitNativeCode (value_offset : Z)
    (locs : LocationSummary) : option Code :=
  l0 <- in_ locs 0 ;;
  field <- reg l0 ;;
  result <- reg (out locs) ;;
  Some [LoadFieldFromOffset result field value_offset].

Record StoreStaticFieldInstr : Type := mkStoreStaticFieldInstr {
  ssf_field : Object;               (* field() *)
  ssf_NeedsStoreBuffer : bool;      (* value()->NeedsStoreBuffer() *)
  ssf_CanValueBeSmi : bool;
  ssf_locs : LocationSummary
}.

Definition StoreStaticFieldInstr_EmitNativeCode (value_offset : Z)
    (this : StoreStaticFieldInstr) : option Code :=
  l0 <- in_ (ssf_locs this) 0 ;;
  value <- reg l0 ;;
  t0 <- temp_ (ssf_locs this) 0 ;;
  temp <- reg t0 ;;
  Some [ LoadObject temp (ssf_field this);
         if ssf_NeedsStoreBuffer this
         then StoreIntoObjectOffset temp value_offset value (ssf_CanValueBeSmi this)
         else StoreIntoObjectOffsetNoBarrier temp value_offset value ].

(** ** Vocabulary of the further properties *)

(** The comparison a token denotes on integers. *)
Definition compare_values (k : Token_Kind) (x y : Z) : option bool :=
  match k with
  | kEQ => Some (x =? y)
  | kNE => Some (negb (x =? y))
  | kLT => Some (x <? y)
  | kGT => Some (y <? x)
  | kLTE => Some (x <=? y)
  | kGTE => Some (y <=? x)
  | _ => None
  end.

(** The bitwise operation a token denotes on integers. *)
Definition bitwise_result (k : Token_Kind) (x y : Z) : option Z :=
  match k with
  | kBIT_AND => Some (Z.land x y)
  | kBIT_OR => Some (Z.lor x y)
  | kBIT_XOR => Some (Z.lxor x y)
  | _ => None
  end.

(** The low bit of a word tells a small integer from a heap object. *)
Definition has_smi_tag (w : Z) : bool := Z.even (wrap w).

(** The width and signedness with which [LoadIndexedInstr] loads the element
    of an array of integers, by class id. *)
Definition loaded_as (cid : ClassId) : option OperandSize :=
  match cid with
  | kTypedDataInt8ArrayCid => Some kByte
  | kTypedDataUint8ArrayCid | kTypedDataUint8ClampedArrayCid
  | kExternalTypedDataUint8ArrayCid | kExternalTypedDataUint8ClampedArrayCid
  | kOneByteStringCid => Some kUnsignedByte
  | kTypedDataInt16ArrayCid => Some kHalfword
  | kTypedDataUint16ArrayCid | kTwoByteStringCid => Some kUnsignedHalfword
  | kTypedDataInt32ArrayCid => Some kWord
  | kTypedDataUint32ArrayCid => Some kUnsignedWord
  | _ => None
  end.

Definition is_signed_size (sz : OperandSize) : bool :=
  match sz with
  | kByte | kHalfword | kWord => true
  | _ => false
  end.

(** An integer narrowed to the width of an element: its low bytes, read as
    signed or unsigned. *)
Definition narrow (sz : OperandSize) (v : Z) : Z :=
  let n := 256 ^ Z.of_nat (size_bytes sz) in
  let u := v mod n in
  if is_signed_size sz && (n <=? 2 * u) then u - n else u.

(** The number of bytes of an element of an array of unboxed floats or
    vectors, by class id. *)
Definition unboxed_element_bytes (cid : ClassId) : option nat :=
  match cid with
  | kTypedDataFloat32ArrayCid => Some 4%nat
  | kTypedDataFloat64ArrayCid => Some 8%nat
  | kTypedDataFloat64x2ArrayCid | kTypedDataInt32x4ArrayCid
  | kTypedDataFloat32x4ArrayCid => Some 16%nat
  | _ => None
  end.

(** A location holds the machine word [w]: in a register, or as the tagged
    word of a constant. *)
Definition holds_word (s : State) (l : Location) (w : Z) : Prop :=
  match l with
  | RegisterLocation r => is_allocatable r = true /\ get_reg s r = w
  | Constant c => object_word s c = w
  | _ => False
  end.

(** Address of the element [idx] of an array whose elements take [scale]
    bytes. *)
Definition element_address (compiler : FlowGraphCompiler) (cid : ClassId)
    (is_external : bool) (scale : Z) (array idx : Z) : Z :=
  wrap (array + idx * scale + element_offset compiler cid is_external).

(** ** Further concrete instances *)

Module Sample.

(** The words of the pool objects: the two booleans and null are distinct
    heap objects. *)
Definition pool (o : Object) : Z :=
  match o with
  | Bool_True => 4097
  | Bool_False => 4113
  | null_object => 4129
  | FieldHandle _ => 4145
  | _ => 4161
  end.

(** [R0], [R1] and [R2] hold the given words, memory is zero, and [pending]
    are the outcomes of the runtime calls to come. *)
Definition state (r0 r1 r2 : Z) (pending : list CallEffect) : State :=
  mkState (upd (upd (upd (fun _ => 0) R0 r0) R1 r1) R2 r2) (fun _ => 0)
    (mkFlags false false false false) (fun _ => 0) [] pool (fun _ => 0)
    4096 8192 [] pending.

Definition registers (ins : list Register) (result : Register) : LocationSummary :=
  mkLocationSummary (map RegisterLocation ins) [RegisterLocation R3]
    (RegisterLocation result) Example.no_registers.

(** A comparison of the small integers in [R0] and [R1] into [R2]. *)
Definition smi_comparison (k : Token_Kind) : ComparisonInstr :=
  mkComparisonInstr k kSmiCid (registers [R0; R1] R2).

(** A binary operation on [R0] and [R1] that cannot deoptimize. *)
Definition unguarded_op (k : Token_Kind) : BinarySmiOpInstr :=
  mkBinarySmiOpInstr k (registers [R0; R1] R2) 7 false false None None None.

(** A binary operation on [R0] and the constant [c]. *)
Definition constant_op (k : Token_Kind) (c : Z) (truncating : bool)
    : BinarySmiOpInstr :=
  mkBinarySmiOpInstr k
    (mkLocationSummary [RegisterLocation R0; Constant (Smi c)] []
       (RegisterLocation R2) Example.no_registers)
    7 true truncating None None None.

(** A truncating shift of [R0] by [R1]. *)
Definition truncating_shift : BinarySmiOpInstr :=
  mkBinarySmiOpInstr kSHL (registers [R0; R1] R2) 7 true true None None None.

(** Loads and stores at the index in [R1] of the array in [R0]. *)
Definition load (cid : ClassId) (scale : Z) (result : Location) : LoadIndexedInstr :=
  mkLoadIndexedInstr cid scale false
    (mkLocationSummary [RegisterLocation R0; RegisterLocation R1] [] result
       Example.no_registers).

Definition store (cid : ClassId) (scale : Z) (value : Location) : StoreIndexedInstr :=
  mkStoreIndexedInstr cid scale false true
    (mkLocationSummary [RegisterLocation R0; RegisterLocation R1; value] [] Invalid
       Example.no_registers).

Definition check_smi : CheckSmiInstr :=
  mkCheckSmiInstr 5
    (mkLocationSummary [RegisterLocation R0] [] Invalid Example.no_registers).

Definition check_either : CheckEitherNonSmiInstr :=
  mkCheckEitherNonSmiInstr 6 kIllegalCid kIllegalCid
    (mkLocationSummary [RegisterLocation R0; RegisterLocation R1] [] Invalid
       Example.no_registers).

Definition static_store : StoreStaticFieldInstr :=
  mkStoreStaticFieldInstr (FieldHandle 1) true true
    (mkLocationSummary [RegisterLocation R0] [RegisterLocation R3] Invalid
       Example.no_registers).

(** Unboxing the nullable double in [R0] into [V1]. *)
Definition nullable_unbox : UnboxDoubleInstr :=
  mkUnboxDoubleInstr kIllegalCid true kDoubleCid 11
    (mkLocationSummary [RegisterLocation R0] [] (FpuRegisterLocation 1%nat)
       Example.no_registers).

(** Storing [R1] into a field of the instance in [R0] that is never
    unboxed. *)
Definition plain_field_store : StoreInstanceFieldInstr :=
  mkStoreInstanceFieldInstr false false false kIllegalCid (FieldHandle 0) 24 true true
    (mkLocationSummary [RegisterLocation R0; RegisterLocation R1] [] Invalid
       Example.no_registers).

End Sample.

(* ================================================================== *)
(** * Part II.  Properties                                             *)
(* ================================================================== *)

(** ** Labels and conditions *)

Lemma DeoptReasonId_eqb_eq (a b : DeoptReasonId) :
  DeoptReasonId_eqb a b = true <-> a = b.
Proof. destruct a, b; simpl; split; congruence. Qed.

Lemma LocalName_eqb_eq (a b : LocalName) : LocalName_eqb a b = true <-> a = b.
Proof. destruct a, b; simpl; split; congruence. Qed.

Lemma Label_eqb_eq (a b : Label) : Label_eqb a b = true <-> a = b.
Proof.
  destruct a, b; simpl; split; intros H; try congruence.
  - apply andb_true_iff in H as [H1 H2].
    apply Nat.eqb_eq in H1. apply DeoptReasonId_eqb_eq in H2. congruence.
  - inversion H; subst. apply andb_true_iff; split.
    + apply Nat.eqb_refl.
    + now apply DeoptReasonId_eqb_eq.
  - apply Nat.eqb_eq in H. congruence.
  - inversion H. apply Nat.eqb_refl.
  - apply LocalName_eqb_eq in H. congruence.
  - inversion H. now apply LocalName_eqb_eq.
  - apply Nat.eqb_eq in H. congruence.
  - inversion H. apply Nat.eqb_refl.
  - apply Nat.eqb_eq in H. congruence.
  - inversion H. apply Nat.eqb_refl.
Qed.

Lemma Label_eqb_refl (a : Label) : Label_eqb a a = true.
Proof. now apply Label_eqb_eq. Qed.

Lemma Label_eqb_neq (a b : Label) : Label_eqb a b = false <-> a <> b.
Proof.
  split; intros H.
  - intros E. apply Label_eqb_eq in E. congruence.
  - destruct (Label_eqb a b) eqn:E; [apply Label_eqb_eq in E; contradiction | reflexivity].
Qed.

Lemma NegateCondition_holds (c c' : Condition) (f : Flags) :
  NegateCondition c = Some c' -> ConditionHolds c' f = negb (ConditionHolds c f).
Proof.
  destruct c; simpl; intros H; inversion H; subst; simpl;
    destruct (flag_n f), (flag_z f), (flag_c f), (flag_v f); reflexivity.
Qed.

Lemma NegateCondition_handled (c : Condition) :
  In c handled_conditions -> exists c', NegateCondition c = Some c'.
Proof.
  simpl. intros H.
  repeat (destruct H as [H | H]; [subst c; simpl; eauto |]). contradiction.
Qed.

(** C10.  On each of the ten condition codes it handles, [NegateCondition]
    returns the logical complement (the negated condition holds on a flags
    state exactly when the original does not), and applying it twice gives
    the original condition back. *)
Theorem NegateCondition_complement_involution :
  forall c : Condition, In c handled_conditions ->
    exists c' : Condition,
      NegateCondition c = Some c' /\
      (forall f : Flags, ConditionHolds c' f = negb (ConditionHolds c f)) /\
      NegateCondition c' = Some c.
Proof.
  intros c H. destruct (NegateCondition_handled c H) as [c' E].
  exists c'. split; [exact E |]. split.
  - intros f. now apply NegateCondition_holds.
  - destruct c; simpl in E; inversion E; subst; reflexivity.
Qed.

Lemma NegateCondition_complement_involution_witness :
  In LT handled_conditions /\
  exists c' : Condition,
    NegateCondition LT = Some c' /\
    (forall f : Flags, ConditionHolds c' f = negb (ConditionHolds LT f)) /\
    NegateCondition c' = Some LT.
Proof.
  split.
  - simpl. tauto.
  - apply (NegateCondition_complement_involution LT). simpl. tauto.
Defined.

(** ** The branch protocol *)

(** C9, as the code has it.  For a true-condition among the ten
    [NegateCondition] handles and any triple of labels,
    [EmitBranchOnCondition] emits exactly one conditional branch on the true
    condition when the fall-through is the false label; otherwise one
    conditional branch on the negated condition to the false label, followed
    by an unconditional jump to the true label exactly when the true label is
    not the fall-through.  In every case control goes to the true label when
    the condition holds and to the false label otherwise. *)
Theorem EmitBranchOnCondition_protocol :
  forall (c : Condition) (labels : BranchLabels),
    In c handled_conditions ->
    exists code : Code,
      EmitBranchOnCondition c labels = Some code /\
      (fall_through labels = false_label labels ->
         code = [b_cond (true_label labels) c]) /\
      (fall_through labels <> false_label labels ->
         exists nc : Condition,
           NegateCondition c = Some nc /\
           (fall_through labels = true_label labels ->
              code = [b_cond (false_label labels) nc]) /\
           (fall_through labels <> true_label labels ->
              code = [b_cond (false_label labels) nc; b_ (true_label labels)])) /\
      forall s : State,
        transfers_to labels (run code None s)
          (if ConditionHolds c (flags s) then true_label labels
           else false_label labels) s.
Proof.
  intros c labels Hc. unfold EmitBranchOnCondition.
  destruct (Label_eqb (fall_through labels) (false_label labels)) eqn:Eff.
  - apply Label_eqb_eq in Eff.
    eexists; split; [reflexivity |]. split; [reflexivity |]. split; [congruence |].
    intros s. unfold transfers_to. simpl.
    destruct (ConditionHolds c (flags s)); simpl; auto.
  - apply Label_eqb_neq in Eff.
    destruct (NegateCondition_handled c Hc) as [nc Enc]. rewrite Enc. simpl.
    eexists; split; [reflexivity |]. split; [congruence |]. split.
    + intros _. exists nc. split; [reflexivity |].
      split; intros Hft.
      * apply Label_eqb_eq in Hft. now rewrite Hft.
      * apply Label_eqb_neq in Hft. now rewrite Hft.
    + intros s. unfold transfers_to.
      destruct (Label_eqb (fall_through labels) (true_label labels)) eqn:Eft; simpl;
        rewrite (NegateCondition_holds c nc (flags s) Enc);
        destruct (ConditionHolds c (flags s)); simpl; auto.
      apply Label_eqb_eq in Eft. auto.
Qed.

Lemma EmitBranchOnCondition_protocol_witness :
  In GE handled_conditions /\
  exists code : Code,
    let labels := mkBranchLabels (BlockLabel 1) (BlockLabel 2) (BlockLabel 3) in
    EmitBranchOnCondition GE labels = Some code /\
    (fall_through labels = false_label labels ->
       code = [b_cond (true_label labels) GE]) /\
    (fall_through labels <> false_label labels ->
       exists nc : Condition,
         NegateCondition GE = Some nc /\
         (fall_through labels = true_label labels ->
            code = [b_cond (false_label labels) nc]) /\
         (fall_through labels <> true_label labels ->
            code = [b_cond (false_label labels) nc; b_ (true_label labels)])) /\
    forall s : State,
      transfers_to labels (run code None s)
        (if ConditionHolds GE (flags s) then true_label labels
         else false_label labels) s.
Proof.
  split.
  - simpl. tauto.
  - apply (EmitBranchOnCondition_protocol GE
             (mkBranchLabels (BlockLabel 1) (BlockLabel 2) (BlockLabel 3))).
    simpl. tauto.
Defined.

(** C9 as stated fails for a true-condition outside the handled ten: for the
    overflow condition with a fall-through that is not the false label,
    [NegateCondition] reaches [UNREACHABLE()] and no branch is emitted. *)
Lemma EmitBranchOnCondition_overflow_condition_unhandled :
  EmitBranchOnCondition VS
    (mkBranchLabels (BlockLabel 1) (BlockLabel 2) (BlockLabel 3)) = None.
Proof. reflexivity. Qed.

(** ** Machine arithmetic *)

Ltac bool_prop :=
  repeat match goal with
  | H : (_ <? _) = true |- _ => apply Z.ltb_lt in H
  | H : (_ <? _) = false |- _ => apply Z.ltb_ge in H
  | H : (_ <=? _) = true |- _ => apply Z.leb_le in H
  | H : (_ <=? _) = false |- _ => apply Z.leb_gt in H
  | H : (_ =? _) = true |- _ => apply Z.eqb_eq in H
  | H : (_ =? _) = false |- _ => apply Z.eqb_neq in H
  | H : (_ >? _) = _ |- _ => rewrite Z.gtb_ltb in H
  | H : (_ >=? _) = _ |- _ => rewrite Z.geb_leb in H
  | H : negb _ = true |- _ => apply negb_true_iff in H
  | H : negb _ = false |- _ => apply negb_false_iff in H
  | H : (_ && _) = true |- _ => apply andb_true_iff in H; destruct H
  | H : (_ || _) = false |- _ => apply orb_false_iff in H; destruct H
  end.

Ltac split_ifs :=
  repeat match goal with
  | |- context [if ?c then _ else _] =>
      match type of c with bool => destruct c eqn:? end
  | H : context [if ?c then _ else _] |- _ =>
      match type of c with bool => destruct c eqn:? end
  end.

Lemma wrap_spec (z : Z) : exists k, wrap z = z + k * 2 ^ 64 /\ 0 <= wrap z < 2 ^ 64.
Proof.
  unfold wrap. exists (- (z / 2 ^ 64)).
  pose proof (Z.mod_pos_bound z (2 ^ 64) ltac:(lia)).
  pose proof (Z.div_mod z (2 ^ 64) ltac:(lia)). lia.
Qed.

Lemma signed_spec (z : Z) :
  exists k, signed z = z + k * 2 ^ 64 /\ - 2 ^ 63 <= signed z < 2 ^ 63.
Proof.
  unfold signed. destruct (wrap_spec z) as [k [E R]].
  destruct (Z.ltb_spec (wrap z) (2 ^ 63)).
  - exists k. lia.
  - exists (k - 1). lia.
Qed.

(** Replace every [wrap] and [signed] term by a fresh integer constrained by
    its defining congruence and range. *)
Ltac abstract_words :=
  repeat match goal with
  | |- context [wrap ?z] =>
      let k := fresh "k" in let E := fresh "E" in let R := fresh "R" in
      let w := fresh "w" in
      destruct (wrap_spec z) as [k [E R]];
      set (w := wrap z) in *; clearbody w
  | |- context [signed ?z] =>
      let k := fresh "k" in let E := fresh "E" in let R := fresh "R" in
      let w := fresh "w" in
      destruct (signed_spec z) as [k [E R]];
      set (w := signed z) in *; clearbody w
  | H : context [wrap ?z] |- _ =>
      let k := fresh "k" in let E := fresh "E" in let R := fresh "R" in
      let w := fresh "w" in
      destruct (wrap_spec z) as [k [E R]];
      set (w := wrap z) in *; clearbody w
  | H : context [signed ?z] |- _ =>
      let k := fresh "k" in let E := fresh "E" in let R := fresh "R" in
      let w := fresh "w" in
      destruct (signed_spec z) as [k [E R]];
      set (w := signed z) in *; clearbody w
  end.

Ltac words := abstract_words; split_ifs; bool_prop; first [lia | congruence].

Lemma wrap_range (z : Z) : 0 <= wrap z < 2 ^ 64.
Proof. words. Qed.

Lemma wrap_small (z : Z) : 0 <= z < 2 ^ 64 -> wrap z = z.
Proof. intros. words. Qed.

Lemma wrap_wrap (z : Z) : wrap (wrap z) = wrap z.
Proof. words. Qed.

Lemma signed_range (z : Z) : - 2 ^ 63 <= signed z < 2 ^ 63.
Proof. words. Qed.

Lemma signed_wrap (z : Z) : signed (wrap z) = signed z.
Proof. words. Qed.

Lemma signed_small (z : Z) : - 2 ^ 63 <= z < 2 ^ 63 -> signed z = z.
Proof. intros. words. Qed.

Lemma wrap_signed (z : Z) : wrap (signed z) = wrap z.
Proof. words. Qed.

Lemma signed_RawValue (v : Z) : IsSmiValue v -> signed (RawValue v) = v * 2.
Proof.
  unfold IsSmiValue, kSmiMin, kSmiMax, RawValue. intros. words.
Qed.

Lemma fst_add_flags a b : fst (add_flags a b) = wrap (a + b).
Proof. unfold add_flags, AddWithCarry, b2z. cbn [fst]. words. Qed.

Lemma fst_sub_flags a b : fst (sub_flags a b) = wrap (a - b).
Proof. unfold sub_flags, AddWithCarry, lnot64, b2z. cbn [fst]. words. Qed.

(** Decide every integer test that occurs in the goal. *)
Ltac case_tests :=
  repeat match goal with
  | |- context [?a <? ?b] => destruct (Z.ltb_spec a b)
  | |- context [?a <=? ?b] => destruct (Z.leb_spec a b)
  | |- context [?a =? ?b] => destruct (Z.eqb_spec a b)
  | H : context [?a <? ?b] |- _ => revert H; destruct (Z.ltb_spec a b); intro H
  | H : context [?a <=? ?b] |- _ => revert H; destruct (Z.leb_spec a b); intro H
  | H : context [?a =? ?b] |- _ => revert H; destruct (Z.eqb_spec a b); intro H
  end.

Ltac flags_arith :=
  abstract_words; case_tests; cbn [negb andb orb Bool.eqb];
  first [reflexivity | lia | exfalso; lia].

Lemma add_flags_VS (a b : Z) :
  ConditionHolds VS (snd (add_flags a b)) =
  negb ((- 2 ^ 63 <=? signed a + signed b) && (signed a + signed b <? 2 ^ 63)).
Proof.
  unfold add_flags, AddWithCarry, ConditionHolds, flag_v, snd, b2z. flags_arith.
Qed.

Lemma sub_flags_VS (a b : Z) :
  ConditionHolds VS (snd (sub_flags a b)) =
  negb ((- 2 ^ 63 <=? signed a - signed b) && (signed a - signed b <? 2 ^ 63)).
Proof.
  unfold sub_flags, AddWithCarry, lnot64, ConditionHolds, flag_v, snd, b2z.
  flags_arith.
Qed.

Lemma sub_flags_EQ (a b : Z) :
  ConditionHolds EQ (snd (sub_flags a b)) = (wrap a =? wrap b).
Proof.
  unfold sub_flags, AddWithCarry, lnot64, ConditionHolds, flag_z, snd, b2z.
  flags_arith.
Qed.

Lemma sub_flags_CS (a b : Z) :
  ConditionHolds CS (snd (sub_flags a b)) = (wrap b <=? wrap a).
Proof.
  unfold sub_flags, AddWithCarry, lnot64, ConditionHolds, flag_c, snd, b2z.
  flags_arith.
Qed.

Lemma sub_flags_LS (a b : Z) :
  ConditionHolds LS (snd (sub_flags a b)) = (wrap a <=? wrap b).
Proof.
  unfold sub_flags, AddWithCarry, lnot64, ConditionHolds, flag_c, flag_z, snd, b2z.
  flags_arith.
Qed.

Lemma sub_flags_LT (a b : Z) :
  ConditionHolds LT (snd (sub_flags a b)) = (signed a <? signed b).
Proof.
  unfold sub_flags, AddWithCarry, lnot64, ConditionHolds, flag_n, flag_v, snd, b2z.
  flags_arith.
Qed.

Lemma sub_flags_GE (a b : Z) :
  ConditionHolds GE (snd (sub_flags a b)) = (signed b <=? signed a).
Proof.
  unfold sub_flags, AddWithCarry, lnot64, ConditionHolds, flag_n, flag_v, snd, b2z.
  flags_arith.
Qed.

Lemma sub_flags_GT (a b : Z) :
  ConditionHolds GT (snd (sub_flags a b)) = (signed b <? signed a).
Proof.
  unfold sub_flags, AddWithCarry, lnot64, ConditionHolds, flag_n, flag_v, flag_z,
    snd, b2z.
  flags_arith.
Qed.

Lemma sub_flags_LE (a b : Z) :
  ConditionHolds LE (snd (sub_flags a b)) = (signed a <=? signed b).
Proof.
  unfold sub_flags, AddWithCarry, lnot64, ConditionHolds, flag_n, flag_v, flag_z,
    snd, b2z.
  flags_arith.
Qed.

Lemma sub_flags_NE (a b : Z) :
  ConditionHolds NE (snd (sub_flags a b)) = negb (wrap a =? wrap b).
Proof.
  unfold sub_flags, AddWithCarry, lnot64, ConditionHolds, flag_z, snd, b2z.
  flags_arith.
Qed.

(** ** Registers and state *)

Lemma is_allocatable_spec (r : Register) :
  is_allocatable r = true ->
  Nat.eqb r TMP = false /\ Nat.eqb r TMP2 = false /\ Nat.eqb r ZR = false.
Proof.
  unfold is_allocatable. intros H.
  apply andb_true_iff in H as [H H3]. apply andb_true_iff in H as [H1 H2].
  apply negb_true_iff in H1, H2, H3. auto.
Qed.

Lemma eqb_sym_false (a b : nat) : Nat.eqb a b = false -> Nat.eqb b a = false.
Proof. rewrite Nat.eqb_sym. auto. Qed.

Lemma get_set_reg_eq (r : Register) (v : Z) (s : State) :
  Nat.eqb r ZR = false -> get_reg (set_reg r v s) r = v.
Proof.
  intros H. unfold get_reg, set_reg. rewrite H. cbn [regs with_regs].
  unfold upd. now rewrite Nat.eqb_refl.
Qed.

Lemma get_set_reg_neq (r r' : Register) (v : Z) (s : State) :
  Nat.eqb r' r = false -> get_reg (set_reg r v s) r' = get_reg s r'.
Proof.
  intros H. unfold get_reg, set_reg.
  destruct (Nat.eqb r ZR); [reflexivity |]. cbn [regs with_regs].
  unfold upd. now rewrite H.
Qed.

Lemma get_reg_ZR (s : State) : get_reg s ZR = 0.
Proof. reflexivity. Qed.

Lemma get_reg_with_flags f s r : get_reg (with_flags f s) r = get_reg s r.
Proof. reflexivity. Qed.
Lemma get_reg_with_mem m s r : get_reg (with_mem m s) r = get_reg s r.
Proof. reflexivity. Qed.
Lemma get_reg_with_vregs m s r : get_reg (with_vregs m s) r = get_reg s r.
Proof. reflexivity. Qed.
Lemma get_reg_with_stack m s r : get_reg (with_stack m s) r = get_reg s r.
Proof. reflexivity. Qed.
Lemma get_reg_with_heap_top m s r : get_reg (with_heap_top m s) r = get_reg s r.
Proof. reflexivity. Qed.

Lemma flags_set_reg r v s : flags (set_reg r v s) = flags s.
Proof. unfold set_reg. now destruct (Nat.eqb r ZR). Qed.
Lemma mem_set_reg r v s : mem (set_reg r v s) = mem s.
Proof. unfold set_reg. now destruct (Nat.eqb r ZR). Qed.
Lemma vregs_set_reg r v s : vregs (set_reg r v s) = vregs s.
Proof. unfold set_reg. now destruct (Nat.eqb r ZR). Qed.
Lemma stack_set_reg r v s : stack (set_reg r v s) = stack s.
Proof. unfold set_reg. now destruct (Nat.eqb r ZR). Qed.
Lemma pool_set_reg r v s : pool (set_reg r v s) = pool s.
Proof. unfold set_reg. now destruct (Nat.eqb r ZR). Qed.

(** Collect what is known about register names as boolean equations. *)
Ltac reg_facts :=
  repeat match goal with
  | H : is_allocatable ?r = true |- _ =>
      let H1 := fresh "Htmp" in let H2 := fresh "Htmp2" in let H3 := fresh "Hzr" in
      destruct (is_allocatable_spec r H) as (H1 & H2 & H3);
      pose proof (eqb_sym_false _ _ H1); pose proof (eqb_sym_false _ _ H2);
      pose proof (eqb_sym_false _ _ H3); clear H
  | H : ?a <> ?b |- _ =>
      let H1 := fresh "Hne" in
      pose proof (proj2 (Nat.eqb_neq a b) H) as H1;
      pose proof (eqb_sym_false _ _ H1); clear H
  end.

Lemma get_reg_with_store_buffer m s r :
  get_reg (with_store_buffer m s) r = get_reg s r.
Proof. reflexivity. Qed.

Lemma get_reg_set_vreg v x s r : get_reg (set_vreg v x s) r = get_reg s r.
Proof. reflexivity. Qed.

(** Symbolic execution of straight-line code. *)
Ltac machine :=
  repeat (
    cbn [run step operand_value address_of size_bytes fst snd binds_label
         flags mem vregs stack pool tags_of heap_top heap_end store_buffer calls
         with_flags with_mem with_vregs with_stack with_heap_top
         with_store_buffer];
    unfold set_reg_flags, set_flags_of, store_at;
    rewrite ?get_reg_with_flags, ?get_reg_with_mem, ?get_reg_with_vregs,
      ?get_reg_with_stack, ?get_reg_with_heap_top, ?get_reg_with_store_buffer,
      ?get_reg_set_vreg, ?get_reg_ZR,
      ?flags_set_reg, ?mem_set_reg, ?vregs_set_reg, ?stack_set_reg, ?pool_set_reg;
    rewrite ?get_set_reg_eq by (assumption || reflexivity);
    rewrite ?get_set_reg_neq by (assumption || reflexivity)).

(** ** Forward execution *)

Lemma run_app (c1 c2 : Code) :
  forall (seek : option Label) (s : State),
    run (c1 ++ c2) seek s =
    match run c1 seek s with
    | Fallthrough s' => run c2 None s'
    | Jump l s' => run c2 (Some l) s'
    | Stuck => Stuck
    end.
Proof.
  induction c1 as [| i c1 IH]; intros seek s.
  - destruct seek; reflexivity.
  - cbn [app run]. destruct seek as [l |].
    + destruct (binds_label l i); apply IH.
    + destruct (step i s); [apply IH | apply IH | reflexivity].
Qed.

Lemma run_seek_unbound (c : Code) (l : Label) (s : State) :
  binds c l = false -> run c (Some l) s = Jump l s.
Proof.
  induction c as [| i c IH]; intros H; [reflexivity |].
  cbn [binds existsb] in H. apply orb_false_iff in H as [H1 H2].
  cbn [run]. rewrite H1. now apply IH.
Qed.

(** ** Shifts and products *)

Lemma div_unique_range (z d q : Z) : 0 < d -> d * q <= z < d * (q + 1) -> z / d = q.
Proof.
  intros Hd H. symmetry. apply (Z.div_unique z d q (z - d * q)); lia.
Qed.

Lemma asr_RawValue (v : Z) : IsSmiValue v -> shift64 ASR (RawValue v) kSmiTagSize = wrap v.
Proof.
  intros H. unfold shift64. rewrite (signed_RawValue v H).
  unfold kSmiTagSize. rewrite Z.shiftr_div_pow2 by lia.
  f_equal. apply div_unique_range; lia.
Qed.

Lemma asr_63 (a : Z) :
  shift64 ASR a 63 = if signed a <? 0 then 2 ^ 64 - 1 else 0.
Proof.
  unfold shift64. rewrite Z.shiftr_div_pow2 by lia.
  pose proof (signed_range a) as R.
  destruct (Z.ltb_spec (signed a) 0).
  - rewrite (div_unique_range (signed a) (2 ^ 63) (-1)) by lia. reflexivity.
  - rewrite (div_unique_range (signed a) (2 ^ 63) 0) by lia. reflexivity.
Qed.

Lemma lsl_1 (a : Z) : shift64 LSL a 1 = wrap (a * 2).
Proof.
  unfold shift64. rewrite Z.shiftl_mul_pow2 by lia. change (2 ^ 1) with 2. words.
Qed.

Lemma wrap_mul (a b : Z) : wrap (wrap a * wrap b) = wrap (a * b).
Proof. unfold wrap. now rewrite <- Z.mul_mod by lia. Qed.

Lemma wrap_mul_l (a b : Z) : wrap (wrap a * b) = wrap (a * b).
Proof. unfold wrap. now rewrite Z.mul_mod_idemp_l by lia. Qed.

Lemma wrap_mul_r (a b : Z) : wrap (a * wrap b) = wrap (a * b).
Proof. unfold wrap. now rewrite Z.mul_mod_idemp_r by lia. Qed.

(** The overflow test after a widening multiply: the high word equals the
    sign extension of the low word exactly when the product fits 64 bits. *)
Lemma product_fits (p : Z) :
  - 2 ^ 126 <= p <= 2 ^ 126 ->
  (wrap (wrap (p / 2 ^ 64)) =? wrap (shift64 ASR (wrap p) 63)) =
  ((- 2 ^ 63 <=? p) && (p <? 2 ^ 63)).
Proof.
  intros B. rewrite asr_63.
  pose proof (Z.div_mod p (2 ^ 64) ltac:(lia)) as D.
  pose proof (Z.mod_pos_bound p (2 ^ 64) ltac:(lia)) as M.
  set (q := p / 2 ^ 64) in *. clearbody q.
  rewrite signed_wrap.
  assert (Hs : signed p = if p mod 2 ^ 64 <? 2 ^ 63 then p mod 2 ^ 64
                          else p mod 2 ^ 64 - 2 ^ 64) by reflexivity.
  rewrite Hs. set (lo := p mod 2 ^ 64) in *. clearbody lo.
  destruct (Z.ltb_spec lo (2 ^ 63)).
  - destruct (Z.ltb_spec lo 0); [lia |].
    abstract_words. case_tests; cbn [andb]; first [reflexivity | lia].
  - destruct (Z.ltb_spec (lo - 2 ^ 64) 0); [| lia].
    abstract_words. case_tests; cbn [andb]; first [reflexivity | lia].
Qed.

Section CheckedArithmetic.

Local Arguments wrap : simpl never.
Local Arguments signed : simpl never.
Local Arguments RawValue : simpl never.
Local Arguments shift64 : simpl never.
Local Arguments sdiv64 : simpl never.
Local Arguments smulh64 : simpl never.
Local Arguments add_flags : simpl never.
Local Arguments sub_flags : simpl never.
Local Arguments get_reg : simpl never.
Local Arguments set_reg : simpl never.
Local Arguments Z.pow : simpl never.
Local Arguments Z.mul : simpl never.
Local Arguments Z.add : simpl never.
Local Arguments Z.sub : simpl never.
Local Arguments Z.opp : simpl never.

(** ** Checked arithmetic on tagged integers *)

Lemma is_smi_value_spec (v : Z) : is_smi_value v = true <-> IsSmiValue v.
Proof.
  unfold is_smi_value, IsSmiValue. rewrite andb_true_iff, !Z.leb_le. tauto.
Qed.

Lemma is_smi_value_false (v : Z) : is_smi_value v = false <-> ~ IsSmiValue v.
Proof.
  rewrite <- is_smi_value_spec. destruct (is_smi_value v); split; congruence.
Qed.

Lemma smi_fits_double (v : Z) :
  is_smi_value v = ((- 2 ^ 63 <=? v * 2) && (v * 2 <? 2 ^ 63)).
Proof.
  unfold is_smi_value, kSmiMin, kSmiMax.
  case_tests; cbn [andb]; first [reflexivity | lia].
Qed.

Lemma add_smi_VS (x y : Z) :
  IsSmiValue x -> IsSmiValue y ->
  ConditionHolds VS (snd (add_flags (RawValue x) (RawValue y))) =
  negb (is_smi_value (x + y)).
Proof.
  intros Hx Hy. rewrite add_flags_VS, !signed_RawValue by assumption.
  rewrite (smi_fits_double (x + y)). now replace ((x + y) * 2) with (x * 2 + y * 2) by ring.
Qed.

Lemma add_smi_result (x y : Z) :
  fst (add_flags (RawValue x) (RawValue y)) = RawValue (x + y).
Proof. rewrite fst_add_flags. unfold RawValue. words. Qed.

Lemma sub_smi_VS (x y : Z) :
  IsSmiValue x -> IsSmiValue y ->
  ConditionHolds VS (snd (sub_flags (RawValue x) (RawValue y))) =
  negb (is_smi_value (x - y)).
Proof.
  intros Hx Hy. rewrite sub_flags_VS, !signed_RawValue by assumption.
  rewrite (smi_fits_double (x - y)). now replace ((x - y) * 2) with (x * 2 - y * 2) by ring.
Qed.

Lemma sub_smi_result (x y : Z) :
  fst (sub_flags (RawValue x) (RawValue y)) = RawValue (x - y).
Proof. rewrite fst_sub_flags. unfold RawValue. words. Qed.

Lemma smi_product_bound (x y : Z) :
  IsSmiValue x -> IsSmiValue y -> - 2 ^ 126 <= x * (y * 2) <= 2 ^ 126.
Proof.
  unfold IsSmiValue, kSmiMin, kSmiMax. intros Hx Hy.
  assert (Hp : Z.abs (x * (y * 2)) <= 2 ^ 62 * 2 ^ 63).
  { rewrite Z.abs_mul. apply Z.mul_le_mono_nonneg; lia. }
  change (2 ^ 62 * 2 ^ 63) with (2 ^ 125) in Hp. lia.
Qed.

(** The multiply-and-compare sequence on the untagged left and the tagged
    right operand. *)
Lemma mul_smi_NE (x y : Z) :
  IsSmiValue x -> IsSmiValue y ->
  ConditionHolds NE
    (snd (sub_flags (smulh64 (wrap x) (RawValue y))
                    (shift64 ASR (wrap (wrap x * RawValue y)) 63))) =
  negb (is_smi_value (x * y)).
Proof.
  intros Hx Hy. rewrite sub_flags_NE. f_equal.
  unfold smulh64. rewrite signed_wrap, signed_RawValue by assumption.
  rewrite (signed_small x) by (unfold IsSmiValue, kSmiMin, kSmiMax in Hx; lia).
  unfold RawValue at 1. rewrite wrap_mul.
  rewrite product_fits by now apply smi_product_bound.
  rewrite (smi_fits_double (x * y)). now replace (x * y * 2) with (x * (y * 2)) by ring.
Qed.

Lemma mul_smi_result (x y : Z) : wrap (wrap x * RawValue y) = RawValue (x * y).
Proof.
  unfold RawValue. rewrite wrap_mul. f_equal. ring.
Qed.

Lemma checked_by_flags (code : Code) (deopt : Label) (result : Register)
    (v : Z) (s s1 : State) (c : Condition) :
  ConditionHolds c (flags s1) = negb (is_smi_value v) ->
  get_reg s1 result = RawValue v ->
  run code None s = run [b_cond deopt c] None s1 ->
  checked_outcome code deopt result v s.
Proof.
  intros Hc Hr Hrun. exists s1. rewrite Hrun. cbn [run step]. rewrite Hc.
  destruct (is_smi_value v); cbn [negb]; auto.
Qed.

Lemma add_register_checked (result left right : Register) (deopt : Label)
    (x y : Z) (s : State) :
  Nat.eqb result ZR = false ->
  IsSmiValue x -> IsSmiValue y ->
  get_reg s left = RawValue x -> get_reg s right = RawValue y ->
  checked_outcome [adds result left (Reg right); b_cond deopt VS] deopt result (x + y) s.
Proof.
  intros Hzr Hx Hy Hl Hr.
  eapply checked_by_flags; [| | cbn [run step]; reflexivity]; machine; rewrite Hl, Hr.
  - now apply add_smi_VS.
  - apply add_smi_result.
Qed.

Lemma sub_register_checked (result left right : Register) (deopt : Label)
    (x y : Z) (s : State) :
  Nat.eqb result ZR = false ->
  IsSmiValue x -> IsSmiValue y ->
  get_reg s left = RawValue x -> get_reg s right = RawValue y ->
  checked_outcome [subs result left (Reg right); b_cond deopt VS] deopt result (x - y) s.
Proof.
  intros Hzr Hx Hy Hl Hr.
  eapply checked_by_flags; [| | cbn [run step]; reflexivity]; machine; rewrite Hl, Hr.
  - now apply sub_smi_VS.
  - apply sub_smi_result.
Qed.

Lemma add_immediate_checked (result left : Register) (deopt : Label)
    (x y : Z) (s : State) :
  Nat.eqb result ZR = false ->
  IsSmiValue x -> IsSmiValue y ->
  get_reg s left = RawValue x ->
  checked_outcome [AddImmediateSetFlags result left (RawValue y); b_cond deopt VS]
    deopt result (x + y) s.
Proof.
  intros Hzr Hx Hy Hl.
  eapply checked_by_flags; [| | cbn [run step]; reflexivity]; machine; rewrite Hl.
  - now apply add_smi_VS.
  - apply add_smi_result.
Qed.

Lemma sub_immediate_checked (result left : Register) (deopt : Label)
    (x y : Z) (s : State) :
  Nat.eqb result ZR = false ->
  IsSmiValue x -> IsSmiValue y ->
  get_reg s left = RawValue x ->
  checked_outcome [SubImmediateSetFlags result left (RawValue y); b_cond deopt VS]
    deopt result (x - y) s.
Proof.
  intros Hzr Hx Hy Hl.
  eapply checked_by_flags; [| | cbn [run step]; reflexivity]; machine; rewrite Hl.
  - now apply sub_smi_VS.
  - apply sub_smi_result.
Qed.

Lemma mul_register_checked (result left right : Register) (deopt : Label)
    (x y : Z) (s : State) :
  Nat.eqb result ZR = false -> Nat.eqb result TMP = false ->
  Nat.eqb TMP result = false ->
  Nat.eqb right TMP = false -> Nat.eqb right result = false ->
  IsSmiValue x -> IsSmiValue y ->
  get_reg s left = RawValue x -> get_reg s right = RawValue y ->
  checked_outcome
    [ Asr TMP left kSmiTagSize; mul result TMP right; smulh TMP TMP right;
      cmp TMP (Shifted result ASR 63); b_cond deopt NE ] deopt result (x * y) s.
Proof.
  intros Hzr Hrt Htr Hrit Hrir Hx Hy Hl Hr.
  eapply checked_by_flags; [| | cbn [run step]; reflexivity]; machine;
    rewrite Hl, Hr, asr_RawValue by assumption.
  - now apply mul_smi_NE.
  - apply mul_smi_result.
Qed.

Lemma smulh64_comm (a b : Z) : smulh64 a b = smulh64 b a.
Proof. unfold smulh64. now rewrite Z.mul_comm. Qed.

Lemma mul_immediate_checked (result left : Register) (deopt : Label)
    (x y : Z) (s : State) :
  Nat.eqb result ZR = false -> Nat.eqb result TMP = false ->
  Nat.eqb TMP result = false ->
  Nat.eqb left TMP = false -> Nat.eqb left result = false ->
  IsSmiValue x -> IsSmiValue y ->
  get_reg s left = RawValue x ->
  checked_outcome
    [ LoadImmediate TMP y; mul result left TMP; smulh TMP left TMP;
      cmp TMP (Shifted result ASR 63); b_cond deopt NE ] deopt result (x * y) s.
Proof.
  intros Hzr Hrt Htr Hlt Hlr Hx Hy Hl.
  eapply checked_by_flags; [| | cbn [run step]; reflexivity]; machine; rewrite Hl.
  - rewrite smulh64_comm, (Z.mul_comm (RawValue x)), (Z.mul_comm x).
    now apply mul_smi_NE.
  - rewrite (Z.mul_comm (RawValue x)), (Z.mul_comm x). apply mul_smi_result.
Qed.

Lemma double_smi_NE (x : Z) :
  IsSmiValue x ->
  ConditionHolds NE
    (snd (sub_flags (shift64 ASR (RawValue x) 63)
                    (shift64 ASR (shift64 LSL (RawValue x) 1) 63))) =
  negb (is_smi_value (x * 2)).
Proof.
  intros Hx. rewrite sub_flags_NE, !asr_63, lsl_1. f_equal.
  rewrite signed_RawValue by assumption.
  unfold is_smi_value, RawValue, IsSmiValue, kSmiMin, kSmiMax in *.
  abstract_words. case_tests; cbn [andb]; first [reflexivity | lia].
Qed.

Lemma double_smi_result (x : Z) : shift64 LSL (RawValue x) 1 = RawValue (x * 2).
Proof. rewrite lsl_1. unfold RawValue. words. Qed.

Lemma mul_two_checked (result left : Register) (deopt : Label) (x : Z) (s : State) :
  Nat.eqb result ZR = false -> Nat.eqb result TMP = false ->
  Nat.eqb TMP result = false -> Nat.eqb left TMP = false ->
  IsSmiValue x ->
  get_reg s left = RawValue x ->
  checked_outcome
    [ Asr TMP left 63; Lsl result left 1; cmp TMP (Shifted result ASR 63);
      b_cond deopt NE ] deopt result (x * 2) s.
Proof.
  intros Hzr Hrt Htr Hlt Hx Hl.
  eapply checked_by_flags; [| | cbn [run step]; reflexivity]; machine; rewrite Hl.
  - now apply double_smi_NE.
  - apply double_smi_result.
Qed.

(** The optional range check for JavaScript-compatible integers either takes
    the guard or leaves the result in place. *)
Lemma javascript_overflow_check_run (compiler : FlowGraphCompiler)
    (range : option Range) (deopt : Label) (result : Register) :
  (FLAG_throw_on_javascript_int_overflow compiler = true -> range <> None) ->
  exists js : Code,
    javascript_overflow_check compiler range (Some deopt) result = Some js /\
    (FLAG_throw_on_javascript_int_overflow compiler = false -> js = []) /\
    binds js deopt = false /\
    forall s : State,
      (exists s', run js None s = Jump deopt s') \/
      (exists s', run js None s = Fallthrough s' /\
                  get_reg s' result = get_reg s result).
Proof.
  intros Hrange. unfold javascript_overflow_check, EmitJavascriptOverflowCheck.
  destruct (FLAG_throw_on_javascript_int_overflow compiler).
  - destruct range as [r |]; [| now elim Hrange]. cbn [obind].
    destruct (negb (IsWithin r (Finite (- 9007199254740992)) (Finite 9007199254740992)));
      cbn [obind].
    + eexists. split; [reflexivity |]. split; [discriminate |]. split; [reflexivity |].
      intros s. cbn [run step].
      destruct (ConditionHolds LT _); [left; eexists; reflexivity |].
      cbn [run step].
      destruct (ConditionHolds GT _); [left; eexists; reflexivity |].
      right. eexists. split; [reflexivity |]. reflexivity.
    + exists []. repeat split; auto. intros s. right. exists s. auto.
  - exists []. repeat split; auto. intros s. right. exists s. auto.
Qed.

(** C1.  Checked addition, subtraction and multiplication of two tagged
    small integers, with the right operand in a register or an immediate
    constant: the emitted code either falls through with the tagged
    mathematical result in the result register, that result being
    representable, or transfers control to the instruction's deopt stub; a
    wrapped value never reaches the fall-through.  Without the JavaScript
    range flag the guard is taken exactly when the result is not
    representable. *)
Theorem BinarySmiOp_checked_arithmetic :
  forall (compiler : FlowGraphCompiler) (this : BinarySmiOpInstr)
         (left result : Register) (right_loc : Location)
         (tmps : list Location) (live : RegisterSet)
         (x y v : Z) (s : State),
    checked_result (op_kind this) x y = Some v ->
    CanDeoptimize this = true ->
    is_truncating this = false ->
    bs_locs this =
      mkLocationSummary [RegisterLocation left; right_loc] tmps
        (RegisterLocation result) live ->
    (FLAG_throw_on_javascript_int_overflow compiler = true -> range this <> None) ->
    IsSmiValue x -> IsSmiValue y ->
    holds_smi s (RegisterLocation left) x ->
    holds_smi s right_loc y ->
    is_allocatable result = true ->
    output_distinct result [RegisterLocation left; right_loc] ->
    exists code : Code,
      BinarySmiOpInstr_EmitNativeCode compiler this = Some code /\
      ((exists s', run code None s = Jump (DeoptStub (deopt_id this) kDeoptBinarySmiOp) s')
       \/
       (exists s', run code None s = Fallthrough s' /\
                   get_reg s' result = RawValue v /\ IsSmiValue v)) /\
      (FLAG_throw_on_javascript_int_overflow compiler = false ->
       ((exists s', run code None s = Jump (DeoptStub (deopt_id this) kDeoptBinarySmiOp) s')
        <-> ~ IsSmiValue v)).
Proof.
  intros compiler this left result right_loc tmps live x y v s
         Hop Hdeopt Htrunc Hlocs Hflag Hx Hy [Hal Hl] Hr Har Hdist.
  set (deopt := DeoptStub (deopt_id this) kDeoptBinarySmiOp).
  destruct (javascript_overflow_check_run compiler (range this) deopt result Hflag)
    as (js & Ejs & Hnil & Hbind & Hjs).
  assert (Hcore : exists core : Code,
            BinarySmiOpInstr_EmitNativeCode compiler this = Some (core ++ js) /\
            checked_outcome core deopt result v s).
  { assert (Hlr : left <> result) by (apply Hdist; cbn; auto).
    unfold BinarySmiOpInstr_EmitNativeCode.
    destruct (op_kind this) eqn:Ek; try discriminate Hop;
      cbn [Token_Kind_eqb]; rewrite Htrunc, Hlocs, Hdeopt;
      cbn [ASSERT negb obind in_ nth_error inputs output out reg];
      fold deopt;
      (destruct right_loc as [right | | c | |]; try contradiction;
       [ destruct Hr as [Hari Hr];
         assert (Hrr : right <> result) by (apply Hdist; cbn; auto)
       | destruct c as [c | | | | |]; try contradiction;
         cbn [holds_smi] in Hr; subst c ]);
      cbn [IsConstant constant reg obind Smi_raw Smi_Value];
      inversion Hop; subst v; rewrite Ejs; cbn [obind]; reg_facts.
    - eexists; split; [reflexivity |]. now apply add_register_checked.
    - eexists; split; [reflexivity |]. now apply add_immediate_checked.
    - eexists; split; [reflexivity |]. now apply sub_register_checked.
    - eexists; split; [reflexivity |]. now apply sub_immediate_checked.
    - eexists; split; [reflexivity |]. now apply mul_register_checked.
    - destruct (Z.eqb_spec y 2) as [-> |]; cbn [obind];
        (eexists; split; [reflexivity |]).
      + now apply mul_two_checked.
      + now apply mul_immediate_checked. }
  destruct Hcore as (core & Ecode & s1 & Hrun & Hres).
  exists (core ++ js). split; [exact Ecode |].
  rewrite run_app, Hrun. split.
  - destruct (is_smi_value v) eqn:Ev.
    + destruct (Hjs s1) as [[s' E] | [s' [E Hsame]]].
      * left. eauto.
      * right. exists s'. split; [exact E |]. split.
        -- rewrite Hsame. now apply Hres.
        -- now apply is_smi_value_spec.
    + left. exists s1. now apply run_seek_unbound.
  - intros Hoff. rewrite (Hnil Hoff). cbn [run].
    destruct (is_smi_value v) eqn:Ev.
    + split.
      * intros [s' E]. discriminate E.
      * intros Hn. elim Hn. now apply is_smi_value_spec.
    + split.
      * intros _. now apply is_smi_value_false.
      * intros _. eauto.
Qed.

End CheckedArithmetic.

Section ArrayBounds.

Local Arguments wrap : simpl never.
Local Arguments RawValue : simpl never.
Local Arguments sub_flags : simpl never.
Local Arguments get_reg : simpl never.
Local Arguments set_reg : simpl never.

(** ** Array bounds check *)

Lemma with_flags_same (s : State) : s = with_flags (flags s) s.
Proof. now destruct s. Qed.

Lemma in_bounds_LS (index length : Z) :
  IsSmiValue index -> IsSmiValue length -> 0 <= length ->
  (wrap (RawValue length) <=? wrap (RawValue index)) =
  negb ((0 <=? index) && (index <? length)).
Proof.
  unfold IsSmiValue, kSmiMin, kSmiMax, RawValue. intros Hi Hl H0.
  abstract_words. case_tests; cbn [negb andb]; first [reflexivity | lia].
Qed.

(** C2.  With index and length tagged small integers (each in a register or
    an immediate constant) and a non-negative length, the bounds check
    transfers control to the array-bounds deopt stub exactly when the index
    is outside [0, length); an index in range falls through, and then
    nothing but the condition flags written by the compare differs from the
    state before. *)
Theorem CheckArrayBound_guard_iff_out_of_range :
  forall (this : CheckArrayBoundInstr) (length_loc index_loc : Location)
         (tmps : list Location) (outl : Location) (live : RegisterSet)
         (index length : Z) (s : State),
    cab_locs this = mkLocationSummary [length_loc; index_loc] tmps outl live ->
    IsSmiValue index -> IsSmiValue length -> 0 <= length ->
    holds_smi s length_loc length ->
    holds_smi s index_loc index ->
    exists (code : Code) (s' : State),
      CheckArrayBoundInstr_EmitNativeCode this = Some code /\
      run code None s =
        (if (0 <=? index) && (index <? length)
         then Fallthrough s'
         else Jump (DeoptStub (cab_deopt_id this) kDeoptCheckArrayBound) s') /\
      exists f : Flags, s' = with_flags f s.
Proof.
  intros this length_loc index_loc tmps outl live index length s
         Hlocs Hi Hl H0 Hlen Hidx.
  unfold CheckArrayBoundInstr_EmitNativeCode. rewrite Hlocs.
  cbn [obind in_ nth_error inputs kLengthPos kIndexPos].
  destruct length_loc as [lr | | lc | |]; try contradiction;
    [destruct Hlen as [_ Hlen]
    | destruct lc as [lc | | | | |]; try contradiction; cbn [holds_smi] in Hlen; subst lc];
    (destruct index_loc as [ir | | ic | |]; try contradiction;
     [destruct Hidx as [_ Hidx]
     | destruct ic as [ic | | | | |]; try contradiction;
       cbn [holds_smi] in Hidx; subst ic]);
    cbn [IsConstant andb obind reg constant Smi_raw Smi_Value].
  - (* both in registers *)
    do 2 eexists. split; [reflexivity |]. machine.
    rewrite sub_flags_CS, Hlen, Hidx, in_bounds_LS by assumption.
    split; [| eexists; reflexivity].
    destruct ((0 <=? index) && (index <? length)); reflexivity.
  - (* constant index *)
    do 2 eexists. split; [reflexivity |]. machine.
    rewrite sub_flags_LS, Hlen, in_bounds_LS by assumption.
    split; [| eexists; reflexivity].
    destruct ((0 <=? index) && (index <? length)); reflexivity.
  - (* constant length *)
    do 2 eexists. split; [reflexivity |]. machine.
    rewrite sub_flags_CS, Hidx, in_bounds_LS by assumption.
    split; [| eexists; reflexivity].
    destruct ((0 <=? index) && (index <? length)); reflexivity.
  - (* both constant *)
    assert (E : (length >? index) && (index >=? 0) = (0 <=? index) && (index <? length)).
    { rewrite Z.gtb_ltb, Z.geb_leb. apply andb_comm. }
    rewrite E.
    destruct ((0 <=? index) && (index <? length)) eqn:Ein.
    + exists [], s. split; [reflexivity |]. split; [reflexivity |].
      exists (flags s). apply with_flags_same.
    + assert (A : (length <=? index) || (index <? 0) = true).
      { apply andb_false_iff in Ein. apply orb_true_iff.
        destruct Ein as [Ein | Ein]; bool_prop; [right | left];
          first [apply Z.ltb_lt | apply Z.leb_le]; lia. }
      rewrite A. cbn [ASSERT obind].
      exists [b_ (DeoptStub (cab_deopt_id this) kDeoptCheckArrayBound)], s.
      split; [reflexivity |]. split; [reflexivity |].
      exists (flags s). apply with_flags_same.
Qed.

End ArrayBounds.

Section Division.

Local Arguments wrap : simpl never.
Local Arguments signed : simpl never.
Local Arguments RawValue : simpl never.
Local Arguments shift64 : simpl never.
Local Arguments sdiv64 : simpl never.
Local Arguments sub_flags : simpl never.
Local Arguments get_reg : simpl never.
Local Arguments set_reg : simpl never.
Local Arguments Z.pow : simpl never.
Local Arguments Z.mul : simpl never.
Local Arguments Z.add : simpl never.
Local Arguments Z.sub : simpl never.
Local Arguments Z.quot : simpl never.
Local Arguments Z.rem : simpl never.

(** ** Division and modulo *)

Lemma quot_rem_facts (x y : Z) :
  y <> 0 ->
  x = y * Z.quot x y + Z.rem x y /\
  Z.abs (Z.rem x y) < Z.abs y /\
  (0 <= x -> 0 <= Z.rem x y) /\
  (x <= 0 -> Z.rem x y <= 0).
Proof.
  intros Hy. split; [apply Z.quot_rem'; assumption |]. split.
  - now apply Z.rem_bound_abs.
  - split; intros H.
    + now apply Z.rem_nonneg.
    + now apply Z.rem_nonpos.
Qed.

Lemma quot_abs_le (x y : Z) : y <> 0 -> Z.abs (Z.quot x y) <= Z.abs x.
Proof.
  intros Hy. destruct (quot_rem_facts x y Hy) as (E & B & P & N).
  set (q := Z.quot x y) in *. set (r := Z.rem x y) in *. clearbody q r.
  nia.
Qed.

Lemma quot_max (x y : Z) :
  y <> 0 -> IsSmiValue x ->
  (Z.quot x y = 2 ^ 62 <-> x = kSmiMin /\ y = -1).
Proof.
  unfold IsSmiValue, kSmiMin, kSmiMax. intros Hy Hx. split.
  - intros Hq. destruct (quot_rem_facts x y Hy) as (E & B & P & N).
    pose proof (quot_abs_le x y Hy) as A. rewrite Hq in *.
    set (r := Z.rem x y) in *. clearbody r.
    assert (x = - 2 ^ 62) by lia. split; [assumption |]. nia.
  - intros [-> ->]. reflexivity.
Qed.

Lemma sdiv_smi (x y : Z) :
  IsSmiValue x -> IsSmiValue y -> y <> 0 ->
  sdiv64 (wrap x) (wrap y) = wrap (Z.quot x y).
Proof.
  unfold IsSmiValue, kSmiMin, kSmiMax. intros Hx Hy H0.
  unfold sdiv64. rewrite !signed_wrap, !signed_small by lia.
  destruct (Z.eqb_spec y 0); [contradiction | reflexivity].
Qed.

Lemma smi_tag_wrap (v : Z) : shift64 LSL (wrap v) kSmiTagSize = RawValue v.
Proof. unfold kSmiTagSize. rewrite lsl_1. unfold RawValue. words. Qed.

Lemma smi_zero_EQ (y : Z) :
  IsSmiValue y ->
  ConditionHolds EQ (snd (sub_flags (RawValue y) 0)) = (y =? 0).
Proof.
  unfold IsSmiValue, kSmiMin, kSmiMax, RawValue. intros Hy.
  rewrite sub_flags_EQ. abstract_words. case_tests; first [reflexivity | lia].
Qed.

Lemma quot_overflow_EQ (x y : Z) :
  IsSmiValue x -> IsSmiValue y -> y <> 0 ->
  ConditionHolds EQ (snd (sub_flags (wrap (Z.quot x y)) 4611686018427387904)) =
  ((x =? kSmiMin) && (y =? -1)).
Proof.
  intros Hx Hy H0. rewrite sub_flags_EQ.
  pose proof (quot_abs_le x y H0) as A. pose proof (quot_max x y H0 Hx) as M.
  change 4611686018427387904 with (2 ^ 62) in *.
  unfold IsSmiValue, kSmiMin, kSmiMax in *.
  set (q := Z.quot x y) in *. clearbody q.
  abstract_words. case_tests; cbn [andb]; first [reflexivity | lia].
Qed.

Lemma quot_is_smi (x y : Z) :
  IsSmiValue x -> y <> 0 -> ~ (x = kSmiMin /\ y = -1) -> IsSmiValue (Z.quot x y).
Proof.
  intros Hx H0 Hn. pose proof (quot_abs_le x y H0) as A.
  pose proof (quot_max x y H0 Hx) as M.
  unfold IsSmiValue, kSmiMin, kSmiMax in *. lia.
Qed.

Lemma truncdiv_body (result left right : Register) (deopt : Label)
    (x y : Z) (s : State) :
  Nat.eqb result ZR = false -> Nat.eqb result TMP = false ->
  Nat.eqb result TMP2 = false ->
  Nat.eqb right TMP2 = false -> Nat.eqb TMP2 TMP = false ->
  IsSmiValue x -> IsSmiValue y -> y <> 0 ->
  get_reg s left = RawValue x -> get_reg s right = RawValue y ->
  exists s1 : State,
    run [ Asr TMP2 left kSmiTagSize; Asr TMP right kSmiTagSize; sdiv result TMP2 TMP;
          CompareImmediate result 4611686018427387904; b_cond deopt EQ;
          SmiTag result ] None s =
      (if (x =? kSmiMin) && (y =? -1) then Jump deopt s1 else Fallthrough s1) /\
    ((x =? kSmiMin) && (y =? -1) = false ->
     get_reg s1 result = RawValue (Z.quot x y)).
Proof.
  intros Hzr Hrt Hrt2 Hrit2 Htt Hx Hy H0 Hl Hr. machine.
  rewrite Hl, Hr, !asr_RawValue, sdiv_smi, quot_overflow_EQ by assumption.
  destruct ((x =? kSmiMin) && (y =? -1)).
  - eexists. split; [reflexivity |]. discriminate.
  - eexists. split; [reflexivity |]. intros _. machine.
    apply smi_tag_wrap.
Qed.

Lemma msub_rem (x y : Z) :
  y <> 0 -> wrap (wrap x - wrap y * wrap (Z.quot x y)) = wrap (Z.rem x y).
Proof.
  intros H0. pose proof (Z.quot_rem' x y) as E.
  pose proof (wrap_mul y (Z.quot x y)) as M.
  set (p := wrap y * wrap (Z.quot x y)) in *.
  set (m := y * Z.quot x y) in *. set (r := Z.rem x y) in *.
  clearbody p m r. words.
Qed.

Lemma rem_is_smi (x y : Z) : IsSmiValue y -> y <> 0 -> IsSmiValue (Z.rem x y).
Proof.
  intros Hy H0. destruct (quot_rem_facts x y H0) as (_ & B & _ & _).
  unfold IsSmiValue, kSmiMin, kSmiMax in *. lia.
Qed.

Lemma smi_nonneg_GE (r : Z) :
  IsSmiValue r ->
  ConditionHolds GE (snd (sub_flags (RawValue r) 0)) = negb (r <? 0).
Proof.
  intros Hr. rewrite sub_flags_GE, signed_RawValue by assumption.
  rewrite (signed_small 0) by lia.
  case_tests; cbn [negb]; first [reflexivity | lia].
Qed.

Lemma smi_negative_LT (y : Z) :
  IsSmiValue y ->
  ConditionHolds LT (snd (sub_flags (RawValue y) 0)) = (y <? 0).
Proof.
  intros Hy. rewrite sub_flags_LT, signed_RawValue by assumption.
  rewrite (signed_small 0) by lia.
  case_tests; first [reflexivity | lia].
Qed.

Lemma raw_sub (a b : Z) : wrap (RawValue a - RawValue b) = RawValue (a - b).
Proof. unfold RawValue. words. Qed.

Lemma raw_add (a b : Z) : wrap (RawValue a + RawValue b) = RawValue (a + b).
Proof. unfold RawValue. words. Qed.

Lemma mod_body (result left right : Register) (x y : Z) (s : State) :
  Nat.eqb result ZR = false -> Nat.eqb result TMP = false ->
  Nat.eqb result TMP2 = false -> Nat.eqb TMP result = false ->
  Nat.eqb TMP2 result = false -> Nat.eqb right result = false ->
  Nat.eqb right TMP = false ->
  Nat.eqb right TMP2 = false -> Nat.eqb TMP2 TMP = false ->
  IsSmiValue x -> IsSmiValue y -> y <> 0 ->
  get_reg s left = RawValue x -> get_reg s right = RawValue y ->
  exists s1 : State,
    run [ Asr TMP2 left kSmiTagSize; Asr TMP right kSmiTagSize; sdiv result TMP2 TMP;
          Asr TMP right kSmiTagSize; msub result TMP result TMP2; SmiTag result;
          CompareRegisters result ZR; b_cond (LocalLabel done) GE;
          CompareRegisters right ZR; sub TMP result (Reg right);
          add result result (Reg right); csel result TMP result LT;
          Bind (LocalLabel done) ] None s = Fallthrough s1 /\
    get_reg s1 result = RawValue (normalized_remainder x y).
Proof.
  intros Hzr Hrt Hrt2 Htr Ht2r Hrir Hrit Hrit2 Htt Hx Hy H0 Hl Hr.
  pose proof (rem_is_smi x y Hy H0) as Hrem.
  unfold normalized_remainder. machine.
  rewrite Hl, Hr, !asr_RawValue, sdiv_smi, msub_rem, smi_tag_wrap, smi_nonneg_GE
    by assumption.
  destruct (Z.rem x y <? 0); cbn [negb]; machine; cbn [Label_eqb LocalName_eqb];
    machine; (eexists; split; [reflexivity |]); machine.
  - rewrite Hr, smi_negative_LT by assumption.
    destruct (y <? 0); [apply raw_sub | apply raw_add].
  - reflexivity.
Qed.

Lemma normalized_remainder_spec (x y : Z) :
  y <> 0 ->
  0 <= normalized_remainder x y < Z.abs y /\
  x = y * Z.quot x y + normalized_remainder x y
      - (if Z.rem x y <? 0 then Z.abs y else 0).
Proof.
  intros H0. destruct (quot_rem_facts x y H0) as (E & B & _ & _).
  unfold normalized_remainder.
  set (q := Z.quot x y) in *. set (r := Z.rem x y) in *. clearbody q r.
  destruct (Z.ltb_spec r 0); destruct (Z.ltb_spec y 0); lia.
Qed.

Lemma binds_app (c1 c2 : Code) (l : Label) :
  binds (c1 ++ c2) l = binds c1 l || binds c2 l.
Proof. unfold binds. apply existsb_app. Qed.

(** After the arithmetic proper, the optional range check can only add
    transfers to the guard. *)
Lemma guard_then_check (body js : Code) (deopt : Label) (result : Register)
    (res : Z) (bad : bool) (s s1 : State) :
  run body None s = (if bad then Jump deopt s1 else Fallthrough s1) ->
  (bad = false -> get_reg s1 result = res) ->
  binds js deopt = false ->
  (forall s0 : State,
     (exists s', run js None s0 = Jump deopt s') \/
     (exists s', run js None s0 = Fallthrough s' /\
                 get_reg s' result = get_reg s0 result)) ->
  (bad = true -> exists s', run (body ++ js) None s = Jump deopt s') /\
  (forall s', run (body ++ js) None s = Fallthrough s' ->
              bad = false /\ get_reg s' result = res) /\
  (js = [] -> bad = false -> exists s', run (body ++ js) None s = Fallthrough s').
Proof.
  intros Hrun Hres Hbind Hjs. rewrite run_app, Hrun. destruct bad.
  - rewrite (run_seek_unbound js deopt s1 Hbind). split; [eauto |].
    split; [discriminate | discriminate].
  - split; [discriminate |]. split.
    + intros s' E. split; [reflexivity |].
      destruct (Hjs s1) as [[s2 E2] | [s2 [E2 Hsame]]]; rewrite E2 in E.
      * discriminate.
      * inversion E; subst s2. rewrite Hsame. now apply Hres.
    + intros -> _. cbn [run]. eauto.
Qed.

(** C3, as the code has it.  For a dividend [x] and a divisor [y], both
    tagged small integers in registers, with [y] inside its static range when
    one is known:
    - a zero divisor reaches the zero check and leaves for the deopt stub
      with nothing but the flags written, so before any divide;
    - [kTRUNCDIV] of the minimum small integer by minus one takes the guard;
    - when control falls through, the divisor is not zero and the result
      register holds the tagged quotient truncated towards zero
      ([kTRUNCDIV]) or the tagged non-negative remainder ([kMOD]), each
      representable;
    - without the JavaScript range flag no other input takes the guard;
    - the remainder [r] lies in [0, |y|) and with the truncated quotient [q]
      satisfies [x = y*q + r] when the truncated remainder is not negative,
      and [x = y*q + r - |y|] when it is. *)
Theorem BinarySmiOp_division :
  forall (compiler : FlowGraphCompiler) (this : BinarySmiOpInstr)
         (left right result : Register)
         (tmps : list Location) (live : RegisterSet)
         (x y : Z) (s : State),
    op_kind this = kTRUNCDIV \/ op_kind this = kMOD ->
    CanDeoptimize this = true ->
    is_truncating this = false ->
    bs_locs this =
      mkLocationSummary [RegisterLocation left; RegisterLocation right] tmps
        (RegisterLocation result) live ->
    (FLAG_throw_on_javascript_int_overflow compiler = true -> range this <> None) ->
    IsSmiValue x -> IsSmiValue y ->
    holds_smi s (RegisterLocation left) x ->
    holds_smi s (RegisterLocation right) y ->
    range_admits (right_range this) y ->
    is_allocatable result = true ->
    output_distinct result [RegisterLocation left; RegisterLocation right] ->
    exists code : Code,
      BinarySmiOpInstr_EmitNativeCode compiler this = Some code /\
      (y = 0 ->
       exists f : Flags,
         run code None s =
         Jump (DeoptStub (deopt_id this) kDeoptBinarySmiOp) (with_flags f s)) /\
      (op_kind this = kTRUNCDIV -> x = kSmiMin -> y = -1 ->
       exists s', run code None s = Jump (DeoptStub (deopt_id this) kDeoptBinarySmiOp) s') /\
      (forall s', run code None s = Fallthrough s' ->
         y <> 0 /\
         IsSmiValue (division_result (op_kind this) x y) /\
         get_reg s' result = RawValue (division_result (op_kind this) x y)) /\
      (FLAG_throw_on_javascript_int_overflow compiler = false ->
       y <> 0 -> (op_kind this = kTRUNCDIV -> ~ (x = kSmiMin /\ y = -1)) ->
       exists s', run code None s = Fallthrough s') /\
      (y <> 0 ->
       0 <= division_result kMOD x y < Z.abs y /\
       x = y * division_result kTRUNCDIV x y + division_result kMOD x y
           - (if Z.rem x y <? 0 then Z.abs y else 0)).
Proof.
  intros compiler this left right result tmps live x y s
         Hop Hdeopt Htrunc Hlocs Hflag Hx Hy [Hal Hl] [Har Hr] Hrange Hares Hdist.
  set (deopt := DeoptStub (deopt_id this) kDeoptBinarySmiOp).
  destruct (javascript_overflow_check_run compiler (range this) deopt result Hflag)
    as (js & Ejs & Hnil & Hbind & Hjs).
  assert (Hlr : left <> result) by (apply Hdist; cbn; auto).
  assert (Hrr : right <> result) by (apply Hdist; cbn; auto).
  reg_facts.
  (* the zero check *)
  set (zero_check := match right_range this with
                     | None => true
                     | Some r => Overlaps r 0 0
                     end).
  assert (Hzc : y = 0 -> zero_check = true).
  { intros ->. unfold zero_check. destruct (right_range this); [exact Hrange | reflexivity]. }
  set (check := if zero_check
                then [CompareRegisters right ZR; b_cond deopt EQ] else []).
  assert (Hcheck : forall rest : Code,
            binds rest deopt = false ->
            exists f : Flags,
              run (check ++ rest) None s =
              if y =? 0 then Jump deopt (with_flags f s)
              else run rest None (with_flags f s)).
  { intros rest Hb. unfold check. destruct zero_check.
    - eexists. cbn [app]. machine. rewrite Hr, smi_zero_EQ by assumption.
      destruct (y =? 0); [now apply run_seek_unbound | reflexivity].
    - exists (flags s). rewrite <- with_flags_same. cbn [app].
      destruct (Z.eqb_spec y 0) as [E |]; [| reflexivity].
      specialize (Hzc E). discriminate. }
  (* the arithmetic proper, run after the check *)
  assert (Hbody : exists (body : Code) (bad : bool),
            BinarySmiOpInstr_EmitNativeCode compiler this
              = Some (check ++ body ++ js) /\
            binds body deopt = false /\
            (bad = true <-> op_kind this = kTRUNCDIV /\ x = kSmiMin /\ y = -1) /\
            (y <> 0 -> forall f : Flags, exists s1 : State,
               run body None (with_flags f s) =
                 (if bad then Jump deopt s1 else Fallthrough s1) /\
               (bad = false ->
                get_reg s1 result = RawValue (division_result (op_kind this) x y)))).
  { unfold BinarySmiOpInstr_EmitNativeCode.
    destruct Hop as [Ek | Ek]; rewrite Ek; cbn [Token_Kind_eqb];
      rewrite Htrunc, Hlocs, Hdeopt;
      cbn [ASSERT negb obind in_ nth_error inputs output out reg IsConstant
           b_cond_deopt];
      fold deopt; fold zero_check.
    - exists [ Asr TMP2 left kSmiTagSize; Asr TMP right kSmiTagSize;
               sdiv result TMP2 TMP; CompareImmediate result 4611686018427387904;
               b_cond deopt EQ; SmiTag result ],
             ((x =? kSmiMin) && (y =? -1)).
      split.
      { unfold check. destruct zero_check; cbn [obind]; rewrite Ejs; cbn [obind];
          now rewrite <- app_assoc. }
      split; [reflexivity |]. split.
      { rewrite andb_true_iff, !Z.eqb_eq. tauto. }
      intros Hnz f.
      destruct (truncdiv_body result left right deopt x y (with_flags f s))
        as (s1 & E1 & R1); try assumption; try reflexivity.
      exists s1. split; [exact E1 | exact R1].
    - exists [ Asr TMP2 left kSmiTagSize; Asr TMP right kSmiTagSize;
               sdiv result TMP2 TMP; Asr TMP right kSmiTagSize;
               msub result TMP result TMP2; SmiTag result;
               CompareRegisters result ZR; b_cond (LocalLabel done) GE;
               CompareRegisters right ZR; sub TMP result (Reg right);
               add result result (Reg right); csel result TMP result LT;
               Bind (LocalLabel done) ],
             false.
      split.
      { unfold check. destruct zero_check; cbn [obind]; rewrite Ejs; cbn [obind];
          now rewrite <- app_assoc. }
      split; [reflexivity |]. split.
      { split; [discriminate |]. intros [E _]. congruence. }
      intros Hnz f.
      destruct (mod_body result left right x y (with_flags f s))
        as (s1 & E1 & R1); try assumption; try reflexivity.
      exists s1. split; [exact E1 |]. intros _. exact R1. }
  destruct Hbody as (body & bad & Ecode & Hbb & Hbad & Hrun).
  assert (Hbrest : binds (body ++ js) deopt = false)
    by (rewrite binds_app, Hbb, Hbind; reflexivity).
  destruct (Hcheck (body ++ js) Hbrest) as (f & Echeck).
  exists (check ++ body ++ js). split; [exact Ecode |].
  rewrite Echeck. split.
  { intros ->. exists f. reflexivity. }
  destruct (Z.eqb_spec y 0) as [E0 | Hnz].
  { split; [intros _ _ E; exfalso; lia |].
    split; [intros s' E; discriminate E |].
    split; [intros _ Hn; contradiction |]. intros Hn. contradiction. }
  destruct (Hrun Hnz f) as (s1 & E1 & R1).
  destruct (guard_then_check body js deopt result
              (RawValue (division_result (op_kind this) x y)) bad
              (with_flags f s) s1 E1 R1 Hbind Hjs) as (G1 & G2 & G3).
  split.
  { intros Ek Ex Ey. apply G1. apply Hbad. auto. }
  split.
  { intros s' E. destruct (G2 s' E) as [Eb Eres].
    split; [exact Hnz |]. split; [| exact Eres].
    destruct Hop as [Ek | Ek]; rewrite Ek; cbn [division_result].
    - apply quot_is_smi; try assumption. intros Hn.
      assert (bad = true) by (apply Hbad; tauto). congruence.
    - destruct (normalized_remainder_spec x y Hnz) as [Hb _].
      unfold IsSmiValue, kSmiMin, kSmiMax in *. lia. }
  split.
  { intros Hoff _ Hn. apply G3; [now apply Hnil |].
    destruct bad; [| reflexivity].
    destruct (proj1 Hbad eq_refl) as (Ek & Ex & Ey). elim (Hn Ek). auto. }
  intros _. cbn [division_result]. now apply normalized_remainder_spec.
Qed.

End Division.

Section DoubleComparison.

Local Arguments get_reg : simpl never.
Local Arguments set_reg : simpl never.
Local Arguments fcmp_flags : simpl never.

(** ** Comparisons of doubles *)

Lemma EmitBranchOnCondition_run (c : Condition) (labels : BranchLabels) :
  In c handled_conditions ->
  exists branch : Code,
    EmitBranchOnCondition c labels = Some branch /\
    (forall l : Label, binds branch l = false) /\
    forall s : State,
      transfers_to labels (run branch None s)
        (if ConditionHolds c (flags s) then true_label labels
         else false_label labels) s.
Proof.
  intros Hc. unfold EmitBranchOnCondition.
  destruct (Label_eqb (fall_through labels) (false_label labels)) eqn:Eff.
  - apply Label_eqb_eq in Eff.
    eexists; split; [reflexivity |]. split; [reflexivity |].
    intros s. unfold transfers_to. cbn [run step].
    destruct (ConditionHolds c (flags s)); cbn [run]; auto.
  - destruct (NegateCondition_handled c Hc) as [nc Enc]. rewrite Enc. cbn [obind].
    eexists; split; [reflexivity |]. split.
    + intros l.
      destruct (negb (Label_eqb (fall_through labels) (true_label labels)));
        reflexivity.
    + intros s. unfold transfers_to.
      destruct (Label_eqb (fall_through labels) (true_label labels)) eqn:Eft;
        cbn [negb run step];
        rewrite (NegateCondition_holds c nc (flags s) Enc);
        destruct (ConditionHolds c (flags s)); cbn [negb run step binds_label]; auto.
      apply Label_eqb_eq in Eft. auto.
Qed.

Lemma fcmp_flags_unordered (x y : Z) :
  double_is_nan x || double_is_nan y = true ->
  fcmp_flags x y = mkFlags false false true true.
Proof. intros H. unfold fcmp_flags. now rewrite H. Qed.

Lemma double_condition_handled (k : Token_Kind) (c : Condition) :
  TokenKindToDoubleCondition k = Some c -> In c handled_conditions.
Proof.
  destruct k; cbn; intros H; inversion H; subst; cbn; tauto.
Qed.

Lemma double_condition_NE (k : Token_Kind) (c : Condition) :
  TokenKindToDoubleCondition k = Some c ->
  Condition_eqb c NE = Token_Kind_eqb k kNE.
Proof. destruct k; cbn; intros H; inversion H; subst; reflexivity. Qed.

(** The materializing tail: from label [is_true] the result is [true], from
    [is_false] it is [false]. *)
Lemma materialize_from (result : Register) (value : bool) (s : State) :
  Nat.eqb result ZR = false ->
  exists s' : State,
    run (materialize_bool result)
        (Some (LocalLabel (if value then is_true else is_false))) s = Fallthrough s' /\
    get_reg s' result = object_word s (if value then Bool_True else Bool_False).
Proof.
  intros Hzr. unfold materialize_bool.
  destruct value; cbn [run binds_label Label_eqb LocalName_eqb step];
    eexists; (split; [reflexivity |]); now rewrite get_set_reg_eq.
Qed.

(** A comparison of doubles with an unordered outcome, through the shared
    materializing and branching code. *)
Lemma unordered_materialize (this : ComparisonInstr) (left right : VRegister)
    (result : Register) (tmps : list Location) (live : RegisterSet) (s : State)
    (c : Condition) :
  locs this =
    mkLocationSummary [FpuRegisterLocation left; FpuRegisterLocation right] tmps
      (RegisterLocation result) live ->
  is_allocatable result = true ->
  TokenKindToDoubleCondition (kind this) = Some c ->
  double_is_nan (get_dreg s left) || double_is_nan (get_dreg s right) = true ->
  let labels := mkBranchLabels (LocalLabel is_true) (LocalLabel is_false)
                  (LocalLabel is_false) in
  exists (branch : Code) (s' : State),
    EmitBranchOnCondition c labels = Some branch /\
    run ([fcmpd left right]
         ++ nan_branch kDoubleCid c (LocalLabel is_false)
         ++ branch ++ materialize_bool result) None s = Fallthrough s' /\
    get_reg s' result =
      object_word s (if Token_Kind_eqb (kind this) kNE then Bool_True else Bool_False).
Proof.
  intros Hlocs Hal Hc Hnan labels. reg_facts.
  unfold nan_branch. cbn [ClassId_eqb]. 
  rewrite (double_condition_NE _ _ Hc).
  exists [b_cond (LocalLabel is_true) c].
  destruct (materialize_from result (Token_Kind_eqb (kind this) kNE)
              (with_flags (mkFlags false false true true) s) Hzr) as (s' & E & R).
  exists s'. split; [reflexivity |]. split; [| exact R].
  rewrite <- E.
  destruct (kind this); cbn in Hc; inversion Hc; subst c;
    cbn [Token_Kind_eqb ClassId_eq_dec andb negb app run step];
    rewrite (fcmp_flags_unordered _ _ Hnan); reflexivity.
Qed.

Lemma unordered_branch (left right : VRegister) (k : Token_Kind) (c : Condition)
    (labels : BranchLabels) (s : State) :
  TokenKindToDoubleCondition k = Some c ->
  double_is_nan (get_dreg s left) || double_is_nan (get_dreg s right) = true ->
  exists (branch : Code) (s' : State),
    EmitBranchOnCondition c labels = Some branch /\
    transfers_to labels
      (run ([fcmpd left right] ++ nan_branch kDoubleCid c (false_label labels) ++ branch)
           None s)
      (if Token_Kind_eqb k kNE then true_label labels else false_label labels) s'.
Proof.
  intros Hc Hnan.
  destruct (EmitBranchOnCondition_run c labels (double_condition_handled k c Hc))
    as (branch & Eb & Hbind & Hrun).
  exists branch, (with_flags (mkFlags false false true true) s).
  split; [exact Eb |].
  unfold nan_branch. rewrite (double_condition_NE _ _ Hc).
  cbn [app run step]. rewrite (fcmp_flags_unordered _ _ Hnan).
  destruct (Token_Kind_eqb k kNE) eqn:Ek.
  - cbn [ClassId_eqb ClassId_eq_dec andb negb app].
    specialize (Hrun (with_flags (mkFlags false false true true) s)).
    destruct k; try discriminate Ek. cbn in Hc. inversion Hc; subst c.
    exact Hrun.
  - cbn [ClassId_eqb ClassId_eq_dec andb negb app run step ConditionHolds flag_v
         flags with_flags].
    left. apply run_seek_unbound. apply Hbind.
Qed.

(** C4.  A comparison of two doubles of which one is NaN is false for every
    operator but not-equal, and true for not-equal, in the materialized
    boolean and in the branch taken, for [RelationalOpInstr] and (with
    [==] and [!=], the operators it admits) for [EqualityCompareInstr].  For
    every operator but not-equal the emitted code is the compare, then a
    branch to the false label on the unordered condition [VS], then the
    code of the general branch protocol. *)
Theorem double_comparison_unordered :
  forall (this : ComparisonInstr) (left right : VRegister) (result : Register)
         (tmps : list Location) (live : RegisterSet)
         (labels : BranchLabels) (c : Condition) (s : State),
    operation_cid this = kDoubleCid ->
    locs this =
      mkLocationSummary [FpuRegisterLocation left; FpuRegisterLocation right] tmps
        (RegisterLocation result) live ->
    is_allocatable result = true ->
    TokenKindToDoubleCondition (kind this) = Some c ->
    double_is_nan (get_dreg s left) || double_is_nan (get_dreg s right) = true ->
    let ne := Token_Kind_eqb (kind this) kNE in
    let local := mkBranchLabels (LocalLabel is_true) (LocalLabel is_false)
                   (LocalLabel is_false) in
    (* RelationalOpInstr, materialized *)
    (exists (code : Code) (s' : State),
       RelationalOpInstr_EmitNativeCode this = Some code /\
       run code None s = Fallthrough s' /\
       get_reg s' result = object_word s (if ne then Bool_True else Bool_False)) /\
    (* RelationalOpInstr, as a branch *)
    (exists (code : Code) (s' : State),
       RelationalOpInstr_EmitBranchCode this labels = Some code /\
       transfers_to labels (run code None s)
         (if ne then true_label labels else false_label labels) s') /\
    (* EqualityCompareInstr *)
    (kind this = kEQ \/ kind this = kNE ->
     (exists (code : Code) (s' : State),
        EqualityCompareInstr_EmitNativeCode this = Some code /\
        run code None s = Fallthrough s' /\
        get_reg s' result = object_word s (if ne then Bool_True else Bool_False)) /\
     (exists (code : Code) (s' : State),
        EqualityCompareInstr_EmitBranchCode this labels = Some code /\
        transfers_to labels (run code None s)
          (if ne then true_label labels else false_label labels) s')) /\
    (* the extra branch on the unordered flag *)
    (ne = false ->
     exists branch local_branch : Code,
       EmitBranchOnCondition c labels = Some branch /\
       EmitBranchOnCondition c local = Some local_branch /\
       RelationalOpInstr_EmitBranchCode this labels =
         Some ([fcmpd left right; b_cond (false_label labels) VS] ++ branch) /\
       RelationalOpInstr_EmitNativeCode this =
         Some ([fcmpd left right; b_cond (LocalLabel is_false) VS]
               ++ local_branch ++ materialize_bool result) /\
       (kind this = kEQ ->
        EqualityCompareInstr_EmitBranchCode this labels =
          Some ([fcmpd left right; b_cond (false_label labels) VS] ++ branch) /\
        EqualityCompareInstr_EmitNativeCode this =
          Some ([fcmpd left right; b_cond (LocalLabel is_false) VS]
                ++ local_branch ++ materialize_bool result))).
Proof.
  intros this left right result tmps live labels c s Hcid Hlocs Hal Hc Hnan ne local.
  destruct (unordered_materialize this left right result tmps live s c
              Hlocs Hal Hc Hnan) as (lb & s1 & Elb & Erun1 & Eres1).
  destruct (unordered_branch left right (kind this) c labels s Hc Hnan)
    as (br & s2 & Ebr & Etr).
  fold local in Elb.
  assert (Ecmp : forall l : BranchLabels,
            RelationalOpInstr_EmitComparisonCode this l = Some ([fcmpd left right], c)).
  { intros l. unfold RelationalOpInstr_EmitComparisonCode, EmitDoubleComparisonOp.
    rewrite Hcid, Hlocs. cbn. now rewrite Hc. }
  assert (Ecmp' : forall l : BranchLabels,
            EqualityCompareInstr_EmitComparisonCode this l = Some ([fcmpd left right], c)).
  { intros l. unfold EqualityCompareInstr_EmitComparisonCode, EmitDoubleComparisonOp.
    rewrite Hcid, Hlocs. cbn. now rewrite Hc. }
  assert (Rn : RelationalOpInstr_EmitNativeCode this =
               Some ([fcmpd left right] ++ nan_branch kDoubleCid c (LocalLabel is_false)
                     ++ lb ++ materialize_bool result)).
  { unfold RelationalOpInstr_EmitNativeCode. rewrite Ecmp. cbn [obind].
    fold local. rewrite Elb, Hcid, Hlocs. reflexivity. }
  assert (Rb : RelationalOpInstr_EmitBranchCode this labels =
               Some ([fcmpd left right] ++ nan_branch kDoubleCid c (false_label labels)
                     ++ br)).
  { unfold RelationalOpInstr_EmitBranchCode. rewrite Ecmp. cbn [obind].
    rewrite Ebr, Hcid. reflexivity. }
  assert (Eq : kind this = kEQ \/ kind this = kNE ->
               EqualityCompareInstr_EmitNativeCode this = RelationalOpInstr_EmitNativeCode this /\
               EqualityCompareInstr_EmitBranchCode this labels =
                 RelationalOpInstr_EmitBranchCode this labels).
  { intros Hk. rewrite Rn, Rb.
    unfold EqualityCompareInstr_EmitNativeCode, EqualityCompareInstr_EmitBranchCode.
    rewrite !Ecmp'. fold local.
    destruct Hk as [Hk | Hk]; rewrite Hk; cbn [Token_Kind_eqb orb ASSERT obind];
      rewrite Elb, Ebr, Hcid, Hlocs; split; reflexivity. }
  split; [rewrite Rn; eexists; exists s1; auto |].
  split; [rewrite Rb; eexists; exists s2; auto |].
  split.
  { intros Hk. destruct (Eq Hk) as [E1 E2]. rewrite E1, E2, Rn, Rb.
    split; [eexists; exists s1; auto | eexists; exists s2; auto]. }
  intros Hne. exists br, lb. split; [exact Ebr |]. split; [exact Elb |].
  assert (Hnb : forall l, nan_branch kDoubleCid c l = [b_cond l VS]).
  { intros l. unfold nan_branch. rewrite (double_condition_NE _ _ Hc).
    fold ne. rewrite Hne. reflexivity. }
  rewrite Rb, Rn, !Hnb. split; [reflexivity |]. split; [reflexivity |].
  intros Hk. destruct (Eq (or_introl Hk)) as [E1 E2].
  rewrite E1, E2, Rn, Rb, !Hnb. split; reflexivity.
Qed.

End DoubleComparison.

Section ClampedStore.

Local Arguments wrap : simpl never.
Local Arguments signed : simpl never.
Local Arguments RawValue : simpl never.
Local Arguments shift64 : simpl never.
Local Arguments sub_flags : simpl never.
Local Arguments get_reg : simpl never.
Local Arguments set_reg : simpl never.
Local Arguments Z.pow : simpl never.
Local Arguments Z.mul : simpl never.
Local Arguments Z.add : simpl never.
Local Arguments Z.sub : simpl never.
Local Arguments Z.modulo : simpl never.
Local Arguments Z.div : simpl never.

(** ** Stores of clamped bytes *)

Lemma wrap_mod_256 (z : Z) : wrap z mod 256 = z mod 256.
Proof.
  unfold wrap. apply Z.mod_mod_divide. exists (2 ^ 56). reflexivity.
Qed.

Lemma static_cast_int8_byte (c : Z) :
  0 <= c <= 255 -> wrap (static_cast_int8 c) mod 256 = c.
Proof.
  intros Hc. rewrite wrap_mod_256. unfold static_cast_int8.
  rewrite (Z.mod_small c 256) by lia.
  destruct (c <? 128).
  - apply Z.mod_small. lia.
  - replace (c - 256) with (c + (-1) * 256) by ring.
    rewrite Z.mod_add by lia. apply Z.mod_small. lia.
Qed.

Lemma clamp_uint8_range (v : Z) : 0 <= clamp_uint8 v <= 255.
Proof. unfold clamp_uint8. lia. Qed.

Lemma store_one_byte (m : Z -> Z) (a v : Z) :
  store_bytes 1 m a v a = v mod 256 /\
  forall a' : Z, a' <> a -> store_bytes 1 m a v a' = m a'.
Proof.
  cbn [store_bytes]. unfold store_byte. split.
  - now rewrite Z.eqb_refl.
  - intros a' H. destruct (Z.eqb_spec a' a); [contradiction | reflexivity].
Qed.

Lemma clamp_LS (v : Z) :
  IsSmiValue v ->
  ConditionHolds LS (snd (sub_flags (wrap v) 255)) = ((0 <=? v) && (v <=? 255)).
Proof.
  unfold IsSmiValue, kSmiMin, kSmiMax. intros Hv. rewrite sub_flags_LS.
  abstract_words. case_tests; cbn [andb]; first [reflexivity | lia].
Qed.

Lemma clamp_LE (v : Z) :
  IsSmiValue v ->
  ConditionHolds LE (snd (sub_flags (wrap v) 255)) = (v <=? 255).
Proof.
  unfold IsSmiValue, kSmiMin, kSmiMax. intros Hv. rewrite sub_flags_LE.
  rewrite signed_wrap, !signed_small by lia. reflexivity.
Qed.

Lemma clamp_GT (v : Z) :
  IsSmiValue v ->
  ConditionHolds GT (snd (sub_flags (wrap v) 255)) = (255 <? v).
Proof.
  unfold IsSmiValue, kSmiMin, kSmiMax. intros Hv. rewrite sub_flags_GT.
  rewrite signed_wrap, !signed_small by lia. reflexivity.
Qed.

Lemma element_address_wrap (a i o : Z) :
  wrap (a + wrap (wrap i + o)) = wrap (a + i + o).
Proof. words. Qed.

Lemma element_address_wrap0 (a i : Z) : wrap (a + wrap i) = wrap (a + i + 0).
Proof. words. Qed.

Lemma clamp_register_body (array index value : Register) (v : Z) (s : State) :
  is_allocatable array = true -> is_allocatable index = true ->
  is_allocatable value = true -> value <> array -> value <> index ->
  IsSmiValue v -> get_reg s value = RawValue v ->
  exists s' : State,
    run [ SmiUntag value; CompareImmediate value 255;
          b_cond (LocalLabel store_value) LS;
          LoadImmediate TMP 0; LoadImmediate TMP2 255;
          csel value TMP value LE; csel value TMP2 value GT;
          Bind (LocalLabel store_value);
          str value (Address_reg array index) kUnsignedByte ] None s = Fallthrough s' /\
    exists w : Z,
      w mod 256 = clamp_uint8 v /\
      mem s' = store_bytes 1 (mem s) (wrap (get_reg s array + get_reg s index)) w.
Proof.
  intros Hala Hali Halv Hva Hvi Hv Hr. reg_facts.
  machine. rewrite Hr, asr_RawValue, clamp_LS by assumption.
  unfold IsSmiValue, kSmiMin, kSmiMax, clamp_uint8 in *.
  destruct (Z.leb_spec 0 v); destruct (Z.leb_spec v 255); cbn [andb];
    machine; cbn [Label_eqb LocalName_eqb]; machine;
    rewrite ?Hr, ?asr_RawValue, ?clamp_LE, ?clamp_GT by (unfold IsSmiValue, kSmiMin, kSmiMax; lia);
    (eexists; split; [reflexivity |]); machine;
    rewrite ?Hr, ?asr_RawValue, ?clamp_LE, ?clamp_GT by (unfold IsSmiValue, kSmiMin, kSmiMax; lia).
  - exists (wrap v). split; [| reflexivity]. rewrite wrap_mod_256, Z.mod_small; lia.
  - eexists. split; [| reflexivity].
    destruct (Z.ltb_spec 255 v); [| lia]. rewrite wrap_mod_256.
    rewrite Z.min_l, Z.max_r by lia. reflexivity.
  - eexists. split; [| reflexivity].
    destruct (Z.ltb_spec 255 v); [lia |]. destruct (Z.leb_spec v 255); [| lia].
    rewrite wrap_mod_256. rewrite Z.max_l by lia. reflexivity.
  - lia.
Qed.

Lemma byte_index_prefix (compiler : FlowGraphCompiler) (cid : ClassId)
    (is_external : bool) (index : Register) (idx : Z) (rest : Code) (s : State) :
  is_allocatable index = true ->
  IsSmiValue idx -> get_reg s index = RawValue idx ->
  exists s1 : State,
    run (([SmiUntag index] ++
          (if negb is_external
           then [AddImmediate index index (DataOffsetFor compiler cid - kHeapObjectTag)]
           else [])) ++ rest) None s = run rest None s1 /\
    (forall a : Z,
       wrap (a + get_reg s1 index)
       = wrap (a + idx + element_offset compiler cid is_external)) /\
    (forall r : Register, r <> index -> get_reg s1 r = get_reg s r) /\
    mem s1 = mem s.
Proof.
  intros Hal Hidx Hi. reg_facts. unfold element_offset.
  destruct is_external; cbn [negb app]; machine; rewrite Hi, asr_RawValue by assumption;
    (eexists; split; [reflexivity |]); machine.
  - split; [intros a; words |]. split; [| reflexivity].
    intros r Hr. apply get_set_reg_neq. now apply Nat.eqb_neq.
  - split; [intros a; words |]. split; [| reflexivity].
    intros r Hr. rewrite !get_set_reg_neq by now apply Nat.eqb_neq. reflexivity.
Qed.

(** C7.  A store into an unsigned-clamped byte array (internal or external)
    writes, at the address of the element, the source value clamped to
    [0, 255] and changes no other byte.  A constant source is clamped during
    emission, the code ending in a load of the clamped immediate and a byte
    store; a register source is clamped by the emitted compare and
    conditional selects.  In particular -5, 0, 200, 255, 300 are stored as
    0, 0, 200, 255, 255. *)
Theorem StoreIndexed_clamped_byte :
  forall (compiler : FlowGraphCompiler) (this : StoreIndexedInstr)
         (array index : Register) (value_loc : Location)
         (tmps : list Location) (outl : Location) (live : RegisterSet)
         (idx v : Z) (s : State),
    is_clamped_cid (si_class_id this) = true ->
    si_index_scale this = 1 ->
    si_locs this =
      mkLocationSummary [RegisterLocation array; RegisterLocation index; value_loc]
        tmps outl live ->
    is_allocatable array = true -> is_allocatable index = true ->
    array <> index ->
    (forall r : Register, value_loc = RegisterLocation r -> r <> array /\ r <> index) ->
    IsSmiValue idx -> IsSmiValue v ->
    get_reg s index = RawValue idx ->
    holds_smi s value_loc v ->
    let ea := wrap (get_reg s array + idx
                    + element_offset compiler (si_class_id this) (si_IsExternal this)) in
    exists (code : Code) (s' : State),
      StoreIndexedInstr_EmitNativeCode compiler this = Some code /\
      run code None s = Fallthrough s' /\
      mem s' ea = clamp_uint8 v /\
      (forall a : Z, a <> ea -> mem s' a = mem s a) /\
      (IsConstant value_loc = true ->
       exists prefix : Code,
         code = prefix ++ [LoadImmediate TMP (static_cast_int8 (clamp_uint8 v));
                           str TMP (Address_reg array index) kUnsignedByte]) /\
      (IsConstant value_loc = false ->
       exists (prefix : Code) (value : Register),
         value_loc = RegisterLocation value /\
         code = prefix ++ [ SmiUntag value; CompareImmediate value 255;
                            b_cond (LocalLabel store_value) LS;
                            LoadImmediate TMP 0; LoadImmediate TMP2 255;
                            csel value TMP value LE; csel value TMP2 value GT;
                            Bind (LocalLabel store_value);
                            str value (Address_reg array index) kUnsignedByte ]) /\
      map clamp_uint8 [-5; 0; 200; 255; 300] = [0; 0; 200; 255; 255].
Proof.
  intros compiler this array index value_loc tmps outl live idx v s
         Hcid Hscale Hlocs Hara Hari Hai Hval Hidx Hv Hi Hholds ea.
  pose proof (clamp_uint8_range v) as Hclamp.
  set (prefix := [SmiUntag index] ++
                 (if negb (si_IsExternal this)
                  then [AddImmediate index index
                          (DataOffsetFor compiler (si_class_id this) - kHeapObjectTag)]
                  else [])).
  assert (Hstore : forall (body : Code) (s1 s' : State) (w : Z),
            run (prefix ++ body) None s = run body None s1 ->
            run body None s1 = Fallthrough s' ->
            w mod 256 = clamp_uint8 v ->
            mem s' = store_bytes 1 (mem s) ea w ->
            run (prefix ++ body) None s = Fallthrough s' /\
            mem s' ea = clamp_uint8 v /\
            (forall a : Z, a <> ea -> mem s' a = mem s a)).
  { intros body s1 s' w E1 E2 Hw Hm. split; [now rewrite E1 |].
    rewrite Hm. destruct (store_one_byte (mem s) ea w) as [Hb Ho].
    split; [now rewrite Hb | exact Ho]. }
  assert (Hcode : forall body : Code,
            StoreIndexedInstr_EmitNativeCode compiler this = Some (prefix ++ body) <->
            (in2 <- in_ (si_locs this) 2 ;;
             if IsConstant in2 then
               c <- constant in2 ;;
               v0 <- Smi_Value c ;;
               Some [LoadImmediate TMP
                       (static_cast_int8
                          (if v0 >? 255 then 255 else if v0 <? 0 then 0 else v0));
                     str TMP (Address_reg array index) kUnsignedByte]
             else
               value <- reg in2 ;;
               Some [ SmiUntag value; CompareImmediate value 255;
                      b_cond (LocalLabel store_value) LS;
                      LoadImmediate TMP 0; LoadImmediate TMP2 255;
                      csel value TMP value LE; csel value TMP2 value GT;
                      Bind (LocalLabel store_value);
                      str value (Address_reg array index) kUnsignedByte ])
            = Some body).
  { intros body. unfold StoreIndexedInstr_EmitNativeCode. rewrite Hlocs, Hscale.
    cbn [obind in_ nth_error inputs reg Z.eqb Pos.eqb]. fold prefix.
    destruct (si_class_id this); try discriminate Hcid;
      destruct (IsConstant value_loc);
      repeat match goal with
      | |- context [obind ?m _] => destruct m; cbn [obind]
      end;
      split; intros H; try discriminate H; inversion H;
        try (apply app_inv_head in H1; subst body); reflexivity. }
  assert (Hex : map clamp_uint8 [-5; 0; 200; 255; 300] = [0; 0; 200; 255; 255])
    by reflexivity.
  destruct value_loc as [value | | c | |]; try contradiction.
  - (* register source *)
    destruct Hholds as [Harv Hr].
    destruct (Hval value eq_refl) as [Hva Hvi].
    set (body := [ SmiUntag value; CompareImmediate value 255;
                   b_cond (LocalLabel store_value) LS;
                   LoadImmediate TMP 0; LoadImmediate TMP2 255;
                   csel value TMP value LE; csel value TMP2 value GT;
                   Bind (LocalLabel store_value);
                   str value (Address_reg array index) kUnsignedByte ]).
    destruct (byte_index_prefix compiler (si_class_id this) (si_IsExternal this)
                index idx body s Hari Hidx Hi) as (s1 & E1 & Hea & Hsame & Hmem).
    fold prefix in E1.
    destruct (clamp_register_body array index value v s1) as (s' & E2 & w & Hw & Hm);
      try assumption.
    { rewrite Hsame; assumption. }
    fold body in E2.
    rewrite Hmem, Hea in Hm. rewrite (Hsame array Hai) in Hm. fold ea in Hm.
    exists (prefix ++ body), s'.
    split; [apply Hcode; rewrite Hlocs; reflexivity |].
    destruct (Hstore body s1 s' w E1 E2 Hw Hm) as (G1 & G2 & G3).
    repeat split; try assumption.
    + discriminate.
    + intros _. exists prefix, value. split; reflexivity.
  - (* constant source *)
    destruct c as [c | | | | |]; try contradiction. cbn [holds_smi] in Hholds. subst c.
    set (body := [LoadImmediate TMP (static_cast_int8 (clamp_uint8 v));
                  str TMP (Address_reg array index) kUnsignedByte]).
    destruct (byte_index_prefix compiler (si_class_id this) (si_IsExternal this)
                index idx body s Hari Hidx Hi) as (s1 & E1 & Hea & Hsame & Hmem).
    fold prefix in E1.
    assert (Eclamp : (if v >? 255 then 255 else if v <? 0 then 0 else v) = clamp_uint8 v).
    { unfold clamp_uint8. rewrite Z.gtb_ltb.
      destruct (Z.ltb_spec 255 v); [lia |]. destruct (Z.ltb_spec v 0); lia. }
    exists (prefix ++ body), (with_mem (store_bytes 1 (mem s) ea
                                          (wrap (static_cast_int8 (clamp_uint8 v))))
                                (set_reg TMP (wrap (static_cast_int8 (clamp_uint8 v))) s1)).
    split.
    { apply Hcode. rewrite Hlocs. cbn. now rewrite Eclamp. }
    assert (Ea1 : get_reg s1 array = get_reg s array) by (apply Hsame; exact Hai).
    reg_facts.
    destruct (Hstore body s1
                (with_mem (store_bytes 1 (mem s) ea
                             (wrap (static_cast_int8 (clamp_uint8 v))))
                   (set_reg TMP (wrap (static_cast_int8 (clamp_uint8 v))) s1))
                (wrap (static_cast_int8 (clamp_uint8 v))) E1) as (G1 & G2 & G3).
    + unfold body. machine. rewrite Hmem, Hea, Ea1. reflexivity.
    + now apply static_cast_int8_byte.
    + reflexivity.
    + repeat split; try assumption.
      * intros _. exists prefix. reflexivity.
      * discriminate.
Qed.

End ClampedStore.

Section Uint32Load.

Local Arguments wrap : simpl never.
Local Arguments signed : simpl never.
Local Arguments RawValue : simpl never.
Local Arguments shift64 : simpl never.
Local Arguments get_reg : simpl never.
Local Arguments set_reg : simpl never.
Local Arguments Z.pow : simpl never.
Local Arguments Z.mul : simpl never.
Local Arguments Z.add : simpl never.
Local Arguments Z.sub : simpl never.
Local Arguments Z.modulo : simpl never.
Local Arguments Z.div : simpl never.
Local Arguments load_bytes : simpl never.

(** ** Memory *)

Lemma load_bytes_range (n : nat) :
  forall (m : Z -> Z) (a : Z), 0 <= load_bytes n m a < 256 ^ Z.of_nat n.
Proof.
  induction n as [| n IH]; intros m a.
  - change (load_bytes 0 m a) with 0. change (256 ^ Z.of_nat 0) with 1. lia.
  - change (load_bytes (S n) m a) with (m a mod 256 + 256 * load_bytes n m (a + 1)).
    rewrite Nat2Z.inj_succ, Z.pow_succ_r by lia.
    pose proof (IH m (a + 1)) as B.
    pose proof (Z.mod_pos_bound (m a) 256 ltac:(lia)) as Bm.
    nia.
Qed.

Lemma store_bytes_below (n : nat) :
  forall (m : Z -> Z) (a v a' : Z), a' < a -> store_bytes n m a v a' = m a'.
Proof.
  induction n as [| n IH]; intros m a v a' H; [reflexivity |].
  cbn [store_bytes]. rewrite IH by lia. unfold store_byte.
  destruct (Z.eqb_spec a' a); [lia | reflexivity].
Qed.

Lemma load_store_bytes (n : nat) :
  forall (m : Z -> Z) (a v : Z),
    load_bytes n (store_bytes n m a v) a = v mod 256 ^ Z.of_nat n.
Proof.
  induction n as [| n IH]; intros m a v.
  - change (256 ^ Z.of_nat 0) with 1. now rewrite Z.mod_1_r.
  - change (load_bytes (S n) (store_bytes (S n) m a v) a)
      with (store_bytes (S n) m a v a mod 256
            + 256 * load_bytes n (store_bytes (S n) m a v) (a + 1)).
    cbn [store_bytes]. rewrite IH, store_bytes_below by lia.
    unfold store_byte. rewrite Z.eqb_refl, Z.mod_mod by lia.
    rewrite Nat2Z.inj_succ, Z.pow_succ_r by lia.
    symmetry. apply Z.rem_mul_r; [lia |]. apply Z.pow_pos_nonneg; lia.
Qed.

(** ** Loads of unsigned 32-bit elements *)

Lemma smi_of_uint32 (u : Z) : 0 <= u < 2 ^ 32 -> IsSmiValue u.
Proof. unfold IsSmiValue, kSmiMin, kSmiMax. lia. Qed.

Lemma lsl_1_raw (idx : Z) : shift64 LSL (RawValue idx) 1 = wrap (idx * 4).
Proof. rewrite lsl_1. unfold RawValue. words. Qed.

(** C8, as the code has it.  The code emitted for an indexed load from an
    unsigned 32-bit typed array is the address computation, a zero-extending
    word load and the tagging shift.  It contains no compare and no branch:
    there is no range check and no deopt guard.  None is needed, for every
    32-bit element is representable as a tagged small integer on this
    64-bit target: execution falls through with the element, tagged and
    exact, in the result register. *)
Theorem LoadIndexed_uint32_no_guard :
  forall (compiler : FlowGraphCompiler) (this : LoadIndexedInstr)
         (array index result : Register)
         (tmps : list Location) (live : RegisterSet) (idx : Z) (s : State),
    li_class_id this = kTypedDataUint32ArrayCid ->
    li_index_scale this = 4 ->
    li_locs this =
      mkLocationSummary [RegisterLocation array; RegisterLocation index] tmps
        (RegisterLocation result) live ->
    is_allocatable index = true -> is_allocatable result = true ->
    IsSmiValue idx ->
    get_reg s index = RawValue idx ->
    let ea := wrap (get_reg s array + idx * 4
                    + element_offset compiler (li_class_id this) (li_IsExternal this)) in
    let element := load_bytes 4 (mem s) ea in
    exists (code : Code) (s' : State),
      LoadIndexedInstr_EmitNativeCode compiler this = Some code /\
      existsb transfers_control code = false /\
      existsb compares code = false /\
      run code None s = Fallthrough s' /\
      0 <= element < 2 ^ 32 /\
      IsSmiValue element /\
      get_reg s' result = RawValue element /\
      shift64 ASR (get_reg s' result) kSmiTagSize = element.
Proof.
  intros compiler this array index result tmps live idx s
         Hcid Hscale Hlocs Hali Halr Hidx Hi ea element.
  assert (Hrange : 0 <= element < 2 ^ 32) by apply (load_bytes_range 4).
  pose proof (smi_of_uint32 element Hrange) as Hsmi.
  reg_facts.
  unfold LoadIndexedInstr_EmitNativeCode. rewrite Hlocs, Hscale, Hcid.
  cbn [obind in_ nth_error inputs output out reg Z.eqb Pos.eqb
       LoadIndexedInstr_representation is_unboxed_representation app].
  do 2 eexists. split; [reflexivity |]. split; [reflexivity |].
  split; [reflexivity |]. split; [cbn [run step]; reflexivity |].
  split; [exact Hrange |]. split; [exact Hsmi |].
  assert (Eaddr : wrap (wrap (get_reg s array + shift64 LSL (get_reg s index) 1)
                        + (if negb (li_IsExternal this)
                           then DataOffsetFor compiler kTypedDataUint32ArrayCid
                                - kHeapObjectTag
                           else 0)) = ea).
  { unfold ea, element_offset. rewrite Hi, lsl_1_raw, Hcid.
    destruct (li_IsExternal this); cbn [negb]; words. }
  machine. rewrite Eaddr. cbn [load_sized size_bytes]. fold element.
  assert (Eres : shift64 LSL element kSmiTagSize = RawValue element).
  { unfold kSmiTagSize. rewrite lsl_1. reflexivity. }
  rewrite Eres. split; [reflexivity |].
  rewrite asr_RawValue by assumption. apply wrap_small. lia.
Qed.

End Uint32Load.

Section BoxUnbox.

Local Arguments wrap : simpl never.
Local Arguments get_reg : simpl never.
Local Arguments set_reg : simpl never.
Local Arguments Z.pow : simpl never.
Local Arguments Z.add : simpl never.
Local Arguments Z.sub : simpl never.
Local Arguments Z.modulo : simpl never.
Local Arguments load_bytes : simpl never.
Local Arguments store_bytes : simpl never.

(** ** Saving and restoring live registers *)

Lemma restore_regs_other (rs : list Register) :
  forall (vals : list Z) (s : State) (r : Register),
    ~ In r rs -> get_reg (restore_regs rs vals s) r = get_reg s r.
Proof.
  induction rs as [| r0 rs IH]; intros vals s r Hn; [reflexivity |].
  destruct vals as [| v vals]; [reflexivity |]. cbn [restore_regs].
  rewrite IH by (intros H; apply Hn; now right).
  apply get_set_reg_neq. apply Nat.eqb_neq. intros E. apply Hn. now left.
Qed.

Lemma restore_regs_frame (rs : list Register) :
  forall (vals : list Z) (s : State),
    vregs (restore_regs rs vals s) = vregs s /\
    mem (restore_regs rs vals s) = mem s /\
    stack (restore_regs rs vals s) = stack s.
Proof.
  induction rs as [| r0 rs IH]; intros vals s; [auto |].
  destruct vals as [| v vals]; [auto |]. cbn [restore_regs].
  destruct (IH vals (set_reg r0 v s)) as (E1 & E2 & E3).
  rewrite E1, E2, E3, vregs_set_reg, mem_set_reg, stack_set_reg. auto.
Qed.

Lemma restore_vregs_frame (vs : list VRegister) :
  forall (vals : list Z) (s : State) (r : Register),
    get_reg (restore_vregs vs vals s) r = get_reg s r /\
    mem (restore_vregs vs vals s) = mem s.
Proof.
  induction vs as [| v0 vs IH]; intros vals s r; [auto |].
  destruct vals as [| x vals]; [auto |]. cbn [restore_vregs].
  destruct (IH vals (set_vreg v0 x s) r) as (E1 & E2). rewrite E1, E2. auto.
Qed.

(** Restoring what was saved from [f] gives every saved register its value
    in [f] back. *)
Lemma restore_vregs_saved (vs : list VRegister) (f : VRegister -> Z) :
  forall (s : State) (v : VRegister),
    (In v vs \/ vregs s v = f v) ->
    vregs (restore_vregs vs (map f vs) s) v = f v.
Proof.
  induction vs as [| v0 vs IH]; intros s v H.
  - destruct H as [[] | H]. exact H.
  - cbn [map restore_vregs]. apply IH.
    destruct (Nat.eq_dec v v0) as [-> | Hne].
    + right. unfold set_vreg. cbn [vregs with_vregs]. unfold upd.
      now rewrite Nat.eqb_refl.
    + destruct H as [[E | H] | H]; [congruence | now left |].
      right. unfold set_vreg. cbn [vregs with_vregs]. unfold upd.
      apply Nat.eqb_neq in Hne. now rewrite Hne.
Qed.

Lemma firstn_app_exact {A : Type} (l1 l2 : list A) :
  firstn (length l1) (l1 ++ l2) = l1.
Proof.
  rewrite firstn_app, Nat.sub_diag, firstn_all. cbn. apply app_nil_r.
Qed.

Lemma skipn_app_exact {A : Type} (l1 l2 : list A) :
  skipn (length l1) (l1 ++ l2) = l2.
Proof.
  rewrite skipn_app, Nat.sub_diag, skipn_all. reflexivity.
Qed.

Lemma remove_not_in (r : Register) (rs : list Register) :
  ~ In r (filter (fun r' => negb (Nat.eqb r' r)) rs).
Proof.
  intros H. apply filter_In in H as [_ H]. now rewrite Nat.eqb_refl in H.
Qed.

(** ** Boxing and unboxing a double *)

Lemma exec_fallthrough (fuel : nat) (e : Emitted) (seek : option Label)
    (s s' : State) :
  run (main_code e) seek s = Fallthrough s' -> exec fuel e seek s = Fallthrough s'.
Proof. intros H. destruct fuel; cbn [exec]; now rewrite H. Qed.

Lemma exec_through_slow_path (fuel : nat) (e : Emitted) (seek : option Label)
    (l l2 : Label) (s s1 s2 : State) :
  run (main_code e) seek s = Jump l s1 ->
  binds (slow_code e) l = true ->
  run (slow_code e) (Some l) s1 = Jump l2 s2 ->
  binds (main_code e) l2 = true ->
  exec (S fuel) e seek s = exec fuel e (Some l2) s2.
Proof. intros H1 H2 H3 H4. cbn [exec]. now rewrite H1, H2, H3, H4. Qed.

Lemma restore_after_save (cpu : list Register) (fpu : list VRegister)
    (f : Register -> Z) (g : VRegister -> Z) (rest : list Z) (s0 : State) :
  stack s0 = map f cpu ++ map g fpu ++ rest ->
  step (RestoreLiveRegisters cpu fpu) s0 =
  Continue (with_stack rest (restore_vregs fpu (map g fpu) (restore_regs cpu (map f cpu) s0))).
Proof.
  intros E. cbn [step]. rewrite E.
  assert (Elen : Nat.leb (length cpu + length fpu)
                   (length (map f cpu ++ map g fpu ++ rest)) = true).
  { apply Nat.leb_le. rewrite !length_app, !length_map, Nat.add_assoc.
    apply Nat.le_add_r. }
  rewrite Elen.
  assert (E_cpu : firstn (length cpu) (map f cpu ++ map g fpu ++ rest) = map f cpu).
  { rewrite <- (length_map f cpu). apply firstn_app_exact. }
  assert (E_fpu : firstn (length fpu) (skipn (length cpu) (map f cpu ++ map g fpu ++ rest))
                  = map g fpu).
  { rewrite <- (length_map f cpu), skipn_app_exact.
    rewrite <- (length_map g fpu). apply firstn_app_exact. }
  assert (E_rest : skipn (length cpu + length fpu) (map f cpu ++ map g fpu ++ rest)
                   = rest).
  { rewrite <- (length_map f cpu). rewrite <- (length_map g fpu).
    rewrite <- length_app, app_assoc. apply skipn_app_exact. }
  now rewrite E_cpu, E_fpu, E_rest.
Qed.

Lemma run_cons (i : Instr) (rest : Code) (s : State) :
  run (i :: rest) None s =
  match step i s with
  | Continue s' => run rest None s'
  | Goto l s' => run rest (Some l) s'
  | Fault => Stuck
  end.
Proof. reflexivity. Qed.

(** The payload store of the box followed by the payload load of the unbox. *)
Lemma store_then_load_payload (value result : VRegister) (out_reg : Register)
    (offset bits : Z) (s0 : State) :
  0 <= bits < 2 ^ 64 -> vregs s0 value = bits ->
  exists s1 s2 : State,
    run [StoreDFieldToOffset value out_reg offset] None s0 = Fallthrough s1 /\
    run [LoadDFieldFromOffset result out_reg offset] None s1 = Fallthrough s2 /\
    get_vreg s2 result = bits.
Proof.
  intros Hbits Hv. do 2 eexists. split; [reflexivity |]. split; [reflexivity |].
  unfold get_vreg, set_vreg, store_at, field_address, get_dreg.
  cbn [vregs with_vregs mem with_mem]. unfold upd. rewrite Nat.eqb_refl.
  change (get_reg (with_mem ?m s0) out_reg) with (get_reg s0 out_reg).
  rewrite load_store_bytes, Hv.
  change (256 ^ Z.of_nat 8) with (2 ^ 64).
  rewrite !(Z.mod_small bits (2 ^ 64)) by lia. reflexivity.
Qed.

(** C5.  Boxing a double and unboxing the box, the value statically known to
    be a double, gives back the same 64 bits, whichever way the box was
    allocated: by the inline bump allocation, or, when that fails, by the
    slow path calling the allocation stub.  The bit pattern is arbitrary:
    zeros of both signs, NaNs with any payload, the extreme finite
    magnitudes. *)
Theorem BoxDouble_UnboxDouble_roundtrip :
  forall (compiler : FlowGraphCompiler) (box_locs : LocationSummary)
         (unbox : UnboxDoubleInstr)
         (value result : VRegister) (out_reg temp0 : Register)
         (live : RegisterSet) (bits : Z) (s : State),
    box_locs =
      mkLocationSummary [FpuRegisterLocation value] [RegisterLocation temp0]
        (RegisterLocation out_reg) live ->
    ud_value_cid unbox = kDoubleCid ->
    ud_locs unbox =
      mkLocationSummary [RegisterLocation out_reg] [] (FpuRegisterLocation result)
        live ->
    is_allocatable out_reg = true ->
    In value (fpu_registers live) ->
    (heap_end s <= heap_top s + instance_size (double_class compiler) ->
     calls s <> []) ->
    0 <= bits < 2 ^ 64 ->
    get_vreg s value = bits ->
    exists (box : Emitted) (unbox_code : Code) (s1 s2 : State),
      BoxDoubleInstr_EmitNativeCode compiler box_locs = Some box /\
      UnboxDoubleInstr_EmitNativeCode compiler unbox = Some unbox_code /\
      (forall fuel : nat, exec (S fuel) box None s = Fallthrough s1) /\
      run unbox_code None s1 = Fallthrough s2 /\
      get_vreg s2 result = bits /\
      get_dreg s2 result = bits.
Proof.
  intros compiler box_locs unbox value result out_reg temp0 live bits s
         Hlocs Hcid Hulocs Hal Hlive Hslow Hbits Hv.
  subst box_locs. reg_facts.
  unfold BoxDoubleInstr_EmitNativeCode, BoxDoubleSlowPath_EmitNativeCode,
    UnboxDoubleInstr_EmitNativeCode.
  rewrite Hcid, Hulocs.
  cbn [obind in_ temp_ nth_error inputs temps output out reg fpu_reg live_registers
       RegisterSet_Remove cpu_registers fpu_registers ClassId_eqb ClassId_eq_dec].
  set (cpu := filter (fun r' => negb (Nat.eqb r' out_reg)) (cpu_registers live)).
  set (off := Double_value_offset compiler).
  assert (Htail : forall s0 : State,
            vregs s0 value = bits ->
            exists s1 s2 : State,
              run [StoreDFieldToOffset value out_reg off] None s0 = Fallthrough s1 /\
              run [LoadDFieldFromOffset result out_reg off] None s1 = Fallthrough s2 /\
              get_vreg s2 result = bits /\ get_dreg s2 result = bits).
  { intros s0 Hs0.
    destruct (store_then_load_payload value result out_reg off bits s0 Hbits Hs0)
      as (s1 & s2 & E1 & E2 & E3).
    exists s1, s2. repeat split; try assumption.
    unfold get_dreg. unfold get_vreg in E3. rewrite E3. apply Z.mod_small. lia. }
  destruct (Z.leb_spec (heap_end s) (heap_top s + instance_size (double_class compiler)))
    as [Hfull | Hroom].
  - (* exhausted: the slow path *)
    destruct (calls s) as [| e rest] eqn:Ecalls; [now elim (Hslow Hfull) |].
    set (s_call := mkState (call_regs e) (call_vregs e) (call_flags e) (call_mem e)
                     (map (get_reg s) cpu ++ map (get_vreg s) (fpu_registers live)
                      ++ stack s)
                     (pool s) (tags_of s) (call_heap_top e) (call_heap_end e)
                     (call_store_buffer e) rest).
    set (s_mov := set_reg out_reg (get_reg s_call R0) s_call).
    set (s_cpu := restore_regs cpu (map (get_reg s) cpu) s_mov).
    set (s_res := with_stack (stack s)
                    (restore_vregs (fpu_registers live)
                       (map (get_vreg s) (fpu_registers live)) s_cpu)).
    assert (Hval : vregs s_res value = bits).
    { unfold s_res. cbn [vregs with_stack].
      rewrite <- Hv. unfold get_vreg at 2.
      apply (restore_vregs_saved (fpu_registers live) (fun v => get_vreg s v)).
      now left. }
    destruct (Htail s_res Hval) as (s1 & s2 & E1 & E2 & E3 & E4).
    do 2 eexists. exists s1, s2. split; [reflexivity |]. split; [reflexivity |].
    split; [| auto].
    intros fuel. apply Z.leb_le in Hfull.
    rewrite (exec_through_slow_path fuel _ None (SlowPathEntry 0) (SlowPathExit 0)
               s s s_res).
    + apply exec_fallthrough. cbn [main_code run binds_label Label_eqb Nat.eqb].
      exact E1.
    + cbn [main_code run step]. now rewrite Hfull.
    + reflexivity.
    + cbn [slow_code].
      change (run (Bind (SlowPathEntry 0) :: ?c) (Some (SlowPathEntry 0)) s)
        with (run c None s).
      rewrite run_cons. cbn [step].
      rewrite run_cons. cbn [step calls with_stack]. rewrite Ecalls.
      cbn [stack pool tags_of with_stack]. fold s_call.
      rewrite run_cons. cbn [step]. fold s_mov.
      rewrite run_cons.
      rewrite (restore_after_save cpu (fpu_registers live) (get_reg s) (get_vreg s)
                 (stack s) s_mov).
      * fold s_cpu. fold s_res. reflexivity.
      * unfold s_mov. rewrite stack_set_reg. reflexivity.
    + reflexivity.
  - (* room: the inline allocation *)
    set (s_alloc := set_reg out_reg (wrap (heap_top s + kHeapObjectTag))
                      (store_at 8 (heap_top s) (tags_of s (double_class compiler))
                         (with_heap_top
                            (heap_top s + instance_size (double_class compiler)) s))).
    assert (Hval : vregs s_alloc value = bits).
    { unfold s_alloc. rewrite vregs_set_reg. exact Hv. }
    destruct (Htail s_alloc Hval) as (s1 & s2 & E1 & E2 & E3 & E4).
    do 2 eexists. exists s1, s2. split; [reflexivity |]. split; [reflexivity |].
    split; [| auto].
    intros fuel. apply exec_fallthrough. cbn [main_code run step].
    apply Z.leb_gt in Hroom. rewrite Hroom. fold s_alloc. cbn [run step].
    exact E1.
Qed.

End BoxUnbox.

Section WriteBarrier.

Local Arguments Z.sub : simpl never.
Local Arguments Z.shiftl : simpl never.

(** ** Write barriers *)

(** Case analysis on every test and every partial step of an emitter whose
    result is known. *)
Ltac emitter_cases :=
  repeat match goal with
  | H : obind ?m _ = Some _ |- _ =>
      let E := fresh "E" in destruct m eqn:E; cbn [obind] in H; [| discriminate H]
  | H : (if ?c then _ else _) = Some _ |- _ =>
      let E := fresh "E" in destruct c eqn:E
  | H : match ?p with (_, _) => _ end = Some _ |- _ => destruct p
  | H : match ?c with _ => _ end = Some _ |- _ =>
      let E := fresh "E" in destruct c eqn:E; try discriminate H
  | H : None = Some _ |- _ => discriminate H
  | H : Some _ = Some _ |- _ => inversion H; subst; clear H
  | H : ASSERT _ = Some _ |- _ => clear H
  end.

Ltac forall_instrs :=
  repeat first
    [ apply Forall_nil
    | apply Forall_cons; [repeat split; reflexivity |]
    | apply Forall_app; split
    | match goal with
      | |- Forall _ (if ?c then _ else _) => destruct c
      end ].

Ltac operand_of :=
  repeat match goal with
  | E : reg ?l = Some _ |- _ =>
      is_var l; destruct l; try discriminate E; inversion E; subst; clear E
  | E : fpu_reg ?l = Some _ |- _ =>
      is_var l; destruct l; try discriminate E; inversion E; subst; clear E
  | E : constant ?l = Some _ |- _ =>
      is_var l; destruct l; try discriminate E; inversion E; subst; clear E
  end.

Lemma StoreIndexed_array_store (compiler : FlowGraphCompiler)
    (this : StoreIndexedInstr) (code : Code) :
  si_class_id this = kArrayCid ->
  StoreIndexedInstr_EmitNativeCode compiler this = Some code ->
  exists (prefix : Code) (store : Instr),
    code = prefix ++ [store] /\
    Forall (fun i => is_barrier_store i = false /\ is_no_barrier_store i = false) prefix /\
    is_barrier_store store = si_ShouldEmitStoreBarrier this /\
    is_no_barrier_store store = negb (si_ShouldEmitStoreBarrier this) /\
    object_store_source store = in_ (si_locs this) 2.
Proof.
  intros Hcid H. unfold StoreIndexedInstr_EmitNativeCode in H. rewrite Hcid in H.
  emitter_cases;
    (eexists; eexists; split; [reflexivity |]);
    (split; [forall_instrs |]);
    cbn [is_barrier_store is_no_barrier_store object_store_source negb];
    repeat split; try reflexivity;
    operand_of; reflexivity.
Qed.

Lemma StoreInstanceFieldSlowPath_no_store (n : nat) (locs : LocationSummary)
    (cls : Class) (code : Code) :
  StoreInstanceFieldSlowPath_EmitNativeCode n locs cls = Some code ->
  Forall (fun i => is_barrier_store i = false /\ is_no_barrier_store i = false) code.
Proof.
  intros H. unfold StoreInstanceFieldSlowPath_EmitNativeCode in H.
  emitter_cases. forall_instrs.
Qed.

Lemma StoreInstanceField_stores (compiler : FlowGraphCompiler)
    (this : StoreInstanceFieldInstr) (e : Emitted) :
  StoreInstanceFieldInstr_EmitNativeCode compiler this = Some e ->
  Forall (fun i => is_barrier_store i = false /\ is_no_barrier_store i = false)
    (slow_code e) /\
  (sf_IsUnboxedStore this && is_optimizing compiler = true ->
   Forall (fun i => is_no_barrier_store i = false) (main_code e)) /\
  (sf_IsUnboxedStore this && is_optimizing compiler = false ->
   exists (prefix : Code) (store : Instr),
     main_code e = prefix ++ [store; Bind (LocalLabel skip_store)] /\
     Forall (fun i => is_no_barrier_store i = false) prefix /\
     is_barrier_store store = sf_ShouldEmitStoreBarrier this /\
     is_no_barrier_store store = negb (sf_ShouldEmitStoreBarrier this) /\
     object_store_source store = in_ (sf_locs this) 1).
Proof.
  intros H. unfold StoreInstanceFieldInstr_EmitNativeCode in H.
  destruct (in_ (sf_locs this) 0) as [l0 |] eqn:E0; cbn [obind] in H; [| discriminate H].
  destruct (reg l0) as [instance_reg |] eqn:Er0; cbn [obind] in H; [| discriminate H].
  destruct (in_ (sf_locs this) 1) as [l1 |] eqn:E1; cbn [obind] in H; [| discriminate H].
  destruct (sf_IsUnboxedStore this && is_optimizing compiler) eqn:Eu.
  - (* unboxed store in optimized code *)
    emitter_cases; cbn [main_code slow_code];
      (split; [first [ eapply StoreInstanceFieldSlowPath_no_store; eassumption
                     | forall_instrs ] |]);
      (split; [intros _; unfold allocate_box; forall_instrs | discriminate]).
  - (* tagged store, possibly preceded by the unboxing paths *)
    emitter_cases; cbn [main_code slow_code].
    all: split;
      [ repeat first
          [ apply Forall_nil
          | apply Forall_app; split
          | eapply StoreInstanceFieldSlowPath_no_store; eassumption ] |].
    all: split; [discriminate |]; intros _.
    all: eexists; eexists; (split; [reflexivity |]).
    all: split; [unfold allocate_box; forall_instrs |].
    all: cbn [is_barrier_store is_no_barrier_store object_store_source negb];
      repeat split; try reflexivity; operand_of;
      first [ reflexivity
            | match goal with
              | E : constant (RegisterLocation _) = Some _ |- _ => discriminate E
              | E : IsConstant (RegisterLocation _) = true |- _ => discriminate E
              end ].
Qed.

(** C6.  Which store of an object reference is emitted is settled during
    emission by [ShouldEmitStoreBarrier] alone.  For a store into a tagged
    array the code is the address computation followed by one store of the
    value operand; for a store into an instance field that is not an
    unboxed store in optimized code, the main-line code ends in one store of
    the value operand.  That store is the barrier variant exactly when
    [ShouldEmitStoreBarrier] holds and the no-barrier variant exactly when
    it does not.  No other no-barrier store is emitted, in the main line or
    in a slow path: the stores that install a fresh box are barrier stores,
    and the unboxed store of optimized code emits no no-barrier store at
    all. *)
Theorem store_barrier_chosen_at_compile_time :
  forall compiler : FlowGraphCompiler,
    (forall (this : StoreIndexedInstr) (code : Code),
       si_class_id this = kArrayCid ->
       StoreIndexedInstr_EmitNativeCode compiler this = Some code ->
       exists (prefix : Code) (store : Instr),
         code = prefix ++ [store] /\
         Forall (fun i => is_barrier_store i = false /\ is_no_barrier_store i = false)
           prefix /\
         is_barrier_store store = si_ShouldEmitStoreBarrier this /\
         is_no_barrier_store store = negb (si_ShouldEmitStoreBarrier this) /\
         object_store_source store = in_ (si_locs this) 2) /\
    (forall (this : StoreInstanceFieldInstr) (e : Emitted),
       StoreInstanceFieldInstr_EmitNativeCode compiler this = Some e ->
       Forall (fun i => is_barrier_store i = false /\ is_no_barrier_store i = false)
         (slow_code e) /\
       (sf_IsUnboxedStore this && is_optimizing compiler = true ->
        Forall (fun i => is_no_barrier_store i = false) (main_code e)) /\
       (sf_IsUnboxedStore this && is_optimizing compiler = false ->
        exists (prefix : Code) (store : Instr),
          main_code e = prefix ++ [store; Bind (LocalLabel skip_store)] /\
          Forall (fun i => is_no_barrier_store i = false) prefix /\
          is_barrier_store store = sf_ShouldEmitStoreBarrier this /\
          is_no_barrier_store store = negb (sf_ShouldEmitStoreBarrier this) /\
          object_store_source store = in_ (sf_locs this) 1)).
Proof.
  intros compiler. split.
  - intros this code Hcid H. now apply (StoreIndexed_array_store compiler).
  - intros this e H. now apply (StoreInstanceField_stores compiler).
Qed.

End WriteBarrier.

(** ** The properties at concrete inputs *)

Lemma IsSmiValue_small (v : Z) : - 1000 <= v <= 1000 -> IsSmiValue v.
Proof. unfold IsSmiValue, kSmiMin, kSmiMax. lia. Defined.

Lemma BinarySmiOp_checked_arithmetic_witness :
  exists code : Code,
    BinarySmiOpInstr_EmitNativeCode Example.compiler (Example.binary_op kMUL)
      = Some code /\
    ((exists s',
        run code None (Example.state (RawValue 3) (RawValue 5) 0 0 [])
        = Jump (DeoptStub (deopt_id (Example.binary_op kMUL)) kDeoptBinarySmiOp) s')
     \/
     (exists s',
        run code None (Example.state (RawValue 3) (RawValue 5) 0 0 []) = Fallthrough s' /\
        get_reg s' R2 = RawValue 15 /\ IsSmiValue 15)) /\
    (FLAG_throw_on_javascript_int_overflow Example.compiler = false ->
     ((exists s',
         run code None (Example.state (RawValue 3) (RawValue 5) 0 0 [])
         = Jump (DeoptStub (deopt_id (Example.binary_op kMUL)) kDeoptBinarySmiOp) s')
      <-> ~ IsSmiValue 15)).
Proof.
  apply (BinarySmiOp_checked_arithmetic Example.compiler (Example.binary_op kMUL)
           R0 R2 (RegisterLocation R1) [RegisterLocation R3] Example.no_registers
           3 5 15 (Example.state (RawValue 3) (RawValue 5) 0 0 [])).
  - reflexivity.
  - reflexivity.
  - reflexivity.
  - reflexivity.
  - discriminate.
  - apply IsSmiValue_small. lia.
  - apply IsSmiValue_small. lia.
  - split; reflexivity.
  - split; reflexivity.
  - reflexivity.
  - intros r [H | [H | []]]; inversion H; discriminate.
Defined.

Lemma CheckArrayBound_guard_iff_out_of_range_witness :
  exists (code : Code) (s' : State),
    CheckArrayBoundInstr_EmitNativeCode Example.bounds_check = Some code /\
    run code None (Example.state (RawValue 3) (RawValue 5) 0 0 []) =
      (if (0 <=? 5) && (5 <? 3)
       then Fallthrough s'
       else Jump (DeoptStub (cab_deopt_id Example.bounds_check) kDeoptCheckArrayBound) s') /\
    exists f : Flags, s' = with_flags f (Example.state (RawValue 3) (RawValue 5) 0 0 []).
Proof.
  apply (CheckArrayBound_guard_iff_out_of_range Example.bounds_check
           (RegisterLocation R0) (RegisterLocation R1) [] Invalid Example.no_registers
           5 3 (Example.state (RawValue 3) (RawValue 5) 0 0 [])).
  - reflexivity.
  - apply IsSmiValue_small. lia.
  - apply IsSmiValue_small. lia.
  - lia.
  - split; reflexivity.
  - split; reflexivity.
Defined.

Lemma BinarySmiOp_division_witness :
  exists code : Code,
    BinarySmiOpInstr_EmitNativeCode Example.compiler (Example.binary_op kMOD)
      = Some code /\
    (2 = 0 ->
     exists f : Flags,
       run code None (Example.state (RawValue (-7)) (RawValue 2) 0 0 []) =
       Jump (DeoptStub (deopt_id (Example.binary_op kMOD)) kDeoptBinarySmiOp)
         (with_flags f (Example.state (RawValue (-7)) (RawValue 2) 0 0 []))) /\
    (op_kind (Example.binary_op kMOD) = kTRUNCDIV -> -7 = kSmiMin -> 2 = -1 ->
     exists s',
       run code None (Example.state (RawValue (-7)) (RawValue 2) 0 0 [])
       = Jump (DeoptStub (deopt_id (Example.binary_op kMOD)) kDeoptBinarySmiOp) s') /\
    (forall s',
       run code None (Example.state (RawValue (-7)) (RawValue 2) 0 0 []) = Fallthrough s' ->
       2 <> 0 /\
       IsSmiValue (division_result (op_kind (Example.binary_op kMOD)) (-7) 2) /\
       get_reg s' R2
       = RawValue (division_result (op_kind (Example.binary_op kMOD)) (-7) 2)) /\
    (FLAG_throw_on_javascript_int_overflow Example.compiler = false ->
     2 <> 0 ->
     (op_kind (Example.binary_op kMOD) = kTRUNCDIV -> ~ (-7 = kSmiMin /\ 2 = -1)) ->
     exists s',
       run code None (Example.state (RawValue (-7)) (RawValue 2) 0 0 []) = Fallthrough s') /\
    (2 <> 0 ->
     0 <= division_result kMOD (-7) 2 < Z.abs 2 /\
     -7 = 2 * division_result kTRUNCDIV (-7) 2 + division_result kMOD (-7) 2
          - (if Z.rem (-7) 2 <? 0 then Z.abs 2 else 0)).
Proof.
  apply (BinarySmiOp_division Example.compiler (Example.binary_op kMOD)
           R0 R1 R2 [RegisterLocation R3] Example.no_registers
           (-7) 2 (Example.state (RawValue (-7)) (RawValue 2) 0 0 [])).
  - right. reflexivity.
  - reflexivity.
  - reflexivity.
  - reflexivity.
  - discriminate.
  - apply IsSmiValue_small. lia.
  - apply IsSmiValue_small. lia.
  - split; reflexivity.
  - split; reflexivity.
  - exact I.
  - reflexivity.
  - intros r [H | [H | []]]; inversion H; discriminate.
Defined.

(** C3 as stated fails: for the dividend -7 and the divisor 2 neither
    operation takes a guard, [kTRUNCDIV] leaves the quotient -3 and [kMOD]
    the remainder 1, and [2 * (-3) + 1] is -5. *)
Lemma truncdiv_mod_identity_fails :
  fallthrough_value
    (run_emitted
       (BinarySmiOpInstr_EmitNativeCode Example.compiler (Example.binary_op kTRUNCDIV))
       (Example.state (RawValue (-7)) (RawValue 2) 0 0 [])) R2 = Some (RawValue (-3)) /\
  fallthrough_value
    (run_emitted
       (BinarySmiOpInstr_EmitNativeCode Example.compiler (Example.binary_op kMOD))
       (Example.state (RawValue (-7)) (RawValue 2) 0 0 [])) R2 = Some (RawValue 1) /\
  -7 <> 2 * (-3) + 1.
Proof.
  split; [vm_compute; reflexivity |]. split; [vm_compute; reflexivity |]. lia.
Qed.

Lemma double_comparison_unordered_witness :
  let this := Example.double_comparison kLTE in
  let labels := mkBranchLabels (BlockLabel 1) (BlockLabel 2) (BlockLabel 3) in
  (exists (code : Code) (s' : State),
     RelationalOpInstr_EmitNativeCode this = Some code /\
     run code None Example.nan_state = Fallthrough s' /\
     get_reg s' R2 = object_word Example.nan_state Bool_False) /\
  (exists (code : Code) (s' : State),
     RelationalOpInstr_EmitBranchCode this labels = Some code /\
     transfers_to labels (run code None Example.nan_state) (BlockLabel 2) s').
Proof.
  intros this labels.
  destruct (double_comparison_unordered this 0%nat 1%nat R2 [] Example.no_registers
              labels LE Example.nan_state) as (H1 & H2 & _).
  - reflexivity.
  - reflexivity.
  - reflexivity.
  - reflexivity.
  - vm_compute. reflexivity.
  - split; [exact H1 | exact H2].
Defined.

Lemma BoxDouble_UnboxDouble_roundtrip_witness :
  exists (box : Emitted) (unbox_code : Code) (s1 s2 : State),
    BoxDoubleInstr_EmitNativeCode Example.compiler Example.box_locs = Some box /\
    UnboxDoubleInstr_EmitNativeCode Example.compiler Example.unbox = Some unbox_code /\
    (forall fuel : nat, exec (S fuel) box None Example.boxing_state = Fallthrough s1) /\
    run unbox_code None s1 = Fallthrough s2 /\
    get_vreg s2 1%nat = 9221120237041090561 /\
    get_dreg s2 1%nat = 9221120237041090561.
Proof.
  apply (BoxDouble_UnboxDouble_roundtrip Example.compiler Example.box_locs
           Example.unbox 0%nat 1%nat R2 R3 (mkRegisterSet [R2] [0%nat])
           9221120237041090561 Example.boxing_state).
  - reflexivity.
  - reflexivity.
  - reflexivity.
  - reflexivity.
  - simpl. tauto.
  - intros _. discriminate.
  - lia.
  - reflexivity.
Defined.

Lemma store_barrier_chosen_at_compile_time_witness :
  (exists (prefix : Code) (store : Instr),
     [Lsl R2 R2 2; AddImmediate R2 R2 15;
      StoreIntoObject R0 (Address_reg R0 R2) R1] = prefix ++ [store] /\
     Forall (fun i => is_barrier_store i = false /\ is_no_barrier_store i = false) prefix /\
     is_barrier_store store = si_ShouldEmitStoreBarrier (Example.array_store true) /\
     is_no_barrier_store store = negb (si_ShouldEmitStoreBarrier (Example.array_store true)) /\
     object_store_source store = in_ (si_locs (Example.array_store true)) 2) /\
  (exists e : Emitted,
     StoreInstanceFieldInstr_EmitNativeCode Example.compiler (Example.field_store false)
       = Some e /\
     exists (prefix : Code) (store : Instr),
       main_code e = prefix ++ [store; Bind (LocalLabel skip_store)] /\
       Forall (fun i => is_no_barrier_store i = false) prefix /\
       is_barrier_store store = false /\
       is_no_barrier_store store = true /\
       object_store_source store = Some (RegisterLocation R1)).
Proof.
  destruct (store_barrier_chosen_at_compile_time Example.compiler) as [Hindexed Hfield].
  split.
  - apply (Hindexed (Example.array_store true)); reflexivity.
  - destruct (StoreInstanceFieldInstr_EmitNativeCode Example.compiler
                (Example.field_store false)) as [e |] eqn:E; [| discriminate E].
    exists e. split; [reflexivity |].
    destruct (Hfield (Example.field_store false) e E) as (_ & _ & H).
    apply H. reflexivity.
Defined.

Lemma StoreIndexed_clamped_byte_witness :
  exists (code : Code) (s' : State),
    StoreIndexedInstr_EmitNativeCode Example.compiler Example.clamped_store = Some code /\
    run code None (Example.state 8193 (RawValue 2) 0 0 []) = Fallthrough s' /\
    mem s' (wrap (8193 + 2 + 15)) = 255.
Proof.
  destruct (StoreIndexed_clamped_byte Example.compiler Example.clamped_store
              R0 R1 (Constant (Smi 300)) [] Invalid Example.no_registers
              2 300 (Example.state 8193 (RawValue 2) 0 0 []))
    as (code & s' & E & Hrun & Hmem & _).
  - reflexivity.
  - reflexivity.
  - reflexivity.
  - reflexivity.
  - reflexivity.
  - discriminate.
  - intros r H. discriminate H.
  - apply IsSmiValue_small. lia.
  - apply IsSmiValue_small. lia.
  - reflexivity.
  - reflexivity.
  - exists code, s'. split; [exact E |]. split; [exact Hrun |]. exact Hmem.
Defined.

Lemma LoadIndexed_uint32_no_guard_witness :
  exists (code : Code) (s' : State),
    LoadIndexedInstr_EmitNativeCode Example.compiler Example.uint32_load = Some code /\
    existsb transfers_control code = false /\
    existsb compares code = false /\
    run code None (Example.state 8193 (RawValue 1) 255 0 []) = Fallthrough s' /\
    get_reg s' R2
    = RawValue (load_bytes 4 (fun _ => 255) (wrap (8193 + 1 * 4 + 15))).
Proof.
  destruct (LoadIndexed_uint32_no_guard Example.compiler Example.uint32_load
              R0 R1 R2 [] Example.no_registers 1
              (Example.state 8193 (RawValue 1) 255 0 []))
    as (code & s' & E & Ht & Hc & Hrun & _ & _ & Hres & _).
  - reflexivity.
  - reflexivity.
  - reflexivity.
  - reflexivity.
  - reflexivity.
  - apply IsSmiValue_small. lia.
  - reflexivity.
  - exists code, s'. repeat split; assumption.
Defined.

(** C8 as stated fails: the code emitted for a load from an unsigned 32-bit
    array is three instructions, none of them a compare or a branch, and on
    the largest element, [0xFFFFFFFF], it falls through with that element
    tagged. *)
Lemma LoadIndexed_uint32_emits_no_range_check :
  LoadIndexedInstr_EmitNativeCode Example.compiler Example.uint32_load
    = Some [ add R1 R0 (Shifted R1 LSL 1);
             ldr R2 (Address_offset R1 15) kUnsignedWord;
             SmiTag R2 ] /\
  fallthrough_value
    (run_emitted
       (LoadIndexedInstr_EmitNativeCode Example.compiler Example.uint32_load)
       (Example.state 8193 (RawValue 1) 255 0 [])) R2 = Some (RawValue 4294967295).
Proof. split; [reflexivity | vm_compute; reflexivity]. Qed.

Section SmiComparison.

Local Arguments wrap : simpl never.
Local Arguments signed : simpl never.
Local Arguments RawValue : simpl never.
Local Arguments get_reg : simpl never.
Local Arguments set_reg : simpl never.
Local Arguments sub_flags : simpl never.

(** ** Comparisons of small integers *)

Lemma ConditionHolds_CC (f : Flags) :
  ConditionHolds CC f = negb (ConditionHolds CS f).
Proof. reflexivity. Qed.

Lemma ConditionHolds_HI (f : Flags) :
  ConditionHolds HI f = negb (ConditionHolds LS f).
Proof. cbn. now rewrite negb_involutive. Qed.

Lemma FlipCondition_holds (c c' : Condition) (a b : Z) :
  FlipCondition c = Some c' ->
  ConditionHolds c' (snd (sub_flags b a)) = ConditionHolds c (snd (sub_flags a b)).
Proof.
  intros H.
  destruct c; cbn in H; inversion H; subst c';
    rewrite ?ConditionHolds_CC, ?ConditionHolds_HI,
      ?sub_flags_EQ, ?sub_flags_NE, ?sub_flags_CS, ?sub_flags_LS,
      ?sub_flags_LT, ?sub_flags_GE, ?sub_flags_GT, ?sub_flags_LE;
    try reflexivity; now rewrite Z.eqb_sym.
Qed.

(** X1.  [FlipCondition] gives the condition for the compare with its
    operands exchanged: on the flags of [cmp b, a] the flipped condition
    holds exactly when the condition holds on the flags of [cmp a, b].
    Flipping twice gives the condition back, and a condition outside the ten
    handled ones has no flipped condition. *)
Theorem FlipCondition_exchanges_operands :
  forall (c : Condition),
    (forall c' : Condition,
       FlipCondition c = Some c' ->
       In c handled_conditions /\
       FlipCondition c' = Some c /\
       forall a b : Z,
         ConditionHolds c' (snd (sub_flags b a))
         = ConditionHolds c (snd (sub_flags a b))) /\
    (In c handled_conditions -> FlipCondition c <> None).
Proof.
  intros c. split.
  - intros c' H. split; [| split].
    + destruct c; cbn in H; try discriminate H; cbn; tauto.
    + destruct c; cbn in H; inversion H; subst c'; reflexivity.
    + intros a b. now apply FlipCondition_holds.
  - cbn. intros H.
    repeat (destruct H as [H | H]; [subst c; discriminate |]). contradiction.
Qed.

Lemma smi_condition_handled (k : Token_Kind) (c : Condition) :
  TokenKindToSmiCondition k = Some c -> In c handled_conditions.
Proof. destruct k; cbn; intros H; inversion H; subst; cbn; tauto. Qed.

Lemma flip_handled (c c' : Condition) :
  FlipCondition c = Some c' -> In c' handled_conditions.
Proof. destruct c; cbn; intros H; inversion H; subst; cbn; tauto. Qed.

(** The signed compare of two tagged small integers decides the comparison
    of their values. *)
Lemma smi_compare (k : Token_Kind) (c : Condition) (x y : Z) (r : bool) :
  IsSmiValue x -> IsSmiValue y ->
  TokenKindToSmiCondition k = Some c ->
  compare_values k x y = Some r ->
  ConditionHolds c (snd (sub_flags (RawValue x) (RawValue y))) = r.
Proof.
  intros Hx Hy Hc Hr.
  destruct k; cbn in Hc, Hr; inversion Hc; subst c; inversion Hr; subst r;
    rewrite ?sub_flags_EQ, ?sub_flags_NE, ?sub_flags_LT, ?sub_flags_GE,
      ?sub_flags_GT, ?sub_flags_LE, ?signed_RawValue by assumption;
    unfold IsSmiValue, kSmiMin, kSmiMax, RawValue in *;
    abstract_words; case_tests; cbn [negb]; first [reflexivity | lia].
Qed.

Lemma compare_values_defined (k : Token_Kind) (c : Condition) (x y : Z) :
  TokenKindToSmiCondition k = Some c -> exists r, compare_values k x y = Some r.
Proof. destruct k; cbn; intros H; inversion H; eauto. Qed.

Lemma compare_values_flip (k : Token_Kind) (c c' : Condition) (x y : Z) (r : bool) :
  IsSmiValue x -> IsSmiValue y ->
  TokenKindToSmiCondition k = Some c ->
  FlipCondition c = Some c' ->
  compare_values k x y = Some r ->
  ConditionHolds c' (snd (sub_flags (RawValue y) (RawValue x))) = r.
Proof.
  intros Hx Hy Hc Hf Hr.
  rewrite (FlipCondition_holds c c' (RawValue x) (RawValue y) Hf).
  now apply (smi_compare k).
Qed.

(** The compare and the condition, over the three shapes of the operands. *)
Lemma smi_comparison_op_run :
  forall (k : Token_Kind) (left right : Location) (tmps : list Location)
         (outl : Location) (live : RegisterSet) (x y : Z) (r : bool) (s : State),
    IsConstant left && IsConstant right = false ->
    IsSmiValue x -> IsSmiValue y ->
    holds_smi s left x -> holds_smi s right y ->
    compare_values k x y = Some r ->
    exists (code : Code) (c : Condition) (f : Flags),
      EmitSmiComparisonOp (mkLocationSummary [left; right] tmps outl live) k
        = Some (code, c) /\
      In c handled_conditions /\
      run code None s = Fallthrough (with_flags f s) /\
      ConditionHolds c f = r.
Proof.
  intros k left right tmps outl live x y r s Hnc Hx Hy Hl Hr Hk.
  assert (Hc : exists c, TokenKindToSmiCondition k = Some c)
    by (destruct k; cbn in Hk; try discriminate; cbn; eauto).
  destruct Hc as [c Hc].
  unfold EmitSmiComparisonOp. cbn [in_ nth_error inputs obind].
  destruct left as [lr | | lc | |]; try contradiction;
    destruct right as [rr | | rc | |]; try contradiction;
    cbn [IsConstant andb negb orb ASSERT obind reg constant] in *;
    try discriminate Hnc; rewrite Hc; cbn [obind].
  - destruct Hl as [_ Hl], Hr as [_ Hr].
    exists [CompareRegisters lr rr], c. eexists.
    split; [reflexivity |]. split; [now apply (smi_condition_handled k) |].
    split; [reflexivity |]. cbn [snd]. rewrite Hl, Hr. now apply (smi_compare k).
  - destruct Hl as [_ Hl]. destruct rc; try contradiction. cbn in Hr. subst value.
    exists [CompareObject lr (Smi y)], c. eexists.
    split; [reflexivity |]. split; [now apply (smi_condition_handled k) |].
    split; [reflexivity |]. cbn [snd object_word]. rewrite Hl.
    now apply (smi_compare k).
  - destruct Hr as [_ Hr]. destruct lc; try contradiction. cbn in Hl. subst value.
    assert (Hf : exists c', FlipCondition c = Some c')
      by (destruct k; cbn in Hc; inversion Hc; subst c; cbn; eauto).
    destruct Hf as [c' Hf]. rewrite Hf. cbn [obind].
    exists [CompareObject rr (Smi x)], c'. eexists.
    split; [reflexivity |]. split; [now apply (flip_handled c) |].
    split; [reflexivity |]. cbn [snd object_word]. rewrite Hr.
    now apply (compare_values_flip k c).
Qed.

(** X2.  The compare emitted for two small integers, of which at most one is
    a constant, and the condition returned with it decide the comparison of
    the values: the code is one compare, it only writes the flags, and on
    them the condition holds exactly when the comparison does.  With the
    constant on the left the operands of the compare are exchanged and the
    condition flipped.  Two constants abort the emission. *)
Theorem EmitSmiComparisonOp_decides :
  forall (k : Token_Kind) (left right : Location) (tmps : list Location)
         (outl : Location) (live : RegisterSet) (x y : Z) (r : bool) (s : State),
    IsSmiValue x -> IsSmiValue y ->
    holds_smi s left x -> holds_smi s right y ->
    compare_values k x y = Some r ->
    (IsConstant left && IsConstant right = true ->
     EmitSmiComparisonOp (mkLocationSummary [left; right] tmps outl live) k = None) /\
    (IsConstant left && IsConstant right = false ->
     exists (code : Code) (c : Condition) (f : Flags),
       EmitSmiComparisonOp (mkLocationSummary [left; right] tmps outl live) k
         = Some (code, c) /\
       In c handled_conditions /\
       run code None s = Fallthrough (with_flags f s) /\
       ConditionHolds c f = r).
Proof.
  intros k left right tmps outl live x y r s Hx Hy Hl Hr Hk. split.
  - intros Hc. apply andb_true_iff in Hc as [H1 H2].
    unfold EmitSmiComparisonOp. cbn [in_ nth_error inputs obind].
    now rewrite H1, H2.
  - intros Hnc.
    exact (smi_comparison_op_run k left right tmps outl live x y r s
             Hnc Hx Hy Hl Hr Hk).
Qed.

End SmiComparison.

Section SmiComparisonInstructions.

Local Arguments wrap : simpl never.
Local Arguments signed : simpl never.
Local Arguments RawValue : simpl never.
Local Arguments get_reg : simpl never.
Local Arguments set_reg : simpl never.
Local Arguments sub_flags : simpl never.

(** The branch on the condition followed by the materializing tail leaves
    the boolean the condition evaluates to. *)
Lemma branch_materialize (c : Condition) (result : Register) (s : State) :
  In c handled_conditions ->
  Nat.eqb result ZR = false ->
  let labels := mkBranchLabels (LocalLabel is_true) (LocalLabel is_false)
                  (LocalLabel is_false) in
  exists (branch : Code) (s' : State),
    EmitBranchOnCondition c labels = Some branch /\
    run (branch ++ materialize_bool result) None s = Fallthrough s' /\
    get_reg s' result =
      object_word s (if ConditionHolds c (flags s) then Bool_True else Bool_False).
Proof.
  intros Hc Hzr labels.
  exists [b_cond (LocalLabel is_true) c].
  unfold materialize_bool. cbn [app run step].
  destruct (ConditionHolds c (flags s));
    cbn [run step binds_label Label_eqb LocalName_eqb];
    eexists; (split; [reflexivity |]); (split; [reflexivity |]);
    now rewrite get_set_reg_eq.
Qed.

(** Both comparison instructions on small integers, through the code they
    share. *)
Lemma smi_comparison_code (k : Token_Kind) (left right : Location)
    (result : Register) (tmps : list Location) (live : RegisterSet)
    (x y : Z) (r : bool) (s : State) :
  is_allocatable result = true ->
  IsConstant left && IsConstant right = false ->
  IsSmiValue x -> IsSmiValue y ->
  holds_smi s left x -> holds_smi s right y ->
  compare_values k x y = Some r ->
  let locs := mkLocationSummary [left; right] tmps (RegisterLocation result) live in
  let local := mkBranchLabels (LocalLabel is_true) (LocalLabel is_false)
                 (LocalLabel is_false) in
  exists (cmp_code : Code) (c : Condition),
    EmitSmiComparisonOp locs k = Some (cmp_code, c) /\
    (exists (branch : Code) (s' : State),
       EmitBranchOnCondition c local = Some branch /\
       run (cmp_code ++ nan_branch kSmiCid c (LocalLabel is_false)
            ++ branch ++ materialize_bool result) None s = Fallthrough s' /\
       get_reg s' result = object_word s (if r then Bool_True else Bool_False)) /\
    (forall labels : BranchLabels,
       exists (branch : Code) (s' : State),
         EmitBranchOnCondition c labels = Some branch /\
         transfers_to labels
           (run (cmp_code ++ nan_branch kSmiCid c (false_label labels) ++ branch)
              None s)
           (if r then true_label labels else false_label labels) s').
Proof.
  intros Hal Hnc Hx Hy Hl Hr Hk locs local.
  destruct (smi_comparison_op_run k left right tmps (RegisterLocation result)
              live x y r s Hnc Hx Hy Hl Hr Hk) as (cmp_code & c & f & E & Hc & Hrun & Hf).
  exists cmp_code, c. split; [exact E |].
  unfold nan_branch. cbn [ClassId_eqb ClassId_eq_dec andb app].
  reg_facts. split.
  - destruct (branch_materialize c result (with_flags f s) Hc Hzr)
      as (branch & s' & Eb & Hb & Hres).
    exists branch, s'. split; [exact Eb |].
    rewrite run_app, Hrun. split; [exact Hb |].
    rewrite Hres. cbn [flags with_flags]. rewrite Hf. reflexivity.
  - intros labels.
    destruct (EmitBranchOnCondition_run c labels Hc) as (branch & Eb & _ & Hb).
    exists branch, (with_flags f s). split; [exact Eb |].
    rewrite run_app, Hrun. specialize (Hb (with_flags f s)).
    cbn [flags with_flags] in Hb. rewrite Hf in Hb. exact Hb.
Qed.

(** X3.  A relational comparison of two small integers, of which at most one
    is a constant, leaves the boolean constant of the comparison of their
    values in the result register, and as a branch sends control to the true
    label when the comparison holds and to the false label when it does
    not. *)
Theorem RelationalOp_smi_decides :
  forall (this : ComparisonInstr) (left right : Location) (result : Register)
         (tmps : list Location) (live : RegisterSet)
         (x y : Z) (r : bool) (s : State),
    operation_cid this = kSmiCid ->
    locs this = mkLocationSummary [left; right] tmps (RegisterLocation result) live ->
    is_allocatable result = true ->
    IsConstant left && IsConstant right = false ->
    IsSmiValue x -> IsSmiValue y ->
    holds_smi s left x -> holds_smi s right y ->
    compare_values (kind this) x y = Some r ->
    (exists (code : Code) (s' : State),
       RelationalOpInstr_EmitNativeCode this = Some code /\
       run code None s = Fallthrough s' /\
       get_reg s' result = object_word s (if r then Bool_True else Bool_False)) /\
    (forall labels : BranchLabels,
       exists (code : Code) (s' : State),
         RelationalOpInstr_EmitBranchCode this labels = Some code /\
         transfers_to labels (run code None s)
           (if r then true_label labels else false_label labels) s').
Proof.
  intros this left right result tmps live x y r s Hcid Hlocs Hal Hnc Hx Hy Hl Hr Hk.
  destruct (smi_comparison_code (kind this) left right result tmps live x y r s
              Hal Hnc Hx Hy Hl Hr Hk) as (cmp_code & c & E & Hmat & Hbr).
  unfold RelationalOpInstr_EmitNativeCode, RelationalOpInstr_EmitBranchCode,
    RelationalOpInstr_EmitComparisonCode.
  rewrite Hcid, Hlocs. change (ClassId_eqb kSmiCid kSmiCid) with true.
  rewrite E. cbn [obind].
  split.
  - destruct Hmat as (branch & s' & Eb & Hrun & Hres).
    rewrite Eb. cbn [obind out output reg]. eauto.
  - intros labels. destruct (Hbr labels) as (branch & s' & Eb & Hrun).
    rewrite Eb. cbn [obind]. eauto.
Qed.

(** X4.  An equality comparison ([==] or [!=]) of two small integers, of
    which at most one is a constant, leaves the boolean constant of the
    comparison in the result register, and as a branch sends control to the
    true label when it holds and to the false label when it does not.  For
    any other operator nothing is emitted. *)
Theorem EqualityCompare_smi_decides :
  forall (this : ComparisonInstr) (left right : Location) (result : Register)
         (tmps : list Location) (live : RegisterSet)
         (x y : Z) (s : State),
    operation_cid this = kSmiCid ->
    locs this = mkLocationSummary [left; right] tmps (RegisterLocation result) live ->
    is_allocatable result = true ->
    IsConstant left && IsConstant right = false ->
    IsSmiValue x -> IsSmiValue y ->
    holds_smi s left x -> holds_smi s right y ->
    (kind this = kEQ \/ kind this = kNE ->
     forall r : bool, compare_values (kind this) x y = Some r ->
     (exists (code : Code) (s' : State),
        EqualityCompareInstr_EmitNativeCode this = Some code /\
        run code None s = Fallthrough s' /\
        get_reg s' result = object_word s (if r then Bool_True else Bool_False)) /\
     (forall labels : BranchLabels,
        exists (code : Code) (s' : State),
          EqualityCompareInstr_EmitBranchCode this labels = Some code /\
          transfers_to labels (run code None s)
            (if r then true_label labels else false_label labels) s')) /\
    (kind this <> kEQ -> kind this <> kNE ->
     EqualityCompareInstr_EmitNativeCode this = None /\
     forall labels : BranchLabels,
       EqualityCompareInstr_EmitBranchCode this labels = None).
Proof.
  intros this left right result tmps live x y s Hcid Hlocs Hal Hnc Hx Hy Hl Hr.
  unfold EqualityCompareInstr_EmitNativeCode, EqualityCompareInstr_EmitBranchCode,
    EqualityCompareInstr_EmitComparisonCode.
  split.
  - intros Hkind r Hk.
    destruct (smi_comparison_code (kind this) left right result tmps live x y r s
                Hal Hnc Hx Hy Hl Hr Hk) as (cmp_code & c & E & Hmat & Hbr).
    assert (Ha : Token_Kind_eqb (kind this) kEQ || Token_Kind_eqb (kind this) kNE = true)
      by (destruct Hkind as [E' | E']; rewrite E'; reflexivity).
    assert (Hb : Token_Kind_eqb (kind this) kNE || Token_Kind_eqb (kind this) kEQ = true)
      by (destruct Hkind as [E' | E']; rewrite E'; reflexivity).
    rewrite Ha, Hb, Hcid, Hlocs. change (ClassId_eqb kSmiCid kSmiCid) with true.
    cbn [ASSERT obind]. rewrite E. cbn [obind]. split.
    + destruct Hmat as (branch & s' & Eb & Hrun & Hres).
      rewrite Eb. cbn [obind out output reg]. eauto.
    + intros labels. destruct (Hbr labels) as (branch & s' & Eb & Hrun).
      rewrite Eb. cbn [obind]. eauto.
  - intros H1 H2.
    assert (Ha : Token_Kind_eqb (kind this) kEQ = false)
      by (destruct (kind this); try reflexivity; congruence).
    assert (Hb : Token_Kind_eqb (kind this) kNE = false)
      by (destruct (kind this); try reflexivity; congruence).
    rewrite Ha, Hb. cbn [orb ASSERT obind]. auto.
Qed.

End SmiComparisonInstructions.

Section UncheckedSmiOperations.

Local Arguments wrap : simpl never.
Local Arguments signed : simpl never.
Local Arguments RawValue : simpl never.
Local Arguments shift64 : simpl never.
Local Arguments get_reg : simpl never.
Local Arguments set_reg : simpl never.
Local Arguments sub_flags : simpl never.
Local Arguments Z.land : simpl never.
Local Arguments Z.lor : simpl never.
Local Arguments Z.lxor : simpl never.
Local Arguments Z.shiftr : simpl never.
Local Arguments Z.shiftl : simpl never.

(** ** Bitwise operations on small integers *)

Lemma wrap_land (a b : Z) : Z.land (wrap a) (wrap b) = wrap (Z.land a b).
Proof.
  unfold wrap. apply Z.bits_inj'. intros n Hn.
  rewrite Z.land_spec, !Z.testbit_mod_pow2, Z.land_spec by lia.
  destruct (n <? 64), (Z.testbit a n), (Z.testbit b n); reflexivity.
Qed.

Lemma wrap_lor (a b : Z) : Z.lor (wrap a) (wrap b) = wrap (Z.lor a b).
Proof.
  unfold wrap. apply Z.bits_inj'. intros n Hn.
  rewrite Z.lor_spec, !Z.testbit_mod_pow2, Z.lor_spec by lia.
  destruct (n <? 64), (Z.testbit a n), (Z.testbit b n); reflexivity.
Qed.

Lemma wrap_lxor (a b : Z) : Z.lxor (wrap a) (wrap b) = wrap (Z.lxor a b).
Proof.
  unfold wrap. apply Z.bits_inj'. intros n Hn.
  rewrite Z.lxor_spec, !Z.testbit_mod_pow2, Z.lxor_spec by lia.
  destruct (n <? 64), (Z.testbit a n), (Z.testbit b n); reflexivity.
Qed.

Lemma double_shiftl (v : Z) : v * 2 = Z.shiftl v 1.
Proof. rewrite Z.shiftl_mul_pow2 by lia. reflexivity. Qed.

Lemma raw_bitwise (k : Token_Kind) (x y v : Z) :
  bitwise_result k x y = Some v ->
  match k with
  | kBIT_AND => Z.land (wrap (RawValue x)) (wrap (RawValue y))
  | kBIT_OR => Z.lor (wrap (RawValue x)) (wrap (RawValue y))
  | _ => Z.lxor (wrap (RawValue x)) (wrap (RawValue y))
  end = RawValue v.
Proof.
  unfold RawValue. rewrite !wrap_wrap, !double_shiftl.
  destruct k; cbn; intros H; inversion H; subst v.
  - now rewrite wrap_land, Z.shiftl_land.
  - now rewrite wrap_lor, Z.shiftl_lor.
  - now rewrite wrap_lxor, Z.shiftl_lxor.
Qed.

(** A small integer is a value all of whose bits from 62 up agree. *)
Lemma smi_high_bits (v : Z) :
  IsSmiValue v <-> Z.shiftr v 62 = 0 \/ Z.shiftr v 62 = -1.
Proof.
  unfold IsSmiValue, kSmiMin, kSmiMax. rewrite Z.shiftr_div_pow2 by lia.
  pose proof (Z.div_mod v (2 ^ 62) ltac:(lia)) as D.
  pose proof (Z.mod_pos_bound v (2 ^ 62) ltac:(lia)) as M.
  lia.
Qed.

Lemma bitwise_is_smi (k : Token_Kind) (x y v : Z) :
  IsSmiValue x -> IsSmiValue y -> bitwise_result k x y = Some v -> IsSmiValue v.
Proof.
  rewrite !smi_high_bits. intros Hx Hy H.
  destruct k; cbn in H; inversion H; subst v;
    rewrite ?Z.shiftr_land, ?Z.shiftr_lor, ?Z.shiftr_lxor;
    destruct Hx as [-> | ->], Hy as [-> | ->]; auto.
Qed.

Lemma javascript_overflow_check_off (compiler : FlowGraphCompiler)
    (r : option Range) (deopt : option Label) (result : Register) :
  FLAG_throw_on_javascript_int_overflow compiler = false ->
  javascript_overflow_check compiler r deopt result = Some [].
Proof. intros H. unfold javascript_overflow_check. now rewrite H. Qed.

(** X5.  The bitwise operations [&], [|] and [^] on two tagged small
    integers, the right one in a register or an immediate constant: the
    emitted code has no guard and no other transfer of control, and falls
    through with the tagged bitwise result, always a small integer, in the
    result register. *)
Theorem BinarySmiOp_bitwise :
  forall (compiler : FlowGraphCompiler) (this : BinarySmiOpInstr)
         (left result : Register) (right_loc : Location)
         (tmps : list Location) (live : RegisterSet)
         (x y v : Z) (s : State),
    bitwise_result (op_kind this) x y = Some v ->
    is_truncating this = false ->
    bs_locs this =
      mkLocationSummary [RegisterLocation left; right_loc] tmps
        (RegisterLocation result) live ->
    FLAG_throw_on_javascript_int_overflow compiler = false ->
    IsSmiValue x -> IsSmiValue y ->
    holds_smi s (RegisterLocation left) x ->
    holds_smi s right_loc y ->
    is_allocatable result = true ->
    exists (code : Code) (s' : State),
      BinarySmiOpInstr_EmitNativeCode compiler this = Some code /\
      existsb transfers_control code = false /\
      run code None s = Fallthrough s' /\
      get_reg s' result = RawValue v /\
      IsSmiValue v.
Proof.
  intros compiler this left result right_loc tmps live x y v s
         Hop Htrunc Hlocs Hflag Hx Hy [Hal Hl] Hr Har.
  pose proof (bitwise_is_smi _ _ _ _ Hx Hy Hop) as Hv.
  pose proof (raw_bitwise _ _ _ _ Hop) as Hraw.
  unfold BinarySmiOpInstr_EmitNativeCode.
  destruct (op_kind this) eqn:Ek; try discriminate Hop;
    cbn [Token_Kind_eqb]; rewrite Htrunc, Hlocs;
    cbn [ASSERT negb obind in_ nth_error inputs output out reg];
    (destruct right_loc as [right | | c | |]; try contradiction;
     [ destruct Hr as [Hari Hr]
     | destruct c as [c | | | | |]; try contradiction;
       cbn [holds_smi] in Hr; subst c ]);
    cbn [IsConstant constant reg obind Smi_raw Smi_Value app];
    rewrite (javascript_overflow_check_off compiler _ _ _ Hflag); cbn [obind app];
    reg_facts;
    (eexists; eexists; split; [reflexivity |]; split; [reflexivity |];
     split; [reflexivity |]; split; [| exact Hv]);
    machine; rewrite ?Hl, ?Hr; exact Hraw.
Qed.

(** ** Arithmetic without a guard *)

(** X6.  When the instruction cannot deoptimize (the range analysis having
    excluded an overflow), addition, subtraction and multiplication are
    emitted without a guard or any other transfer of control, and the result
    register receives the tagged result modulo 2^64: the exact tagged result
    whenever that is a small integer. *)
Theorem BinarySmiOp_without_guard :
  forall (compiler : FlowGraphCompiler) (this : BinarySmiOpInstr)
         (left result : Register) (right_loc : Location)
         (tmps : list Location) (live : RegisterSet)
         (x y v : Z) (s : State),
    checked_result (op_kind this) x y = Some v ->
    CanDeoptimize this = false ->
    is_truncating this = false ->
    bs_locs this =
      mkLocationSummary [RegisterLocation left; right_loc] tmps
        (RegisterLocation result) live ->
    FLAG_throw_on_javascript_int_overflow compiler = false ->
    IsSmiValue x -> IsSmiValue y ->
    holds_smi s (RegisterLocation left) x ->
    holds_smi s right_loc y ->
    is_allocatable result = true ->
    exists (code : Code) (s' : State),
      BinarySmiOpInstr_EmitNativeCode compiler this = Some code /\
      existsb transfers_control code = false /\
      run code None s = Fallthrough s' /\
      get_reg s' result = RawValue v.
Proof.
  intros compiler this left result right_loc tmps live x y v s
         Hop Hdeopt Htrunc Hlocs Hflag Hx Hy [Hal Hl] Hr Har.
  unfold BinarySmiOpInstr_EmitNativeCode.
  destruct (op_kind this) eqn:Ek; try discriminate Hop;
    cbn [Token_Kind_eqb]; rewrite Htrunc, Hlocs, Hdeopt;
    cbn [ASSERT negb obind in_ nth_error inputs output out reg];
    (destruct right_loc as [right | | c | |]; try contradiction;
     [ destruct Hr as [Hari Hr]
     | destruct c as [c | | | | |]; try contradiction;
       cbn [holds_smi] in Hr; subst c ]);
    cbn [IsConstant constant reg obind Smi_raw Smi_Value app];
    rewrite ?(javascript_overflow_check_off compiler _ _ _ Hflag); cbn [obind app];
    inversion Hop; subst v; reg_facts.
  - do 2 eexists. split; [reflexivity |]. split; [reflexivity |].
    split; [reflexivity |]. machine. rewrite Hl, Hr. apply raw_add.
  - do 2 eexists. split; [reflexivity |]. split; [reflexivity |].
    split; [reflexivity |]. machine. rewrite Hl.
    unfold RawValue. words.
  - do 2 eexists. split; [reflexivity |]. split; [reflexivity |].
    split; [reflexivity |]. machine. rewrite Hl, Hr. apply raw_sub.
  - do 2 eexists. split; [reflexivity |]. split; [reflexivity |].
    split; [reflexivity |]. machine. rewrite Hl.
    unfold RawValue. words.
  - do 2 eexists. split; [reflexivity |]. split; [reflexivity |].
    split; [reflexivity |]. machine. rewrite Hl, Hr.
    rewrite asr_RawValue by assumption. apply mul_smi_result.
  - destruct (Z.eqb_spec y 2) as [-> |]; cbn [obind app];
      (do 2 eexists; split; [reflexivity |]; split; [reflexivity |];
       split; [reflexivity |]); machine; rewrite Hl.
    + rewrite lsl_1. unfold RawValue. words.
    + rewrite wrap_mul_r. unfold RawValue. rewrite wrap_mul_l. f_equal. lia.
Qed.

End UncheckedSmiOperations.

Section ShiftRight.

Local Arguments wrap : simpl never.
Local Arguments signed : simpl never.
Local Arguments RawValue : simpl never.
Local Arguments shift64 : simpl never.
Local Arguments get_reg : simpl never.
Local Arguments set_reg : simpl never.
Local Arguments sub_flags : simpl never.
Local Arguments Z.shiftr : simpl never.
Local Arguments Z.shiftl : simpl never.
Local Arguments Z.pow : simpl never.

(** ** Shifts to the right *)

Lemma shiftr_sign (x n : Z) :
  IsSmiValue x -> 62 <= n -> Z.shiftr x n = if x <? 0 then -1 else 0.
Proof.
  unfold IsSmiValue, kSmiMin, kSmiMax. intros Hx Hn.
  rewrite Z.shiftr_div_pow2 by lia.
  assert (Hp : 2 ^ 62 <= 2 ^ n) by (apply Z.pow_le_mono_r; lia).
  destruct (Z.ltb_spec x 0); apply div_unique_range; lia.
Qed.

Lemma shiftr_is_smi (x n : Z) : IsSmiValue x -> 0 <= n -> IsSmiValue (Z.shiftr x n).
Proof.
  unfold IsSmiValue, kSmiMin, kSmiMax. intros Hx Hn.
  rewrite Z.shiftr_div_pow2 by lia.
  assert (Hp : 0 < 2 ^ n) by (apply Z.pow_pos_nonneg; lia).
  pose proof (Z.div_mod x (2 ^ n) ltac:(lia)) as D.
  pose proof (Z.mod_pos_bound x (2 ^ n) Hp) as M.
  set (d := 2 ^ n) in *. set (q := x / d) in *. clearbody d q. nia.
Qed.

Lemma asr_smi (x n : Z) :
  IsSmiValue x -> shift64 ASR (wrap x) n = wrap (Z.shiftr x n).
Proof.
  intros Hx. unfold shift64. rewrite signed_wrap, signed_small; [reflexivity |].
  unfold IsSmiValue, kSmiMin, kSmiMax in Hx. lia.
Qed.

(** The immediate shift of the tagged value: the count includes the tag bit
    and saturates at 63. *)
Lemma asr_tagged_constant (x c : Z) :
  IsSmiValue x -> 0 < c ->
  shift64 ASR (RawValue x) (if 63 <=? c + kSmiTagSize then 63 else c + kSmiTagSize)
  = wrap (Z.shiftr x c).
Proof.
  intros Hx Hc. unfold shift64, kSmiTagSize. rewrite signed_RawValue by assumption.
  rewrite double_shiftl. f_equal.
  destruct (Z.leb_spec 63 (c + 1)).
  - rewrite Z.shiftr_shiftl_r by lia. change (63 - 1) with 62.
    rewrite !shiftr_sign by (assumption || lia). reflexivity.
  - rewrite Z.shiftr_shiftl_r by lia. f_equal. lia.
Qed.

Lemma range_admits_upper (r : option Range) (y hi : Z) :
  range_admits r y -> needs_check r kMinusInfinity (Finite hi) = false -> y <= hi.
Proof.
  destruct r as [rr |]; cbn [range_admits needs_check]; [| discriminate].
  unfold range_contains, IsWithin. intros H1 H2.
  apply negb_false_iff in H2.
  apply andb_true_iff in H1 as [_ H1]. apply andb_true_iff in H2 as [_ H2].
  destruct (range_max rr); cbn [boundary_le] in H1, H2; try discriminate.
  apply Z.leb_le in H1, H2. lia.
Qed.

Lemma saturated_count (y : Z) :
  0 <= y -> IsSmiValue y ->
  ConditionHolds GT (snd (sub_flags (wrap y) (wrap 63))) = (63 <? y).
Proof.
  unfold IsSmiValue, kSmiMin, kSmiMax. intros H0 Hy.
  rewrite sub_flags_GT. abstract_words. case_tests; first [reflexivity | lia].
Qed.

Lemma shift_right_register (result left right temp : Register) (limit : bool)
    (x y : Z) (s : State) :
  is_allocatable result = true -> is_allocatable left = true ->
  is_allocatable right = true -> is_allocatable temp = true ->
  IsSmiValue x -> IsSmiValue y -> 0 <= y -> (limit = false -> y <= 63) ->
  get_reg s left = RawValue x -> get_reg s right = RawValue y ->
  exists s' : State,
    run ([Asr TMP right kSmiTagSize]
         ++ (if limit
             then [ LoadImmediate TMP2 63; CompareRegisters TMP TMP2;
                    csel TMP TMP2 TMP GT ]
             else [])
         ++ [ Asr temp left kSmiTagSize; asrv result temp TMP; SmiTag result ])
      None s = Fallthrough s' /\
    get_reg s' result = RawValue (Z.shiftr x y).
Proof.
  intros Har Hal Harr Hat Hx Hy H0 Hlim Hl Hr. reg_facts.
  assert (Hcount : forall n, 0 <= n <= 63 -> Z.shiftr x n = Z.shiftr x y ->
            shift64 LSL (shift64 ASR (wrap x) (wrap (wrap n) mod 64)) kSmiTagSize
            = RawValue (Z.shiftr x y)).
  { intros n Hn E. rewrite wrap_wrap, (wrap_small n) by lia.
    rewrite Z.mod_small by lia. rewrite asr_smi by assumption.
    rewrite E. apply smi_tag_wrap. }
  destruct limit; cbn [app]; (eexists; split; [reflexivity |]); machine;
    rewrite ?Hl, ?Hr, !asr_RawValue by assumption.
  - rewrite saturated_count by assumption.
    destruct (Z.ltb_spec 63 y).
    + apply (Hcount 63); [lia |].
      rewrite !shiftr_sign by (assumption || lia). reflexivity.
    + apply (Hcount y); [lia | reflexivity].
  - specialize (Hlim eq_refl). apply (Hcount y); [lia | reflexivity].
Qed.

(** X7.  A shift to the right of a tagged small integer [x] by [y], a
    register or an immediate constant: a negative count takes the guard;
    otherwise the code falls through with [x >> y], tagged, in the result
    register, a count beyond the word size giving the sign of [x].  The
    result is always a small integer. *)
Theorem BinarySmiOp_shift_right :
  forall (compiler : FlowGraphCompiler) (this : BinarySmiOpInstr)
         (left result : Register) (right_loc : Location)
         (tmps : list Location) (live : RegisterSet)
         (x y : Z) (s : State),
    op_kind this = kSHR ->
    CanDeoptimize this = true ->
    is_truncating this = false ->
    bs_locs this =
      mkLocationSummary [RegisterLocation left; right_loc] tmps
        (RegisterLocation result) live ->
    (IsConstant right_loc = false ->
     exists (temp : Register) (rest : list Location),
       tmps = RegisterLocation temp :: rest /\ is_allocatable temp = true) ->
    FLAG_throw_on_javascript_int_overflow compiler = false ->
    IsSmiValue x -> IsSmiValue y ->
    holds_smi s (RegisterLocation left) x ->
    holds_smi s right_loc y ->
    range_admits (right_range this) y ->
    is_allocatable result = true ->
    exists (code : Code) (s' : State),
      BinarySmiOpInstr_EmitNativeCode compiler this = Some code /\
      run code None s =
        (if y <? 0
         then Jump (DeoptStub (deopt_id this) kDeoptBinarySmiOp) s'
         else Fallthrough s') /\
      (0 <= y ->
       get_reg s' result = RawValue (Z.shiftr x y) /\ IsSmiValue (Z.shiftr x y)).
Proof.
  intros compiler this left result right_loc tmps live x y s
         Hop Hdeopt Htrunc Hlocs Htemp Hflag Hx Hy [Hal Hl] Hr Hrange Har.
  unfold BinarySmiOpInstr_EmitNativeCode.
  rewrite Hop, Htrunc, Hlocs, Hdeopt.
  cbn [Token_Kind_eqb ASSERT negb obind in_ nth_error inputs output out reg].
  destruct right_loc as [right | | c | |]; try contradiction.
  - destruct Hr as [Hari Hr].
    destruct (Htemp eq_refl) as (temp & rest & -> & Hat).
    cbn [IsConstant constant reg obind b_cond_deopt temp_ temps nth_error].
    rewrite (javascript_overflow_check_off compiler _ _ _ Hflag). cbn [obind].
    rewrite app_nil_r.
    set (limit := needs_check (right_range this) kMinusInfinity (Finite 63)).
    change (if limit then ?a else ?b) with (if limit then a else b).
    destruct (Z.ltb_spec y 0) as [Hneg | Hpos].
    + do 2 eexists. split; [reflexivity |]. split; [| intros; lia].
      cbn [app run step operand_value]. unfold set_flags_of.
      cbn [flags with_flags]. rewrite get_reg_ZR, Hr, (smi_negative_LT y Hy).
      destruct (Z.ltb_spec y 0); [| lia].
      clearbody limit. destruct limit; reflexivity.
    + destruct (shift_right_register result left right temp limit x y
                  (with_flags (snd (sub_flags (RawValue y) 0)) s)
                  Har Hal Hari Hat Hx Hy Hpos) as (s' & Hrun & Hres);
        [ intros E; now apply (range_admits_upper (right_range this)) | exact Hl
        | exact Hr |].
      exists ([CompareRegisters right ZR;
               b_cond (DeoptStub (deopt_id this) kDeoptBinarySmiOp) LT] ++
              [Asr TMP right kSmiTagSize] ++
              (if limit
               then [LoadImmediate TMP2 63; CompareRegisters TMP TMP2;
                     csel TMP TMP2 TMP GT]
               else []) ++
              [Asr temp left kSmiTagSize; asrv result temp TMP; SmiTag result]), s'.
      split; [reflexivity |]. split.
      * rewrite <- Hrun. cbn [app run step operand_value]. unfold set_flags_of.
        rewrite get_reg_ZR, Hr.
        cbn [flags with_flags]. rewrite (smi_negative_LT y Hy).
        destruct (Z.ltb_spec y 0); [lia |]. reflexivity.
      * intros _. split; [exact Hres | now apply shiftr_is_smi].
  - destruct c as [c | | | | |]; try contradiction.
    cbn [holds_smi] in Hr. subst c.
    cbn [IsConstant constant reg obind Smi_raw Smi_Value b_deopt].
    rewrite (javascript_overflow_check_off compiler _ _ _ Hflag).
    reg_facts.
    destruct (Z.eqb_spec y 0) as [-> | Hnz]; cbn [obind app].
    + do 2 eexists. split; [reflexivity |]. split; [reflexivity |].
      intros _. rewrite Z.shiftr_0_r. split; [| exact Hx].
      machine. exact Hl.
    + destruct (Z.ltb_spec y 0); cbn [obind app].
      * do 2 eexists. split; [reflexivity |]. split; [reflexivity |]. intros; lia.
      * do 2 eexists. split; [reflexivity |]. split; [reflexivity |].
        intros _. split; [| apply shiftr_is_smi; [assumption | lia]].
        machine. rewrite Hl, asr_tagged_constant by (assumption || lia).
        apply smi_tag_wrap.
Qed.

End ShiftRight.

Section DivisionByConstant.

Local Arguments wrap : simpl never.
Local Arguments signed : simpl never.
Local Arguments RawValue : simpl never.
Local Arguments shift64 : simpl never.
Local Arguments get_reg : simpl never.
Local Arguments set_reg : simpl never.
Local Arguments sub_flags : simpl never.
Local Arguments Z.shiftr : simpl never.
Local Arguments Z.shiftl : simpl never.
Local Arguments Z.pow : simpl never.
Local Arguments Z.land : simpl never.
Local Arguments Z.log2 : simpl never.
Local Arguments Z.quot : simpl never.

(** ** Truncating division by a constant *)

Lemma IsPowerOfTwo_pow2 (k : Z) : 0 <= k -> Utils_IsPowerOfTwo (2 ^ k) = true.
Proof.
  intros Hk. unfold Utils_IsPowerOfTwo.
  assert (Hp : 0 < 2 ^ k) by (apply Z.pow_pos_nonneg; lia).
  replace (2 ^ k - 1) with (Z.ones k) by (rewrite Z.ones_equiv; lia).
  rewrite Z.land_ones, Z.mod_same by lia.
  destruct (Z.eqb_spec (2 ^ k) 0); [lia | reflexivity].
Qed.

(** The sign mask shifted down to the low [n] bits: the bias that turns the
    arithmetic shift into a division rounding towards zero. *)
Lemma sign_bias (x n : Z) :
  IsSmiValue x -> 0 < n <= 63 ->
  shift64 LSR (shift64 ASR (RawValue x) 63) (64 - n)
  = if x <? 0 then 2 ^ n - 1 else 0.
Proof.
  intros Hx Hn. rewrite asr_63, signed_RawValue by assumption.
  unfold shift64.
  destruct (Z.ltb_spec (x * 2) 0); destruct (Z.ltb_spec x 0); try lia.
  - rewrite wrap_small by lia. rewrite Z.shiftr_div_pow2 by lia.
    assert (Hp : 2 ^ 64 = 2 ^ (64 - n) * 2 ^ n)
      by (rewrite <- Z.pow_add_r by lia; f_equal; lia).
    assert (H1 : 0 < 2 ^ (64 - n)) by (apply Z.pow_pos_nonneg; lia).
    assert (H2 : 0 < 2 ^ n) by (apply Z.pow_pos_nonneg; lia).
    apply div_unique_range; [exact H1 |].
    set (d := 2 ^ (64 - n)) in *. set (e := 2 ^ n) in *. clearbody d e. nia.
  - rewrite wrap_small by lia. apply Z.shiftr_0_l.
Qed.

Lemma biased_shift (x k : Z) :
  IsSmiValue x -> 1 <= k <= 62 ->
  Z.shiftr (x * 2 + (if x <? 0 then 2 ^ (k + 1) - 1 else 0)) (k + 1)
  = Z.quot x (2 ^ k).
Proof.
  intros Hx Hk. rewrite Z.shiftr_div_pow2 by lia.
  assert (Hd : 0 < 2 ^ k) by (apply Z.pow_pos_nonneg; lia).
  replace (2 ^ (k + 1)) with (2 * 2 ^ k)
    by (rewrite <- Z.pow_succ_r by lia; f_equal; lia).
  destruct (quot_rem_facts x (2 ^ k) ltac:(lia)) as (E & B & Hpos & Hneg).
  set (d := 2 ^ k) in *. set (q := Z.quot x d) in *. set (r := Z.rem x d) in *.
  clearbody d q r.
  apply div_unique_range; [lia |].
  destruct (Z.ltb_spec x 0).
  - specialize (Hneg ltac:(lia)). nia.
  - specialize (Hpos ltac:(lia)). nia.
Qed.

Lemma power_bound (c k : Z) : IsSmiValue c -> 0 <= k -> Z.abs c = 2 ^ k -> k <= 62.
Proof.
  unfold IsSmiValue, kSmiMin, kSmiMax. intros Hc Hk E.
  destruct (Z.le_gt_cases k 62) as [| Hgt]; [assumption | exfalso].
  assert (2 ^ 63 <= 2 ^ k) by (apply Z.pow_le_mono_r; lia). lia.
Qed.

Lemma min_smi_EQ (x : Z) :
  IsSmiValue x ->
  ConditionHolds EQ (snd (sub_flags (RawValue x) 9223372036854775808))
  = (x =? kSmiMin).
Proof.
  intros Hx. rewrite sub_flags_EQ.
  unfold IsSmiValue, kSmiMin, kSmiMax, RawValue in *.
  abstract_words. case_tests; first [reflexivity | lia].
Qed.

(** X8.  Truncating division of a tagged small integer by a constant plus or
    minus a power of two is emitted without a divide.  Division by 1 copies
    the dividend; division by -1 takes the guard for the minimum small
    integer and negates otherwise; for the other powers the biased
    arithmetic shift leaves the quotient rounded towards zero.  The result
    is tagged and a small integer. *)
Theorem BinarySmiOp_truncdiv_constant :
  forall (compiler : FlowGraphCompiler) (this : BinarySmiOpInstr)
         (left result : Register) (tmps : list Location) (live : RegisterSet)
         (x c k : Z) (s : State),
    op_kind this = kTRUNCDIV ->
    CanDeoptimize this = true ->
    is_truncating this = false ->
    bs_locs this =
      mkLocationSummary [RegisterLocation left; Constant (Smi c)] tmps
        (RegisterLocation result) live ->
    FLAG_throw_on_javascript_int_overflow compiler = false ->
    IsSmiValue x -> IsSmiValue c ->
    0 <= k -> Z.abs c = 2 ^ k ->
    holds_smi s (RegisterLocation left) x ->
    is_allocatable result = true ->
    exists (code : Code) (s' : State),
      BinarySmiOpInstr_EmitNativeCode compiler this = Some code /\
      run code None s =
        (if (c =? -1) && (x =? kSmiMin)
         then Jump (DeoptStub (deopt_id this) kDeoptBinarySmiOp) s'
         else Fallthrough s') /\
      ((c =? -1) && (x =? kSmiMin) = false ->
       get_reg s' result = RawValue (Z.quot x c) /\ IsSmiValue (Z.quot x c)).
Proof.
  intros compiler this left result tmps live x c k s
         Hop Hdeopt Htrunc Hlocs Hflag Hx Hc Hk Habs [Hal Hl] Har.
  assert (Hcnz : c <> 0).
  { assert (0 < 2 ^ k) by (apply Z.pow_pos_nonneg; lia). lia. }
  assert (Hsmi : (c =? -1) && (x =? kSmiMin) = false -> IsSmiValue (Z.quot x c)).
  { intros E. apply quot_is_smi; [assumption | assumption |].
    intros [-> ->]. discriminate E. }
  unfold BinarySmiOpInstr_EmitNativeCode.
  rewrite Hop, Htrunc, Hlocs, Hdeopt.
  cbn [Token_Kind_eqb ASSERT negb obind in_ nth_error inputs output out reg
       IsConstant constant Smi_raw Smi_Value b_cond_deopt].
  rewrite (javascript_overflow_check_off compiler _ _ _ Hflag).
  reg_facts.
  destruct (Z.eqb_spec c 1) as [-> | Hn1]; cbn [obind app andb].
  { do 2 eexists. split; [reflexivity |]. split; [reflexivity |].
    intros E. split; [| now apply Hsmi].
    machine. rewrite Z.quot_1_r. exact Hl. }
  destruct (Z.eqb_spec c (-1)) as [-> | Hnm1]; cbn [obind app andb].
  { pose proof (min_smi_EQ x Hx) as Hmin.
    destruct (x =? kSmiMin) eqn:Emin;
      (do 2 eexists; split; [reflexivity |]; split;
       [ cbn [run step]; unfold set_flags_of; cbn [flags with_flags];
         rewrite Hl, Hmin; reflexivity |]).
    - discriminate.
    - intros E. split; [| now apply Hsmi].
      machine. rewrite Hl.
      change (-1) with (- (1)). rewrite Z.quot_opp_r, Z.quot_1_r by lia.
      unfold RawValue. words. }
  assert (Hk1 : 1 <= k).
  { destruct (Z.eq_dec k 0) as [-> |]; [| lia]. change (2 ^ 0) with 1 in Habs. lia. }
  pose proof (power_bound c k Hc Hk Habs) as Hk62.
  rewrite Habs, (IsPowerOfTwo_pow2 k Hk). unfold Utils_ShiftForPowerOfTwo.
  rewrite Z.log2_pow2 by assumption.
  unfold kSmiTagSize at 1 2.
  destruct (Z.ltb_spec 1 (k + 1)); [| lia]. cbn [ASSERT obind].
  assert (Hbody :
            shift64 ASR
              (wrap (RawValue x +
                     shift64 LSR (shift64 ASR (RawValue x) 63) (64 - (k + 1))))
              (k + 1)
            = wrap (Z.quot x (2 ^ k))).
  { rewrite sign_bias by (assumption || lia).
    unfold shift64. rewrite signed_wrap. f_equal.
    rewrite <- (biased_shift x k) by (assumption || lia). f_equal.
    assert (Hb : 0 < 2 ^ (k + 1) <= 2 ^ 63).
    { split; [apply Z.pow_pos_nonneg; lia | apply Z.pow_le_mono_r; lia]. }
    unfold IsSmiValue, kSmiMin, kSmiMax in Hx.
    destruct (Z.ltb_spec x 0); unfold RawValue; words. }
  destruct (Z.ltb_spec c 0) as [Hneg | Hpos]; cbn [app];
    (do 2 eexists; split; [reflexivity |]; split; [reflexivity |];
     intros E; split; [| now apply Hsmi]);
    machine; change (k + kSmiTagSize) with (k + 1); rewrite Hl, Hbody.
  - replace c with (- 2 ^ k) by lia. rewrite Z.quot_opp_r by lia.
    rewrite <- smi_tag_wrap. f_equal. words.
  - replace c with (2 ^ k) by lia. apply smi_tag_wrap.
Qed.

End DivisionByConstant.

Section ShiftLeft.

Local Arguments wrap : simpl never.
Local Arguments signed : simpl never.
Local Arguments RawValue : simpl never.
Local Arguments shift64 : simpl never.
Local Arguments get_reg : simpl never.
Local Arguments set_reg : simpl never.
Local Arguments sub_flags : simpl never.
Local Arguments Z.shiftr : simpl never.
Local Arguments Z.shiftl : simpl never.
Local Arguments Z.pow : simpl never.
Local Arguments Z.mul : simpl never.

(** ** Shifts to the left *)

Lemma lsl_raw (x n : Z) :
  0 <= n -> shift64 LSL (RawValue x) n = RawValue (x * 2 ^ n).
Proof.
  intros Hn. unfold shift64. rewrite Z.shiftl_mul_pow2 by assumption.
  unfold RawValue. rewrite wrap_wrap, wrap_mul_l. f_equal. lia.
Qed.

(** Shifting back: the tagged operand is recovered exactly when the shifted
    value is still a small integer. *)
Lemma shl_overflow_NE (x n : Z) :
  IsSmiValue x -> 0 <= n < 63 ->
  ConditionHolds NE
    (snd (sub_flags (RawValue x) (shift64 ASR (RawValue (x * 2 ^ n)) n)))
  = negb (is_smi_value (x * 2 ^ n)).
Proof.
  intros Hx Hn. rewrite sub_flags_NE. f_equal.
  unfold shift64. rewrite wrap_wrap, Z.shiftr_div_pow2 by lia.
  assert (Hd : 0 < 2 ^ n) by (apply Z.pow_pos_nonneg; lia).
  assert (He : 0 < 2 ^ (63 - n)) by (apply Z.pow_pos_nonneg; lia).
  assert (Hde : 2 ^ n * 2 ^ (63 - n) = 2 ^ 63)
    by (rewrite <- Z.pow_add_r by lia; f_equal; lia).
  unfold RawValue at 2. rewrite signed_wrap.
  destruct (signed_spec (x * 2 ^ n * 2)) as (j & Ej & Rj).
  set (sp := signed (x * 2 ^ n * 2)) in *. clearbody sp.
  pose proof (Z.div_mod sp (2 ^ n) ltac:(lia)) as D.
  pose proof (Z.mod_pos_bound sp (2 ^ n) Hd) as M.
  set (v := sp / 2 ^ n) in *. set (r := sp mod 2 ^ n) in *.
  set (d := 2 ^ n) in *. set (e := 2 ^ (63 - n)) in *.
  clearbody v r d e.
  assert (Hv : - e <= v < e) by nia.
  assert (He63 : e <= 2 ^ 63) by nia.
  unfold is_smi_value, IsSmiValue, kSmiMin, kSmiMax, RawValue in *.
  rewrite wrap_wrap.
  destruct (wrap_spec (x * 2)) as (k1 & E1 & R1).
  destruct (wrap_spec v) as (k2 & E2 & R2).
  set (w1 := wrap (x * 2)) in *. set (w2 := wrap v) in *. clearbody w1 w2.
  assert (Heq : w1 = w2 <-> x * 2 = v) by lia.
  destruct (Z.eqb_spec w1 w2) as [Ew | Ew].
  - apply Heq in Ew. subst v.
    assert (Hfit : - 2 ^ 63 <= x * d * 2 < 2 ^ 63) by nia.
    destruct (Z.leb_spec (- 2 ^ 62) (x * d)); destruct (Z.leb_spec (x * d) (2 ^ 62 - 1));
      cbn [andb]; first [reflexivity | lia].
  - assert (Hne : x * 2 <> v) by (intros E; apply Ew; now apply Heq).
    destruct (Z.leb_spec (- 2 ^ 62) (x * d)); destruct (Z.leb_spec (x * d) (2 ^ 62 - 1));
      cbn [andb]; try reflexivity.
    exfalso. apply Hne.
    assert (j = 0) by lia. subst j.
    assert (sp = x * d * 2) by lia. nia.
Qed.

Lemma shift_left_checked (result left : Register) (deopt : Label) (x c : Z)
    (s : State) :
  is_allocatable result = true -> is_allocatable left = true ->
  IsSmiValue x -> 0 <= c < 63 ->
  get_reg s left = RawValue x ->
  exists s' : State,
    run [ Lsl TMP left c; cmp left (Shifted TMP ASR c); b_cond deopt NE;
          Lsl result left c ] None s
    = (if is_smi_value (x * 2 ^ c) then Fallthrough s' else Jump deopt s') /\
    (is_smi_value (x * 2 ^ c) = true -> get_reg s' result = RawValue (x * 2 ^ c)).
Proof.
  intros Har Hal Hx Hc Hl. reg_facts.
  pose proof (shl_overflow_NE x c Hx Hc) as Hne.
  destruct (is_smi_value (x * 2 ^ c)) eqn:Ev;
    (eexists; split;
     [ cbn [run step]; machine; rewrite ?Hl, ?lsl_raw, ?Hne by lia; reflexivity |]).
  - intros _. machine. rewrite Hl. apply lsl_raw. lia.
  - discriminate.
Qed.

(** X9.  A shift to the left of a tagged small integer by a constant count
    [c].  Checked: a count of zero copies the operand; a negative count or
    one of 63 and more takes the guard; otherwise the guard is taken exactly
    when [x * 2^c] is not a small integer, and the result register receives
    that value tagged.  Truncating: a negative count takes the guard, and
    every other count leaves the tagged operand times [2^c] modulo 2^64,
    which is zero from 63 on. *)
Theorem EmitSmiShiftLeft_constant :
  forall (compiler : FlowGraphCompiler) (this : BinarySmiOpInstr)
         (left result : Register) (tmps : list Location) (live : RegisterSet)
         (x c : Z) (s : State),
    op_kind this = kSHL ->
    CanDeoptimize this = true ->
    bs_locs this =
      mkLocationSummary [RegisterLocation left; Constant (Smi c)] tmps
        (RegisterLocation result) live ->
    FLAG_throw_on_javascript_int_overflow compiler = false ->
    IsSmiValue x ->
    holds_smi s (RegisterLocation left) x ->
    is_allocatable result = true ->
    let deopt := DeoptStub (deopt_id this) kDeoptBinarySmiOp in
    let guard :=
      if is_truncating this then c <? 0
      else (c <? 0) || (63 <=? c) || negb (is_smi_value (x * 2 ^ c)) in
    exists (code : Code) (s' : State),
      BinarySmiOpInstr_EmitNativeCode compiler this = Some code /\
      run code None s = (if guard then Jump deopt s' else Fallthrough s') /\
      (guard = false -> get_reg s' result = RawValue (x * 2 ^ c)).
Proof.
  intros compiler this left result tmps live x c s
         Hop Hdeopt Hlocs Hflag Hx [Hal Hl] Har deopt guard.
  unfold BinarySmiOpInstr_EmitNativeCode. rewrite Hop. cbn [Token_Kind_eqb].
  unfold EmitSmiShiftLeft. rewrite Hlocs, Hdeopt.
  cbn [obind in_ nth_error inputs output out reg IsConstant constant Smi_Value
       b_deopt b_cond_deopt].
  rewrite (javascript_overflow_check_off compiler _ _ _ Hflag).
  fold deopt. subst guard.
  destruct (Z.eqb_spec c 0) as [-> | Hnz]; cbn [obind app].
  { change (0 <? 0) with false. change (63 <=? 0) with false.
    change (2 ^ 0) with 1. rewrite Z.mul_1_r.
    assert (Ev : is_smi_value x = true) by now apply is_smi_value_spec.
    rewrite Ev. cbn [orb negb].
    assert (Hreg : forall s0, get_reg s0 left = RawValue x ->
              get_reg (set_reg result (get_reg s0 left) s0) result = RawValue x).
    { intros s0 E. reg_facts. now rewrite get_set_reg_eq. }
    destruct (is_truncating this);
      (do 2 eexists; split; [reflexivity |]; split; [reflexivity |]);
      intros _; now apply Hreg. }
  destruct (Z.ltb_spec c 0) as [Hneg | Hpos]; cbn [orb andb].
  { destruct (63 <=? c) eqn:E63; [apply Z.leb_le in E63; lia |]. cbn [andb obind app].
    destruct (is_truncating this);
      (do 2 eexists; split; [reflexivity |]; split; [reflexivity |]); discriminate. }
  destruct (Z.leb_spec 63 c) as [Hbig | Hsmall]; cbn [orb andb].
  { destruct (is_truncating this); cbn [obind app];
      (do 2 eexists; split; [reflexivity |]; split; [reflexivity |]);
      try discriminate.
    intros _. reg_facts. machine.
    unfold RawValue. symmetry.
    assert (E : x * 2 ^ c * 2 = (x * 2 ^ (c - 63)) * 2 ^ 64).
    { replace (2 ^ c) with (2 ^ (c - 63) * 2 ^ 63)
        by (rewrite <- Z.pow_add_r by lia; f_equal; lia).
      change (2 ^ 64) with (2 ^ 63 * 2). lia. }
    rewrite E. unfold wrap. apply Z.mod_mul. discriminate. }
  destruct (is_truncating this); cbn [negb obind app].
  - do 2 eexists. split; [reflexivity |]. split; [reflexivity |].
    intros _. reg_facts. machine. rewrite Hl. apply lsl_raw. lia.
  - destruct (shift_left_checked result left deopt x c s Har Hal Hx ltac:(lia) Hl)
      as (s' & Hrun & Hres).
    exists [Lsl TMP left c; cmp left (Shifted TMP ASR c); b_cond deopt NE;
            Lsl result left c], s'.
    split; [reflexivity |]. rewrite Hrun.
    destruct (is_smi_value (x * 2 ^ c)); cbn [negb].
    + split; [reflexivity |]. intros _. now apply Hres.
    + split; [reflexivity |]. discriminate.
Qed.

End ShiftLeft.

Section ShiftLeftByRegister.

Local Arguments wrap : simpl never.
Local Arguments signed : simpl never.
Local Arguments RawValue : simpl never.
Local Arguments shift64 : simpl never.
Local Arguments get_reg : simpl never.
Local Arguments set_reg : simpl never.
Local Arguments sub_flags : simpl never.
Local Arguments Z.shiftr : simpl never.
Local Arguments Z.shiftl : simpl never.
Local Arguments Z.pow : simpl never.
Local Arguments Z.mul : simpl never.

Lemma range_admits_within (r : option Range) (y lo hi : Z) :
  range_admits r y -> needs_check r (Finite lo) (Finite hi) = false -> lo <= y <= hi.
Proof.
  destruct r as [rr |]; cbn [range_admits needs_check]; [| discriminate].
  unfold range_contains, IsWithin. intros H1 H2.
  apply negb_false_iff in H2.
  apply andb_true_iff in H1 as [H1 H1']. apply andb_true_iff in H2 as [H2 H2'].
  destruct (range_min rr), (range_max rr); cbn [boundary_le] in *; try discriminate.
  apply Z.leb_le in H1, H1', H2, H2'. lia.
Qed.

Lemma count_out_of_range_CS (y : Z) :
  IsSmiValue y ->
  ConditionHolds CS (snd (sub_flags (RawValue y) (RawValue kSmiBits)))
  = (y <? 0) || (62 <=? y).
Proof.
  intros Hy. rewrite sub_flags_CS.
  unfold IsSmiValue, kSmiMin, kSmiMax, RawValue, kSmiBits in *.
  abstract_words. case_tests; cbn [orb]; first [reflexivity | lia].
Qed.

Lemma shift_left_by_register (result left right temp : Register) (deopt : Label)
    (x y : Z) (s : State) :
  is_allocatable result = true -> is_allocatable left = true ->
  is_allocatable right = true -> is_allocatable temp = true ->
  temp <> left ->
  IsSmiValue x -> 0 <= y < 62 ->
  get_reg s left = RawValue x -> get_reg s right = RawValue y ->
  exists s' : State,
    run [ Asr TMP right kSmiTagSize; lslv temp left TMP; asrv TMP2 temp TMP;
          CompareRegisters left TMP2; b_cond deopt NE; lslv result left TMP ] None s
    = (if is_smi_value (x * 2 ^ y) then Fallthrough s' else Jump deopt s') /\
    (is_smi_value (x * 2 ^ y) = true -> get_reg s' result = RawValue (x * 2 ^ y)).
Proof.
  intros Har Hal Harr Hat Htl Hx Hy Hl Hr.
  assert (Hys : IsSmiValue y) by (unfold IsSmiValue, kSmiMin, kSmiMax; lia).
  assert (Hcount : wrap (wrap y) mod 64 = y).
  { rewrite wrap_wrap, wrap_small by lia. apply Z.mod_small. lia. }
  reg_facts.
  pose proof (shl_overflow_NE x y Hx ltac:(lia)) as Hovf.
  destruct (is_smi_value (x * 2 ^ y)) eqn:Ev;
    (eexists; split;
     [ cbn [run step]; machine;
       rewrite ?Hl, ?Hr, ?asr_RawValue, ?Hcount, ?lsl_raw, ?Hovf by (assumption || lia);
       reflexivity |]).
  - intros _. machine.
    rewrite ?Hl, ?Hr, ?asr_RawValue, ?Hcount by assumption. apply lsl_raw. lia.
  - discriminate.
Qed.

Lemma count_check_run (right : Register) (deopt : Label) (rest : Code) (y : Z)
    (s : State) :
  IsSmiValue y -> get_reg s right = RawValue y ->
  run ([CompareImmediate right (RawValue kSmiBits); b_cond deopt CS] ++ rest) None s
  = let s1 := with_flags (snd (sub_flags (RawValue y) (RawValue kSmiBits))) s in
    if (y <? 0) || (62 <=? y) then run rest (Some deopt) s1 else run rest None s1.
Proof.
  intros Hy Hr. cbn [app]. rewrite run_cons. cbn [step]. unfold set_flags_of.
  rewrite run_cons. cbn [step flags with_flags].
  rewrite Hr, (count_out_of_range_CS y Hy).
  destruct ((y <? 0) || (62 <=? y)); reflexivity.
Qed.

(** X10.  A checked shift to the left of a tagged small integer [x] by the
    count [y] in a register, the left operand not a known constant.  The
    guard is taken when the count is negative or 62 and more, and otherwise
    exactly when [x * 2^y] is not a small integer; when control falls
    through, the result register holds that value tagged. *)
Theorem EmitSmiShiftLeft_register :
  forall (compiler : FlowGraphCompiler) (this : BinarySmiOpInstr)
         (left right result temp : Register) (tmps : list Location)
         (live : RegisterSet) (x y : Z) (s : State),
    op_kind this = kSHL ->
    CanDeoptimize this = true ->
    is_truncating this = false ->
    left_BoundConstant this = None ->
    bs_locs this =
      mkLocationSummary [RegisterLocation left; RegisterLocation right]
        (RegisterLocation temp :: tmps) (RegisterLocation result) live ->
    FLAG_throw_on_javascript_int_overflow compiler = false ->
    IsSmiValue x -> IsSmiValue y ->
    holds_smi s (RegisterLocation left) x ->
    holds_smi s (RegisterLocation right) y ->
    range_admits (right_range this) y ->
    is_allocatable result = true ->
    is_allocatable temp = true ->
    temp <> left ->
    let deopt := DeoptStub (deopt_id this) kDeoptBinarySmiOp in
    let guard := (y <? 0) || (62 <=? y) || negb (is_smi_value (x * 2 ^ y)) in
    exists (code : Code) (s' : State),
      BinarySmiOpInstr_EmitNativeCode compiler this = Some code /\
      run code None s = (if guard then Jump deopt s' else Fallthrough s') /\
      (guard = false -> get_reg s' result = RawValue (x * 2 ^ y)).
Proof.
  intros compiler this left right result temp tmps live x y s
         Hop Hdeopt Htrunc Hleft Hlocs Hflag Hx Hy [Hal Hl] [Harr Hr] Hrange
         Har Hat Htl deopt guard.
  unfold BinarySmiOpInstr_EmitNativeCode. rewrite Hop. cbn [Token_Kind_eqb].
  unfold EmitSmiShiftLeft. rewrite Hlocs, Hdeopt, Htrunc, Hleft.
  cbn [obind in_ nth_error inputs output out reg IsConstant constant
       b_deopt b_cond_deopt temp_ temps ASSERT].
  rewrite (javascript_overflow_check_off compiler _ _ _ Hflag).
  fold deopt. subst guard.
  change (kSmiBits - 1) with 61.
  destruct (needs_check (right_range this) (Finite 0) (Finite 61)) eqn:Enc;
    cbn [obind ASSERT].
  - destruct ((y <? 0) || (62 <=? y)) eqn:Eout; cbn [orb].
    + do 2 eexists. split; [reflexivity |]. split; [| discriminate].
      rewrite app_nil_r.
      rewrite (count_check_run right deopt _ y s Hy Hr). cbn zeta. rewrite Eout.
      reflexivity.
    + pose proof Eout as Eout'. apply orb_false_iff in Eout' as [E1 E2].
      apply Z.ltb_ge in E1. apply Z.leb_gt in E2.
      destruct (shift_left_by_register result left right temp deopt x y
                  (with_flags (snd (sub_flags (RawValue y) (RawValue kSmiBits))) s)
                  Har Hal Harr Hat Htl Hx ltac:(lia) Hl Hr) as (s' & Hrun & Hres).
      eexists. exists s'. split; [reflexivity |]. split.
      * rewrite app_nil_r.
        rewrite (count_check_run right deopt _ y s Hy Hr). cbn zeta.
        rewrite Eout, Hrun.
        destruct (is_smi_value (x * 2 ^ y)); reflexivity.
      * intros E. apply Hres. now apply negb_false_iff in E.
  - pose proof (range_admits_within _ _ _ _ Hrange Enc) as Hb.
    destruct (Z.ltb_spec y 0); [lia |]. destruct (Z.leb_spec 62 y); [lia |].
    cbn [orb app].
    destruct (shift_left_by_register result left right temp deopt x y s
                Har Hal Harr Hat Htl Hx ltac:(lia) Hl Hr) as (s' & Hrun & Hres).
    eexists. exists s'. split; [reflexivity |]. split.
    + rewrite Hrun. destruct (is_smi_value (x * 2 ^ y)); reflexivity.
    + intros E. apply Hres. now apply negb_false_iff in E.
Qed.

End ShiftLeftByRegister.

Section TruncatingShiftLeft.

Local Arguments wrap : simpl never.
Local Arguments signed : simpl never.
Local Arguments RawValue : simpl never.
Local Arguments shift64 : simpl never.
Local Arguments get_reg : simpl never.
Local Arguments set_reg : simpl never.
Local Arguments sub_flags : simpl never.
Local Arguments Z.shiftr : simpl never.
Local Arguments Z.shiftl : simpl never.
Local Arguments Z.pow : simpl never.
Local Arguments Z.mul : simpl never.

Lemma range_admits_lower (r : option Range) (y lo : Z) :
  range_admits r y -> needs_check r (Finite lo) kPlusInfinity = false -> lo <= y.
Proof.
  destruct r as [rr |]; cbn [range_admits needs_check]; [| discriminate].
  unfold range_contains, IsWithin. intros H1 H2.
  apply negb_false_iff in H2.
  apply andb_true_iff in H1 as [H1 _]. apply andb_true_iff in H2 as [H2 _].
  destruct (range_min rr); cbn [boundary_le] in H1, H2; try discriminate.
  apply Z.leb_le in H1, H2. lia.
Qed.

Lemma smi_negative_MI (y : Z) :
  IsSmiValue y ->
  ConditionHolds MI (snd (sub_flags (RawValue y) 0)) = (y <? 0).
Proof.
  unfold IsSmiValue, kSmiMin, kSmiMax, RawValue. intros Hy.
  unfold sub_flags, AddWithCarry, lnot64, ConditionHolds, flag_n, snd, b2z.
  flags_arith.
Qed.

(** The selecting sequence of the truncating shift. *)
Lemma truncating_shift_body (result left right : Register) (x y : Z) (s : State) :
  is_allocatable result = true -> is_allocatable left = true ->
  is_allocatable right = true ->
  left <> result -> right <> result ->
  IsSmiValue x -> IsSmiValue y -> 0 <= y ->
  get_reg s left = RawValue x -> get_reg s right = RawValue y ->
  exists s' : State,
    run [ CompareImmediate right (RawValue kSmiBits);
          csel result ZR result CS;
          Asr TMP right kSmiTagSize;
          lslv TMP left TMP;
          csel result TMP result CC ] None s = Fallthrough s' /\
    get_reg s' result = if y <? 62 then RawValue (x * 2 ^ y) else 0.
Proof.
  intros Har Hal Harr Hlr Hrr Hx Hy H0 Hl Hr. reg_facts.
  eexists. split; [cbn [run step]; reflexivity |].
  machine. rewrite Hr, Hl. rewrite ConditionHolds_CC.
  rewrite (count_out_of_range_CS y Hy).
  destruct (Z.ltb_spec y 0); [lia |]. cbn [orb].
  destruct (Z.leb_spec 62 y); destruct (Z.ltb_spec y 62); try lia; cbn [negb].
  - reflexivity.
  - rewrite asr_RawValue by assumption.
    rewrite wrap_wrap, wrap_small by lia. rewrite Z.mod_small by lia.
    apply lsl_raw. assumption.
Qed.

(** X11.  A truncating shift to the left of a tagged small integer [x] by
    the count [y] in a register.  A negative count takes the guard.  For a
    count from 0 to 61 the result register holds the tagged operand times
    [2^y] modulo 2^64; for a count of 62 and more it holds zero.  When the
    range of the count is known to lie within 0 and 61 the shift is emitted
    alone, without compare or select. *)
Theorem EmitSmiShiftLeft_truncating_register :
  forall (compiler : FlowGraphCompiler) (this : BinarySmiOpInstr)
         (left right result : Register) (tmps : list Location)
         (live : RegisterSet) (x y : Z) (s : State),
    op_kind this = kSHL ->
    CanDeoptimize this = true ->
    is_truncating this = true ->
    bs_locs this =
      mkLocationSummary [RegisterLocation left; RegisterLocation right] tmps
        (RegisterLocation result) live ->
    FLAG_throw_on_javascript_int_overflow compiler = false ->
    IsSmiValue x -> IsSmiValue y ->
    holds_smi s (RegisterLocation left) x ->
    holds_smi s (RegisterLocation right) y ->
    range_admits (right_range this) y ->
    is_allocatable result = true ->
    output_distinct result [RegisterLocation left; RegisterLocation right] ->
    exists (code : Code) (s' : State),
      BinarySmiOpInstr_EmitNativeCode compiler this = Some code /\
      (needs_check (right_range this) (Finite 0) (Finite 61) = false ->
       existsb compares code = false /\ existsb transfers_control code = false) /\
      run code None s =
        (if y <? 0
         then Jump (DeoptStub (deopt_id this) kDeoptBinarySmiOp) s'
         else Fallthrough s') /\
      (0 <= y ->
       get_reg s' result = if y <? 62 then RawValue (x * 2 ^ y) else 0).
Proof.
  intros compiler this left right result tmps live x y s
         Hop Hdeopt Htrunc Hlocs Hflag Hx Hy [Hal Hl] [Harr Hr] Hrange Har Hdist.
  assert (Hlr : left <> result) by (apply Hdist; cbn; auto).
  assert (Hrr : right <> result) by (apply Hdist; cbn; auto).
  set (deopt := DeoptStub (deopt_id this) kDeoptBinarySmiOp).
  unfold BinarySmiOpInstr_EmitNativeCode. rewrite Hop. cbn [Token_Kind_eqb].
  unfold EmitSmiShiftLeft. rewrite Hlocs, Hdeopt, Htrunc.
  cbn [obind in_ nth_error inputs output out reg IsConstant constant
       b_deopt b_cond_deopt ASSERT].
  rewrite (javascript_overflow_check_off compiler _ _ _ Hflag).
  fold deopt. change (kSmiBits - 1) with 61.
  destruct (needs_check (right_range this) (Finite 0) (Finite 61)) eqn:Enc.
  - destruct (needs_check (right_range this) (Finite 0) kPlusInfinity) eqn:Eneg;
      cbn [obind app ASSERT].
    + (* the count may be negative: a guard first *)
      destruct (Z.ltb_spec y 0) as [Hneg | Hpos].
      * destruct (left_BoundConstant this);
          (do 2 eexists; split; [reflexivity |]; split; [discriminate |];
           split; [| intros; lia]);
          cbn [app run step operand_value]; unfold set_flags_of;
          cbn [flags with_flags]; rewrite get_reg_ZR, Hr, (smi_negative_MI y Hy);
          (destruct (Z.ltb_spec y 0); [| lia]); reflexivity.
      * destruct (truncating_shift_body result left right x y
                    (with_flags (snd (sub_flags (RawValue y) 0)) s)
                    Har Hal Harr Hlr Hrr Hx Hy Hpos Hl Hr) as (s' & Hrun & Hres).
        destruct (left_BoundConstant this);
          (eexists; exists s'; split; [reflexivity |]; split; [discriminate |];
           split; [| intros _; exact Hres]);
          rewrite ?app_nil_r;
          cbn [app]; rewrite run_cons; cbn [step operand_value];
          unfold set_flags_of; rewrite run_cons; cbn [step flags with_flags];
          rewrite get_reg_ZR, Hr, (smi_negative_MI y Hy);
          (destruct (Z.ltb_spec y 0); [lia |]); exact Hrun.
    + pose proof (range_admits_lower _ _ _ Hrange Eneg) as Hpos.
      destruct (Z.ltb_spec y 0); [lia |].
      destruct (truncating_shift_body result left right x y s
                  Har Hal Harr Hlr Hrr Hx Hy Hpos Hl Hr) as (s' & Hrun & Hres).
      destruct (left_BoundConstant this);
        (eexists; exists s'; split; [reflexivity |]; split; [discriminate |];
         split; [| intros _; exact Hres]);
        rewrite ?app_nil_r; exact Hrun.
  - pose proof (range_admits_within _ _ _ _ Hrange Enc) as Hb.
    destruct (Z.ltb_spec y 0); [lia |]. destruct (Z.ltb_spec y 62); [| lia].
    reg_facts.
    destruct (left_BoundConstant this); cbn [obind app];
      (do 2 eexists; split; [reflexivity |];
       split; [intros _; split; reflexivity |];
       split; [cbn [run step]; reflexivity |]);
      intros _; machine; rewrite Hl, Hr, asr_RawValue by assumption;
      rewrite wrap_wrap, wrap_small by lia; rewrite Z.mod_small by lia;
      apply lsl_raw; lia.
Qed.

End TruncatingShiftLeft.

Section IndexedIntegers.

Local Arguments wrap : simpl never.
Local Arguments signed : simpl never.
Local Arguments RawValue : simpl never.
Local Arguments shift64 : simpl never.
Local Arguments get_reg : simpl never.
Local Arguments set_reg : simpl never.
Local Arguments Z.pow : simpl never.
Local Arguments Z.mul : simpl never.
Local Arguments Z.add : simpl never.
Local Arguments Z.sub : simpl never.
Local Arguments Z.modulo : simpl never.
Local Arguments Z.div : simpl never.
Local Arguments load_bytes : simpl never.
Local Arguments store_bytes : simpl never.

(** ** Elements of integer arrays *)

Lemma lsl_raw_scale (idx n : Z) :
  0 <= n -> shift64 LSL (RawValue idx) n = wrap (idx * (2 * 2 ^ n)).
Proof.
  intros Hn. unfold shift64. rewrite Z.shiftl_mul_pow2 by assumption.
  unfold RawValue. rewrite wrap_wrap, wrap_mul_l. f_equal. lia.
Qed.

(** What a sized load leaves in the register, read as a signed word. *)
Lemma signed_load_sized (sz : OperandSize) (m : Z -> Z) (a : Z) :
  sz <> kDoubleWord ->
  signed (load_sized sz m a) = narrow sz (load_bytes (size_bytes sz) m a) /\
  - 2 ^ 31 <= signed (load_sized sz m a) < 2 ^ 32.
Proof.
  intros Hsz. unfold load_sized, narrow, sign_extend.
  pose proof (load_bytes_range (size_bytes sz) m a) as B.
  set (u := load_bytes (size_bytes sz) m a) in *. clearbody u.
  destruct sz; try congruence; cbn [size_bytes is_signed_size andb] in *;
    match type of B with
    | context [256 ^ Z.of_nat ?n] =>
        let p := eval vm_compute in (256 ^ Z.of_nat n) in
        change (256 ^ Z.of_nat n) with p in *
    end;
    rewrite (Z.mod_small u) by lia;
    repeat match goal with
    | |- context [2 ^ (?a - 1)] =>
        let p := eval vm_compute in (2 ^ (a - 1)) in change (2 ^ (a - 1)) with p
    | |- context [2 ^ ?a] =>
        let p := eval vm_compute in (2 ^ a) in change (2 ^ a) with p
    end;
    abstract_words; case_tests; lia.
Qed.

Lemma narrow_is_smi (sz : OperandSize) (v : Z) :
  sz <> kDoubleWord -> IsSmiValue (narrow sz v).
Proof.
  intros Hsz. unfold narrow, IsSmiValue, kSmiMin, kSmiMax.
  destruct sz; try congruence; cbn [size_bytes is_signed_size andb];
    match goal with
    | |- context [256 ^ Z.of_nat ?n] =>
        let p := eval vm_compute in (256 ^ Z.of_nat n) in
        change (256 ^ Z.of_nat n) with p
    end;
    match goal with
    | |- context [v mod ?p] => pose proof (Z.mod_pos_bound v p ltac:(lia))
    end;
    change (2 ^ 62) with 4611686018427387904;
    case_tests; lia.
Qed.

Lemma tag_loaded (w : Z) : shift64 LSL w kSmiTagSize = RawValue (signed w).
Proof. unfold kSmiTagSize. rewrite lsl_1. unfold RawValue. words. Qed.

(** Case analysis on the class of the array and on the shape of the
    address. *)
Ltac load_cases Hlocs Hscale Hcid Hsmi Hfinish :=
  unfold LoadIndexedInstr_EmitNativeCode; rewrite Hlocs, ?Hscale;
  cbn [obind in_ nth_error inputs output out reg];
  match type of Hcid with
  | loaded_as ?c = Some ?sz =>
      destruct c eqn:?; cbn in Hcid; try discriminate Hcid;
      inversion Hcid; subst sz
  end;
  cbn [size_bytes Z.of_nat Pos.of_succ_nat Pos.succ Z.eqb Pos.eqb
       LoadIndexedInstr_representation is_unboxed_representation
       ASSERT obind app] in *;
  try match goal with
      | |- context [negb (?o =? 0)] =>
          let Eoff := fresh "Eoff" in
          destruct (negb (o =? 0)) eqn:Eoff;
          [| apply negb_false_iff, Z.eqb_eq in Eoff ]
      end;
  cbn [obind app];
  (do 2 eexists; split; [reflexivity |]; split; [reflexivity |];
   split; [cbn [run step]; reflexivity |];
   split; [| split; [exact Hsmi | machine; reflexivity]]);
  machine; apply Hfinish;
  match goal with
  | this : LoadIndexedInstr |- _ => destruct (li_IsExternal this); cbn [negb] in *
  end;
  try match goal with E : _ - kHeapObjectTag = 0 |- _ => rewrite ?E end.

(** X12.  An indexed load from an array of 8-, 16- or 32-bit integers (typed
    data, external typed data, or the code units of a string) has no guard.
    It reads the element at the address the array, the index and the element
    size determine, sign- or zero-extends it according to the class of the
    array, and leaves it tagged in the result register; the element is always
    a small integer, and memory is not written. *)
Theorem LoadIndexed_integer_element :
  forall (compiler : FlowGraphCompiler) (this : LoadIndexedInstr)
         (array index result : Register) (sz : OperandSize)
         (tmps : list Location) (live : RegisterSet) (idx : Z) (s : State),
    loaded_as (li_class_id this) = Some sz ->
    li_index_scale this = Z.of_nat (size_bytes sz) ->
    li_locs this =
      mkLocationSummary [RegisterLocation array; RegisterLocation index] tmps
        (RegisterLocation result) live ->
    is_allocatable index = true -> is_allocatable result = true ->
    IsSmiValue idx ->
    get_reg s index = RawValue idx ->
    let ea := element_address compiler (li_class_id this) (li_IsExternal this)
                (li_index_scale this) (get_reg s array) idx in
    let element := narrow sz (load_bytes (size_bytes sz) (mem s) ea) in
    exists (code : Code) (s' : State),
      LoadIndexedInstr_EmitNativeCode compiler this = Some code /\
      existsb transfers_control code = false /\
      run code None s = Fallthrough s' /\
      get_reg s' result = RawValue element /\
      IsSmiValue element /\
      mem s' = mem s.
Proof.
  intros compiler this array index result sz tmps live idx s
         Hcid Hscale Hlocs Hali Halr Hidx Hi ea element.
  assert (Hsz : sz <> kDoubleWord)
    by (destruct (li_class_id this); cbn in Hcid; congruence).
  assert (Hsmi : IsSmiValue element) by now apply narrow_is_smi.
  pose proof (asr_RawValue idx Hidx) as Hasr.
  pose proof (lsl_raw_scale idx 1 ltac:(lia)) as Hlsl.
  change (2 * 2 ^ 1) with 4 in Hlsl.
  reg_facts.
  assert (Hfinish : forall a : Z,
            a = ea ->
            shift64 LSL (load_sized sz (mem s) a) kSmiTagSize = RawValue element).
  { intros a ->. rewrite tag_loaded.
    now rewrite (proj1 (signed_load_sized sz (mem s) ea Hsz)). }
  unfold ea, element_address, element_offset in Hfinish. rewrite Hscale in *.
  load_cases Hlocs Hscale Hcid Hsmi Hfinish; rewrite ?Hi, ?Hasr, ?Hlsl;
    unfold RawValue; words.
Qed.

(** ** Storing an integer element and loading it back *)

Lemma store_bytes_outside (n : nat) :
  forall (m : Z -> Z) (a v a' : Z),
    a' < a \/ a + Z.of_nat n <= a' -> store_bytes n m a v a' = m a'.
Proof.
  induction n as [| n IH]; intros m a v a' H; [reflexivity |].
  change (store_bytes (S n) m a v)
    with (store_bytes n (store_byte m a v) (a + 1) (v / 256)).
  rewrite Nat2Z.inj_succ in H. rewrite IH by lia. unfold store_byte.
  destruct (Z.eqb_spec a' a); [lia | reflexivity].
Qed.

Lemma narrow_low_bytes (sz : OperandSize) (v w : Z) :
  sz <> kDoubleWord ->
  w = wrap v mod 256 ^ Z.of_nat (size_bytes sz) -> narrow sz w = narrow sz v.
Proof.
  intros Hsz ->. unfold narrow.
  assert (E : (wrap v mod 256 ^ Z.of_nat (size_bytes sz))
              mod 256 ^ Z.of_nat (size_bytes sz)
              = v mod 256 ^ Z.of_nat (size_bytes sz)).
  { rewrite Z.mod_mod by (destruct sz; discriminate).
    unfold wrap. apply Z.mod_mod_divide.
    destruct sz; try congruence; cbn [size_bytes];
      [ exists (2 ^ 56) | exists (2 ^ 56) | exists (2 ^ 48) | exists (2 ^ 48)
      | exists (2 ^ 32) | exists (2 ^ 32) ]; reflexivity. }
  now rewrite E.
Qed.

(** X13.  A small integer stored into an array of 8-, 16- or 32-bit integers
    and loaded back from the same index comes back narrowed to the width of
    the element, signed or unsigned as the class of the array has it: the
    store writes the low bytes of the untagged value at the element's
    address and nothing outside it, and the load reads them from the same
    address. *)
Theorem StoreIndexed_LoadIndexed_roundtrip :
  forall (compiler : FlowGraphCompiler)
         (store : StoreIndexedInstr) (load : LoadIndexedInstr)
         (array index value array2 index2 result : Register) (sz : OperandSize)
         (tmps tmps2 : list Location) (outl : Location) (live live2 : RegisterSet)
         (idx v : Z) (s : State),
    loaded_as (si_class_id store) = Some sz ->
    is_clamped_cid (si_class_id store) = false ->
    si_class_id store <> kTwoByteStringCid ->
    li_class_id load = si_class_id store ->
    li_IsExternal load = si_IsExternal store ->
    si_index_scale store = Z.of_nat (size_bytes sz) ->
    li_index_scale load = Z.of_nat (size_bytes sz) ->
    si_locs store =
      mkLocationSummary
        [RegisterLocation array; RegisterLocation index; RegisterLocation value]
        tmps outl live ->
    li_locs load =
      mkLocationSummary [RegisterLocation array2; RegisterLocation index2] tmps2
        (RegisterLocation result) live2 ->
    is_allocatable array = true -> is_allocatable index = true ->
    is_allocatable value = true ->
    is_allocatable index2 = true -> is_allocatable result = true ->
    array <> index -> value <> array -> value <> index ->
    IsSmiValue idx -> IsSmiValue v ->
    get_reg s index = RawValue idx ->
    get_reg s value = RawValue v ->
    let ea := element_address compiler (si_class_id store) (si_IsExternal store)
                (si_index_scale store) (get_reg s array) idx in
    exists (code1 : Code) (s1 : State),
      StoreIndexedInstr_EmitNativeCode compiler store = Some code1 /\
      run code1 None s = Fallthrough s1 /\
      (forall a : Z,
         a < ea \/ ea + Z.of_nat (size_bytes sz) <= a -> mem s1 a = mem s a) /\
      forall s2 : State,
        mem s2 = mem s1 ->
        get_reg s2 array2 = get_reg s array ->
        get_reg s2 index2 = RawValue idx ->
        exists (code2 : Code) (s3 : State),
          LoadIndexedInstr_EmitNativeCode compiler load = Some code2 /\
          run code2 None s2 = Fallthrough s3 /\
          get_reg s3 result = RawValue (narrow sz v).
Proof.
  intros compiler store load array index value array2 index2 result sz
         tmps tmps2 outl live live2 idx v s
         Hcid Hcl Htb Hlcid Hlext Hscale Hlscale Hlocs Hllocs
         Haa Hai Hav Hai2 Har Hne1 Hne2 Hne3 Hidx Hv Hi Hval ea.
  assert (Hsz : sz <> kDoubleWord)
    by (destruct (si_class_id store); cbn in Hcid; congruence).
  pose proof (asr_RawValue idx Hidx) as Hasr.
  pose proof (asr_RawValue v Hv) as Hasrv.
  pose proof (lsl_raw_scale idx 1 ltac:(lia)) as Hlsl.
  change (2 * 2 ^ 1) with 4 in Hlsl.
  (* the store *)
  assert (Hstore : exists (code1 : Code) (s1 : State),
            StoreIndexedInstr_EmitNativeCode compiler store = Some code1 /\
            run code1 None s = Fallthrough s1 /\
            mem s1 = store_bytes (size_bytes sz) (mem s) ea (wrap v)).
  { pose proof Haa as Haa'. pose proof Hai as Hai'. pose proof Hav as Hav'.
    reg_facts.
    unfold StoreIndexedInstr_EmitNativeCode. rewrite Hlocs, Hscale.
    unfold ea, element_address, element_offset. rewrite Hscale.
    cbn [obind in_ nth_error inputs output out reg].
    destruct (si_class_id store) eqn:Ecid; cbn in Hcid, Hcl;
      try discriminate Hcid; try discriminate Hcl; try congruence;
      inversion Hcid; subst sz;
      cbn [size_bytes Z.of_nat Pos.of_succ_nat Pos.succ Z.eqb Pos.eqb
           IsConstant obind reg app] in *;
      destruct (si_IsExternal store); cbn [negb app];
      (do 2 eexists; split; [reflexivity |];
       split; [cbn [run step]; reflexivity |]);
      machine; rewrite ?Hi, ?Hval, ?Hasr, ?Hasrv, ?Hlsl; f_equal;
      unfold RawValue; words. }
  destruct Hstore as (code1 & s1 & E1 & Hrun1 & Hmem1).
  exists code1, s1. split; [exact E1 |]. split; [exact Hrun1 |]. split.
  { intros a Ha. rewrite Hmem1. now apply store_bytes_outside. }
  (* the load *)
  intros s2 Hm2 Ha2 Hi2.
  set (element := narrow sz v).
  assert (Hsmi : IsSmiValue element) by now apply narrow_is_smi.
  assert (Hfinish : forall a : Z,
            a = ea ->
            shift64 LSL (load_sized sz (mem s2) a) kSmiTagSize = RawValue element).
  { intros a ->. rewrite tag_loaded.
    rewrite (proj1 (signed_load_sized sz (mem s2) ea Hsz)).
    f_equal. apply narrow_low_bytes; [assumption |].
    rewrite Hm2, Hmem1. apply load_store_bytes. }
  clear Hmem1 Hrun1 E1 Haa Hai Hav Hne1 Hne2 Hne3.
  reg_facts.
  unfold ea, element_address, element_offset in Hfinish.
  rewrite <- Hlcid, <- Hlext, Hscale in *.
  assert (Hload : exists (code2 : Code) (s3 : State),
            LoadIndexedInstr_EmitNativeCode compiler load = Some code2 /\
            existsb transfers_control code2 = false /\
            run code2 None s2 = Fallthrough s3 /\
            get_reg s3 result = RawValue element /\
            IsSmiValue element /\ mem s3 = mem s2).
  { load_cases Hllocs Hlscale Hcid Hsmi Hfinish; rewrite ?Hi2, ?Ha2, ?Hasr, ?Hlsl;
      unfold RawValue; words. }
  destruct Hload as (code2 & s3 & E2 & _ & Hrun2 & Hres & _).
  eauto.
Qed.

End IndexedIntegers.

Section IndexedObjectsAndDoubles.

Local Arguments wrap : simpl never.
Local Arguments signed : simpl never.
Local Arguments RawValue : simpl never.
Local Arguments shift64 : simpl never.
Local Arguments get_reg : simpl never.
Local Arguments set_reg : simpl never.
Local Arguments Z.pow : simpl never.
Local Arguments Z.mul : simpl never.
Local Arguments Z.add : simpl never.
Local Arguments Z.sub : simpl never.
Local Arguments Z.modulo : simpl never.
Local Arguments Z.div : simpl never.
Local Arguments load_bytes : simpl never.
Local Arguments store_bytes : simpl never.

(** ** Arrays of object references and of doubles *)

Lemma object_word_set_reg (r : Register) (v : Z) (s : State) (o : Object) :
  object_word (set_reg r v s) o = object_word s o.
Proof. destruct o; cbn [object_word]; now rewrite ?pool_set_reg. Qed.

(** X14.  An object reference stored into an array of tagged references,
    with or without the write barrier, from a register or as a constant, and
    loaded back from the same index is the same machine word; the store
    writes the eight bytes of the element and nothing outside them. *)
Theorem StoreIndexed_LoadIndexed_array :
  forall (compiler : FlowGraphCompiler)
         (store : StoreIndexedInstr) (load : LoadIndexedInstr)
         (array index array2 index2 result : Register) (value_loc : Location)
         (tmps tmps2 : list Location) (outl : Location) (live live2 : RegisterSet)
         (idx w : Z) (s : State),
    si_class_id store = kArrayCid ->
    li_class_id load = kArrayCid ->
    li_IsExternal load = si_IsExternal store ->
    si_index_scale store = 8 ->
    li_index_scale load = 8 ->
    si_locs store =
      mkLocationSummary [RegisterLocation array; RegisterLocation index; value_loc]
        tmps outl live ->
    li_locs load =
      mkLocationSummary [RegisterLocation array2; RegisterLocation index2] tmps2
        (RegisterLocation result) live2 ->
    is_allocatable array = true -> is_allocatable index = true ->
    is_allocatable index2 = true -> is_allocatable result = true ->
    array <> index ->
    value_loc <> RegisterLocation index ->
    (IsConstant value_loc = true -> si_ShouldEmitStoreBarrier store = false) ->
    IsSmiValue idx ->
    get_reg s index = RawValue idx ->
    holds_word s value_loc w ->
    let ea := element_address compiler kArrayCid (si_IsExternal store) 8
                (get_reg s array) idx in
    exists (code1 : Code) (s1 : State),
      StoreIndexedInstr_EmitNativeCode compiler store = Some code1 /\
      run code1 None s = Fallthrough s1 /\
      (forall a : Z, a < ea \/ ea + 8 <= a -> mem s1 a = mem s a) /\
      forall s2 : State,
        mem s2 = mem s1 ->
        get_reg s2 array2 = get_reg s array ->
        get_reg s2 index2 = RawValue idx ->
        exists (code2 : Code) (s3 : State),
          LoadIndexedInstr_EmitNativeCode compiler load = Some code2 /\
          run code2 None s2 = Fallthrough s3 /\
          get_reg s3 result = wrap w.
Proof.
  intros compiler store load array index array2 index2 result value_loc
         tmps tmps2 outl live live2 idx w s
         Hcid Hlcid Hlext Hscale Hlscale Hlocs Hllocs
         Haa Hai Hai2 Har Hne1 Hne2 Hbar Hidx Hi Hw ea.
  pose proof (lsl_raw_scale idx 2 ltac:(lia)) as Hlsl.
  change (2 * 2 ^ 2) with 8 in Hlsl.
  assert (Hstore : exists (code1 : Code) (s1 : State),
            StoreIndexedInstr_EmitNativeCode compiler store = Some code1 /\
            run code1 None s = Fallthrough s1 /\
            mem s1 = store_bytes 8 (mem s) ea w).
  { unfold StoreIndexedInstr_EmitNativeCode. rewrite Hlocs, Hscale, Hcid.
    unfold ea, element_address, element_offset.
    cbn [obind in_ nth_error inputs output out reg Z.eqb Pos.eqb].
    destruct value_loc as [value | | c | |]; try contradiction;
      cbn [holds_word] in Hw.
    - destruct Hw as [Hav Hw].
      assert (Hvi : value <> index) by congruence.
      reg_facts.
      destruct (si_ShouldEmitStoreBarrier store), (si_IsExternal store);
        cbn [IsConstant obind reg negb app];
        (do 2 eexists; split; [reflexivity |];
         split; [cbn [run step]; reflexivity |]);
        unfold record_barrier;
        repeat match goal with
               | |- context [if ?c then _ else _] => destruct c
               end;
        machine; rewrite ?Hi, ?Hw, ?Hlsl; f_equal; words.
    - rewrite (Hbar eq_refl). reg_facts.
      destruct (si_IsExternal store);
        cbn [IsConstant obind constant negb app];
        (do 2 eexists; split; [reflexivity |];
         split; [cbn [run step]; reflexivity |]);
        machine; rewrite ?object_word_set_reg, ?Hi, ?Hw, ?Hlsl; f_equal; words. }
  destruct Hstore as (code1 & s1 & E1 & Hrun1 & Hmem1).
  exists code1, s1. split; [exact E1 |]. split; [exact Hrun1 |]. split.
  { intros a Ha. rewrite Hmem1. now apply (store_bytes_outside 8). }
  intros s2 Hm2 Ha2 Hi2.
  clear Hne1 Hne2 Haa Hai. reg_facts.
  unfold LoadIndexedInstr_EmitNativeCode. rewrite Hllocs, Hlscale, Hlcid, Hlext.
  cbn [obind in_ nth_error inputs output out reg Z.eqb Pos.eqb
       LoadIndexedInstr_representation is_unboxed_representation].
  change (ClassId_eqb kArrayCid kArrayCid) with true.
  cbn [orb ASSERT obind app].
  do 2 eexists. split; [reflexivity |]. split; [cbn [run step]; reflexivity |].
  machine. cbn [load_sized size_bytes].
  assert (Eaddr : wrap (wrap (get_reg s2 array2 + shift64 LSL (get_reg s2 index2) 2)
                        + (if negb (si_IsExternal store)
                           then DataOffsetFor compiler kArrayCid - kHeapObjectTag
                           else 0)) = ea).
  { unfold ea, element_address, element_offset. rewrite Ha2, Hi2, Hlsl.
    destruct (si_IsExternal store); cbn [negb]; words. }
  rewrite Eaddr, Hm2, Hmem1, load_store_bytes. reflexivity.
Qed.

(** X15.  A double stored into an array of 64-bit floats, the single in the
    low half of a register stored into an array of 32-bit floats, or a
    128-bit vector stored into an array of vectors, and loaded back from the
    same index is bit-identical: the eight, four or sixteen bytes written at
    the element are read back unchanged, and nothing outside the element is
    written. *)
Theorem StoreIndexed_LoadIndexed_unboxed :
  forall (compiler : FlowGraphCompiler)
         (store : StoreIndexedInstr) (load : LoadIndexedInstr)
         (array index array2 index2 : Register) (value result : VRegister)
         (n : nat)
         (tmps tmps2 : list Location) (outl : Location) (live live2 : RegisterSet)
         (idx : Z) (s : State),
    unboxed_element_bytes (si_class_id store) = Some n ->
    li_class_id load = si_class_id store ->
    li_IsExternal load = si_IsExternal store ->
    si_index_scale store = Z.of_nat n ->
    li_index_scale load = Z.of_nat n ->
    si_locs store =
      mkLocationSummary
        [RegisterLocation array; RegisterLocation index; FpuRegisterLocation value]
        tmps outl live ->
    li_locs load =
      mkLocationSummary [RegisterLocation array2; RegisterLocation index2] tmps2
        (FpuRegisterLocation result) live2 ->
    is_allocatable array = true -> is_allocatable index = true ->
    is_allocatable index2 = true ->
    array <> index ->
    IsSmiValue idx ->
    get_reg s index = RawValue idx ->
    let ea := element_address compiler (si_class_id store) (si_IsExternal store)
                (Z.of_nat n) (get_reg s array) idx in
    exists (code1 : Code) (s1 : State),
      StoreIndexedInstr_EmitNativeCode compiler store = Some code1 /\
      run code1 None s = Fallthrough s1 /\
      (forall a : Z, a < ea \/ ea + Z.of_nat n <= a -> mem s1 a = mem s a) /\
      forall s2 : State,
        mem s2 = mem s1 ->
        get_reg s2 array2 = get_reg s array ->
        get_reg s2 index2 = RawValue idx ->
        exists (code2 : Code) (s3 : State),
          LoadIndexedInstr_EmitNativeCode compiler load = Some code2 /\
          run code2 None s2 = Fallthrough s3 /\
          get_vreg s3 result = get_vreg s value mod 256 ^ Z.of_nat n.
Proof.
  intros compiler store load array index array2 index2 value result n
         tmps tmps2 outl live live2 idx s
         Hcid Hlcid Hlext Hscale Hlscale Hlocs Hllocs
         Haa Hai Hai2 Hne1 Hidx Hi ea.
  pose proof (lsl_raw_scale idx 3 ltac:(lia)) as Hlsl16.
  change (2 * 2 ^ 3) with 16 in Hlsl16.
  pose proof (lsl_raw_scale idx 2 ltac:(lia)) as Hlsl8.
  change (2 * 2 ^ 2) with 8 in Hlsl8.
  pose proof (lsl_raw_scale idx 1 ltac:(lia)) as Hlsl4.
  change (2 * 2 ^ 1) with 4 in Hlsl4.
  assert (Hstore : exists (code1 : Code) (s1 : State) (w : Z),
            StoreIndexedInstr_EmitNativeCode compiler store = Some code1 /\
            run code1 None s = Fallthrough s1 /\
            w mod 256 ^ Z.of_nat n = get_vreg s value mod 256 ^ Z.of_nat n /\
            mem s1 = store_bytes n (mem s) ea w).
  { pose proof Haa as Haa'. pose proof Hai as Hai'. reg_facts.
    unfold StoreIndexedInstr_EmitNativeCode. rewrite Hlocs, Hscale.
    unfold ea, element_address, element_offset.
    cbn [obind in_ nth_error inputs output out reg].
    destruct (si_class_id store) eqn:Ecid; cbn in Hcid; try discriminate Hcid;
      inversion Hcid; subst n;
      cbn [Z.of_nat Pos.of_succ_nat Pos.succ Z.eqb Pos.eqb obind fpu_reg] in *;
      destruct (si_IsExternal store); cbn [negb app obind];
      do 3 eexists; (split; [reflexivity |]);
      (split; [cbn [run step]; reflexivity |]);
      (split; [| machine; rewrite ?Hi, ?Hlsl16, ?Hlsl8, ?Hlsl4; f_equal; words]);
      unfold get_dreg, get_vreg; cbn [vregs with_regs set_reg];
      rewrite ?vregs_set_reg; try reflexivity;
      change (256 ^ 8) with (2 ^ 64); now rewrite Z.mod_mod. }
  destruct Hstore as (code1 & s1 & w & E1 & Hrun1 & Hw & Hmem1).
  exists code1, s1. split; [exact E1 |]. split; [exact Hrun1 |]. split.
  { intros a Ha. rewrite Hmem1. now apply store_bytes_outside. }
  intros s2 Hm2 Ha2 Hi2.
  clear Hne1 Haa Hai. reg_facts.
  assert (Eaddr : forall k : Z,
            shift64 LSL (RawValue idx) k = wrap (idx * Z.of_nat n) ->
            wrap (wrap (get_reg s2 array2 + shift64 LSL (get_reg s2 index2) k)
                  + (if negb (si_IsExternal store)
                     then DataOffsetFor compiler (si_class_id store) - kHeapObjectTag
                     else 0)) = ea).
  { intros k Hk. unfold ea, element_address, element_offset. rewrite Ha2, Hi2, Hk.
    destruct (si_IsExternal store); cbn [negb]; words. }
  unfold LoadIndexedInstr_EmitNativeCode. rewrite Hllocs, Hlscale, Hlcid, Hlext.
  cbn [obind in_ nth_error inputs output out reg].
  destruct (si_class_id store) eqn:Ecid; cbn in Hcid; try discriminate Hcid;
    inversion Hcid; subst n;
    cbn [Z.of_nat Pos.of_succ_nat Pos.succ Z.eqb Pos.eqb obind fpu_reg
         LoadIndexedInstr_representation is_unboxed_representation] in *;
    (do 2 eexists; split; [reflexivity |];
     split; [cbn [run step app]; reflexivity |]);
    cbn [app run step address_of]; machine; rewrite <- Hw;
    unfold get_vreg, set_vreg; cbn [vregs with_vregs]; unfold upd;
    rewrite Nat.eqb_refl;
    match goal with
    | |- context [shift64 LSL (get_reg s2 index2) 1] =>
        rewrite (Eaddr 1 Hlsl4), Hm2, Hmem1; apply (load_store_bytes 4)
    | |- context [shift64 LSL (get_reg s2 index2) 2] =>
        rewrite (Eaddr 2 Hlsl8), Hm2, Hmem1; apply (load_store_bytes 8)
    | |- context [shift64 LSL (get_reg s2 index2) 3] =>
        rewrite (Eaddr 3 Hlsl16), Hm2, Hmem1; apply (load_store_bytes 16)
    end.
Qed.

End IndexedObjectsAndDoubles.

Section TagChecks.

Local Arguments wrap : simpl never.
Local Arguments signed : simpl never.
Local Arguments RawValue : simpl never.
Local Arguments get_reg : simpl never.
Local Arguments set_reg : simpl never.
Local Arguments sub_flags : simpl never.
Local Arguments Z.land : simpl never.
Local Arguments Z.lor : simpl never.
Local Arguments Z.pow : simpl never.
Local Arguments Z.modulo : simpl never.
Local Arguments Z.even : simpl never.

(** ** Checks on the tag bit *)

Lemma even_low_bit (a : Z) : Z.even a = negb (Z.testbit a 0).
Proof. rewrite Z.bit0_odd, <- Z.negb_even. now rewrite negb_involutive. Qed.

Lemma low_bit_mask (a : Z) : (wrap (Z.land (wrap a) (wrap kSmiTagMask)) =? 0) = has_smi_tag a.
Proof.
  unfold has_smi_tag, kSmiTagMask. rewrite (wrap_small 1) by lia.
  change 1 with (Z.ones 1) at 1. rewrite Z.land_ones by lia.
  change (2 ^ 1) with 2.
  pose proof (Z.mod_pos_bound (wrap a) 2 ltac:(lia)) as B.
  rewrite wrap_small by lia.
  rewrite even_low_bit, <- Z.bit0_mod.
  destruct (Z.testbit (wrap a) 0); reflexivity.
Qed.

Lemma tag_test_EQ (a : Z) :
  ConditionHolds EQ (logic_flags (Z.land (wrap a) (wrap kSmiTagMask))) = has_smi_tag a.
Proof. unfold logic_flags. cbn [ConditionHolds flag_z]. apply low_bit_mask. Qed.

Lemma tag_test_NE (a : Z) :
  ConditionHolds NE (logic_flags (Z.land (wrap a) (wrap kSmiTagMask)))
  = negb (has_smi_tag a).
Proof. unfold logic_flags. cbn [ConditionHolds flag_z]. now rewrite low_bit_mask. Qed.

Lemma smi_has_tag (v : Z) : has_smi_tag (RawValue v) = true.
Proof.
  unfold has_smi_tag, RawValue. rewrite wrap_wrap.
  rewrite even_low_bit. unfold wrap. rewrite Z.testbit_mod_pow2 by lia.
  rewrite Z.mul_comm, Z.testbit_even_0. reflexivity.
Qed.

Lemma either_tag (a b : Z) :
  has_smi_tag (Z.lor (wrap a) (wrap b)) = has_smi_tag a && has_smi_tag b.
Proof.
  unfold has_smi_tag. rewrite wrap_lor, wrap_wrap, <- wrap_lor.
  rewrite !even_low_bit, Z.lor_spec. now rewrite negb_orb.
Qed.

(** X16.  [CheckSmiInstr] tests the tag bit of its operand: control goes to
    the deopt stub exactly when the bit is set, that is, when the word is
    not a small integer; otherwise it falls through.  Only the condition
    flags are written.  The tagged word of a small integer always passes. *)
Theorem CheckSmi_guard_iff_tagged_object :
  forall (this : CheckSmiInstr) (value : Register)
         (tmps : list Location) (outl : Location) (live : RegisterSet) (s : State),
    cs_locs this = mkLocationSummary [RegisterLocation value] tmps outl live ->
    exists (code : Code) (f : Flags),
      CheckSmiInstr_EmitNativeCode this = Some code /\
      run code None s =
        (if has_smi_tag (get_reg s value)
         then Fallthrough (with_flags f s)
         else Jump (DeoptStub (cs_deopt_id this) kDeoptCheckSmi) (with_flags f s)) /\
      (forall v : Z, get_reg s value = RawValue v ->
                     run code None s = Fallthrough (with_flags f s)).
Proof.
  intros this value tmps outl live s Hlocs.
  unfold CheckSmiInstr_EmitNativeCode. rewrite Hlocs.
  cbn [obind in_ nth_error inputs reg].
  do 2 eexists. split; [reflexivity |].
  assert (Hrun : run [tsti value kSmiTagMask;
                      b_cond (DeoptStub (cs_deopt_id this) kDeoptCheckSmi) NE] None s
                 = if has_smi_tag (get_reg s value)
                   then Fallthrough
                          (with_flags
                             (logic_flags (Z.land (wrap (get_reg s value))
                                             (wrap kSmiTagMask))) s)
                   else Jump (DeoptStub (cs_deopt_id this) kDeoptCheckSmi)
                          (with_flags
                             (logic_flags (Z.land (wrap (get_reg s value))
                                             (wrap kSmiTagMask))) s)).
  { cbn [run step flags with_flags]. rewrite tag_test_NE.
    destruct (has_smi_tag (get_reg s value)); reflexivity. }
  split; [exact Hrun |].
  intros v Hv. rewrite Hrun, Hv, smi_has_tag. reflexivity.
Qed.

(** X17.  [CheckEitherNonSmiInstr] takes the guard exactly when both
    operands are small integers, and falls through as soon as one of them is
    not.  An operand whose static type is already known to be a small
    integer is not tested: the tag bit of the other one decides alone. *)
Theorem CheckEitherNonSmi_guard_iff_both_smi :
  forall (this : CheckEitherNonSmiInstr) (left right : Register)
         (tmps : list Location) (outl : Location) (live : RegisterSet) (s : State),
    en_locs this =
      mkLocationSummary [RegisterLocation left; RegisterLocation right] tmps outl
        live ->
    (en_left_cid this = kSmiCid -> has_smi_tag (get_reg s left) = true) ->
    (en_right_cid this = kSmiCid -> has_smi_tag (get_reg s right) = true) ->
    exists (code : Code) (s' : State),
      CheckEitherNonSmiInstr_EmitNativeCode this = Some code /\
      run code None s =
        (if has_smi_tag (get_reg s left) && has_smi_tag (get_reg s right)
         then Jump (DeoptStub (en_deopt_id this) kDeoptBinaryDoubleOp) s'
         else Fallthrough s') /\
      (forall r : Register, r <> TMP -> get_reg s' r = get_reg s r) /\
      mem s' = mem s.
Proof.
  intros this left right tmps outl live s Hlocs Hleft Hright.
  unfold CheckEitherNonSmiInstr_EmitNativeCode. rewrite Hlocs.
  cbn [obind in_ nth_error inputs reg].
  unfold ClassId_eqb.
  destruct (ClassId_eq_dec (en_left_cid this) kSmiCid) as [El | El];
    [| destruct (ClassId_eq_dec (en_right_cid this) kSmiCid) as [Er | Er]];
    cbn [app].
  - rewrite (Hleft El). cbn [andb].
    pose proof (tag_test_EQ (get_reg s right)) as Ht.
    destruct (has_smi_tag (get_reg s right));
      (do 2 eexists; split; [reflexivity |]; split;
       [cbn [run step flags with_flags]; rewrite Ht; reflexivity |]);
      (split; [intros r _; reflexivity | reflexivity]).
  - rewrite (Hright Er), andb_true_r.
    pose proof (tag_test_EQ (get_reg s left)) as Ht.
    destruct (has_smi_tag (get_reg s left));
      (do 2 eexists; split; [reflexivity |]; split;
       [cbn [run step flags with_flags]; rewrite Ht; reflexivity |]);
      (split; [intros r _; reflexivity | reflexivity]).
  - pose proof (tag_test_EQ (Z.lor (wrap (get_reg s left)) (wrap (get_reg s right))))
      as Ht.
    rewrite either_tag in Ht.
    destruct (has_smi_tag (get_reg s left) && has_smi_tag (get_reg s right));
      (do 2 eexists; split; [reflexivity |]; split;
       [ cbn [run step operand_value flags with_flags];
         rewrite get_set_reg_eq by reflexivity; rewrite Ht; reflexivity |]);
      (split;
       [ intros r Hr; rewrite get_reg_with_flags;
         apply get_set_reg_neq; now apply Nat.eqb_neq
       | cbn [mem with_flags]; apply mem_set_reg ]).
Qed.

(** ** Boolean negation *)

(** X18.  [BooleanNegateInstr] leaves the other boolean constant in the
    result register: [false] for [true] and [true] for [false], the two
    constants being different objects and the result register being another
    register than the operand.  The operand is unchanged, so negating twice
    gives the operand back. *)
Theorem BooleanNegate_complements :
  forall (locs : LocationSummary) (value result : Register)
         (tmps : list Location) (live : RegisterSet) (b : bool) (s : State),
    locs = mkLocationSummary [RegisterLocation value] tmps
             (RegisterLocation result) live ->
    is_allocatable value = true -> is_allocatable result = true ->
    value <> result ->
    wrap (object_word s Bool_True) <> wrap (object_word s Bool_False) ->
    get_reg s value = object_word s (if b then Bool_True else Bool_False) ->
    exists (code : Code) (s' : State),
      BooleanNegateInstr_EmitNativeCode locs = Some code /\
      run code None s = Fallthrough s' /\
      get_reg s' result = object_word s (if b then Bool_False else Bool_True) /\
      get_reg s' value = get_reg s value /\
      object_word s' Bool_True = object_word s Bool_True /\
      object_word s' Bool_False = object_word s Bool_False.
Proof.
  intros locs value result tmps live b s -> Hav Har Hne Hdiff Hv.
  unfold BooleanNegateInstr_EmitNativeCode.
  cbn [obind in_ nth_error inputs output out reg].
  reg_facts.
  do 2 eexists. split; [reflexivity |]. split; [cbn [run step]; reflexivity |].
  machine. cbn [object_word]. machine.
  rewrite sub_flags_EQ, Hv.
  split; [| split; [reflexivity | split; reflexivity]].
  cbn [object_word] in Hdiff.
  destruct b; cbn [object_word].
  - rewrite Z.eqb_refl. reflexivity.
  - destruct (Z.eqb_spec (wrap (pool s Bool_True)) (wrap (pool s Bool_False)));
      [contradiction | reflexivity].
Qed.

End TagChecks.

Section StaticFields.

Local Arguments wrap : simpl never.
Local Arguments get_reg : simpl never.
Local Arguments set_reg : simpl never.
Local Arguments Z.pow : simpl never.
Local Arguments Z.add : simpl never.
Local Arguments Z.sub : simpl never.
Local Arguments Z.modulo : simpl never.
Local Arguments load_bytes : simpl never.
Local Arguments store_bytes : simpl never.

(** ** Static fields *)

(** X19.  A word stored into a static field, with or without the write
    barrier, is the word a later load of that field returns: the store
    writes the value slot of the field object, and the load reads the same
    slot when its operand is that field object. *)
Theorem StoreStaticField_LoadStaticField_roundtrip :
  forall (value_offset : Z) (store : StoreStaticFieldInstr)
         (load_locs : LocationSummary)
         (value temp field result : Register)
         (tmps tmps2 : list Location) (outl : Location) (live live2 : RegisterSet)
         (s : State),
    ssf_locs store =
      mkLocationSummary [RegisterLocation value] (RegisterLocation temp :: tmps)
        outl live ->
    load_locs =
      mkLocationSummary [RegisterLocation field] tmps2 (RegisterLocation result)
        live2 ->
    is_allocatable value = true -> is_allocatable temp = true ->
    is_allocatable result = true ->
    temp <> value ->
    exists (code1 : Code) (s1 : State),
      StoreStaticFieldInstr_EmitNativeCode value_offset store = Some code1 /\
      run code1 None s = Fallthrough s1 /\
      existsb is_barrier_store code1 = ssf_NeedsStoreBuffer store /\
      forall s2 : State,
        mem s2 = mem s1 ->
        get_reg s2 field = object_word s (ssf_field store) ->
        exists (code2 : Code) (s3 : State),
          LoadStaticFieldInstr_EmitNativeCode value_offset load_locs = Some code2 /\
          run code2 None s2 = Fallthrough s3 /\
          get_reg s3 result = wrap (get_reg s value).
Proof.
  intros value_offset store load_locs value temp field result
         tmps tmps2 outl live live2 s Hlocs -> Hav Hat Har Hne.
  unfold StoreStaticFieldInstr_EmitNativeCode, LoadStaticFieldInstr_EmitNativeCode.
  rewrite Hlocs.
  cbn [obind in_ temp_ nth_error inputs temps output out reg].
  reg_facts.
  assert (Hmem : forall s1 : State,
            mem s1 = store_bytes 8 (mem s)
                       (wrap (object_word s (ssf_field store) + value_offset
                              - kHeapObjectTag)) (get_reg s value) ->
            forall s2 : State,
              mem s2 = mem s1 ->
              get_reg s2 field = object_word s (ssf_field store) ->
              exists (code2 : Code) (s3 : State),
                Some [LoadFieldFromOffset result field value_offset] = Some code2 /\
                run code2 None s2 = Fallthrough s3 /\
                get_reg s3 result = wrap (get_reg s value)).
  { intros s1 E1 s2 E2 Hf. do 2 eexists. split; [reflexivity |].
    split; [cbn [run step]; reflexivity |].
    machine. unfold field_address. rewrite Hf, E2, E1.
    rewrite load_store_bytes. reflexivity. }
  destruct (ssf_NeedsStoreBuffer store);
    (do 2 eexists; split; [reflexivity |];
     split; [cbn [run step]; reflexivity |]; split; [reflexivity |]);
    apply Hmem; unfold record_barrier, field_address;
    repeat match goal with
           | |- context [if ?c then _ else _] => destruct c
           end;
    machine; reflexivity.
Qed.

End StaticFields.

Section RangeCheckAndUnboxing.

Local Arguments wrap : simpl never.
Local Arguments signed : simpl never.
Local Arguments RawValue : simpl never.
Local Arguments get_reg : simpl never.
Local Arguments set_reg : simpl never.
Local Arguments sub_flags : simpl never.
Local Arguments Z.pow : simpl never.
Local Arguments load_bytes : simpl never.

(** ** The range check for JavaScript-compatible integers *)

Lemma below_range_LT (v : Z) :
  IsSmiValue v ->
  ConditionHolds LT (snd (sub_flags (RawValue v) (- 9007199254740992)))
  = (v <? - 4503599627370496).
Proof.
  intros Hv. rewrite sub_flags_LT, signed_RawValue by assumption.
  rewrite signed_small by (change (2 ^ 63) with 9223372036854775808; lia).
  case_tests; first [reflexivity | lia].
Qed.

Lemma above_range_GT (v : Z) :
  IsSmiValue v ->
  ConditionHolds GT (snd (sub_flags (RawValue v) 9007199254740992))
  = (4503599627370496 <? v).
Proof.
  intros Hv. rewrite sub_flags_GT, signed_RawValue by assumption.
  rewrite signed_small by (change (2 ^ 63) with 9223372036854775808; lia).
  case_tests; first [reflexivity | lia].
Qed.

(** X20.  [EmitJavascriptOverflowCheck] emits nothing when the static range
    of the result lies within plus or minus 2^53.  Otherwise it needs the
    overflow label, and the two compares it emits act on the tagged word:
    for a result [v] control goes to the label exactly when [v] is below
    -2^52 or above 2^52, and otherwise falls through with only the flags
    written. *)
Theorem EmitJavascriptOverflowCheck_bounds :
  forall (r : Range) (overflow : Label) (result : Register) (v : Z) (s : State),
    IsSmiValue v ->
    get_reg s result = RawValue v ->
    (IsWithin r (Finite (- 9007199254740992)) (Finite 9007199254740992) = true ->
     EmitJavascriptOverflowCheck (Some r) (Some overflow) result = Some [] /\
     EmitJavascriptOverflowCheck (Some r) None result = Some []) /\
    (IsWithin r (Finite (- 9007199254740992)) (Finite 9007199254740992) = false ->
     EmitJavascriptOverflowCheck (Some r) None result = None /\
     exists (code : Code) (f : Flags),
       EmitJavascriptOverflowCheck (Some r) (Some overflow) result = Some code /\
       run code None s =
         (if (v <? - 4503599627370496) || (4503599627370496 <? v)
          then Jump overflow (with_flags f s)
          else Fallthrough (with_flags f s))).
Proof.
  intros r overflow result v s Hv Hres.
  unfold EmitJavascriptOverflowCheck. cbn [obind]. split; intros Hw; rewrite Hw.
  - split; reflexivity.
  - cbn [negb obind]. split; [reflexivity |].
    pose proof (below_range_LT v Hv) as Hlt.
    pose proof (above_range_GT v Hv) as Hgt.
    destruct (v <? - 4503599627370496) eqn:E1; cbn [orb].
    + do 2 eexists. split; [reflexivity |].
      cbn [run step]. unfold set_flags_of. cbn [flags with_flags].
      rewrite Hres, Hlt. reflexivity.
    + destruct (4503599627370496 <? v) eqn:E2;
        (do 2 eexists; split; [reflexivity |]);
        cbn [run step]; unfold set_flags_of; cbn [flags with_flags];
        rewrite Hres, Hlt; cbn [run step]; rewrite get_reg_with_flags, Hres;
        cbn [flags with_flags]; rewrite Hgt; reflexivity.
Qed.

(** ** Unboxing a nullable double *)

(** X21.  Unboxing a value whose static type is a nullable double: the value
    is compared with the null object and control goes to the deopt stub
    exactly for null; any other value is taken to be a box, and the eight
    bytes of its payload are loaded into the result register. *)
Theorem UnboxDouble_nullable :
  forall (compiler : FlowGraphCompiler) (this : UnboxDoubleInstr)
         (value : Register) (result : VRegister)
         (tmps : list Location) (live : RegisterSet) (s : State),
    ud_value_cid this <> kDoubleCid ->
    ud_value_cid this <> kSmiCid ->
    ud_is_nullable this = true ->
    ud_nullable_cid this = kDoubleCid ->
    ud_locs this =
      mkLocationSummary [RegisterLocation value] tmps (FpuRegisterLocation result)
        live ->
    let is_null := wrap (get_reg s value) =? wrap (object_word s null_object) in
    exists (code : Code) (s' : State),
      UnboxDoubleInstr_EmitNativeCode compiler this = Some code /\
      run code None s =
        (if is_null
         then Jump (DeoptStub (ud_deopt_id this) kDeoptBinaryDoubleOp) s'
         else Fallthrough s') /\
      (is_null = false ->
       get_vreg s' result =
         load_bytes 8 (mem s) (field_address s value (Double_value_offset compiler))).
Proof.
  intros compiler this value result tmps live s Hnd Hns Hnull Hncid Hlocs is_null.
  unfold UnboxDoubleInstr_EmitNativeCode. rewrite Hlocs, Hnull, Hncid.
  cbn [obind in_ nth_error inputs output out reg fpu_reg].
  unfold ClassId_eqb.
  destruct (ClassId_eq_dec (ud_value_cid this) kDoubleCid) as [E | _]; [contradiction |].
  destruct (ClassId_eq_dec (ud_value_cid this) kSmiCid) as [E | _]; [contradiction |].
  destruct (ClassId_eq_dec kDoubleCid kDoubleCid) as [_ | E]; [| contradiction].
  cbn [andb].
  pose proof (sub_flags_EQ (get_reg s value) (object_word s null_object)) as Heq.
  fold is_null in Heq.
  destruct is_null eqn:En;
    (do 2 eexists; split; [reflexivity |]; split;
     [ cbn [run step]; unfold set_flags_of; cbn [flags with_flags];
       rewrite Heq; reflexivity |]).
  - discriminate.
  - intros _. unfold get_vreg, set_vreg. cbn [vregs with_vregs]. unfold upd.
    rewrite Nat.eqb_refl. reflexivity.
Qed.

End RangeCheckAndUnboxing.

Section SlowPaths.

Local Arguments wrap : simpl never.
Local Arguments get_reg : simpl never.
Local Arguments set_reg : simpl never.

(** ** Live registers across the slow-path call *)

Lemma restore_regs_saved (rs : list Register) (s0 : State) :
  forall (s : State) (r : Register),
    (In r rs \/ get_reg s r = get_reg s0 r) ->
    get_reg (restore_regs rs (map (get_reg s0) rs) s) r = get_reg s0 r.
Proof.
  induction rs as [| r0 rs IH]; intros s r H.
  - destruct H as [[] | H]. exact H.
  - cbn [map restore_regs]. apply IH.
    destruct (Nat.eq_dec r r0) as [-> | Hne].
    + right. destruct (Nat.eqb r0 ZR) eqn:Ez.
      * apply Nat.eqb_eq in Ez. subst r0. reflexivity.
      * now apply get_set_reg_eq.
    + destruct H as [[E | H] | H].
      * congruence.
      * now left.
      * right. rewrite get_set_reg_neq by now apply Nat.eqb_neq. exact H.
Qed.

(** The sequence both slow paths emit around the call of the allocation
    stub. *)
Lemma allocation_slow_path (n : nat) (cls : Class) (dst : Register)
    (cpu : list Register) (fpu : list VRegister)
    (e : CallEffect) (rest : list CallEffect) (s : State) :
  calls s = e :: rest ->
  Nat.eqb dst ZR = false ->
  ~ In dst cpu ->
  exists s' : State,
    run [ Bind (SlowPathEntry n); SaveLiveRegisters cpu fpu;
          GenerateCall_AllocationStub cls; mov dst R0;
          RestoreLiveRegisters cpu fpu; b_ (SlowPathExit n) ]
      (Some (SlowPathEntry n)) s = Jump (SlowPathExit n) s' /\
    get_reg s' dst = call_regs e R0 /\
    (forall r : Register, In r cpu -> get_reg s' r = get_reg s r) /\
    (forall v : VRegister, In v fpu -> get_vreg s' v = get_vreg s v) /\
    stack s' = stack s.
Proof.
  intros Ecalls Hzr Hnin.
  set (s_call := mkState (call_regs e) (call_vregs e) (call_flags e) (call_mem e)
                   (map (get_reg s) cpu ++ map (get_vreg s) fpu ++ stack s)
                   (pool s) (tags_of s) (call_heap_top e) (call_heap_end e)
                   (call_store_buffer e) rest).
  set (s_mov := set_reg dst (get_reg s_call R0) s_call).
  set (s_cpu := restore_regs cpu (map (get_reg s) cpu) s_mov).
  set (s_res := with_stack (stack s)
                  (restore_vregs fpu (map (get_vreg s) fpu) s_cpu)).
  exists s_res. split.
  - assert (Hentry : forall c : Code,
              run (Bind (SlowPathEntry n) :: c) (Some (SlowPathEntry n)) s
              = run c None s).
    { intros c. change (run (Bind (SlowPathEntry n) :: c) (Some (SlowPathEntry n)) s)
        with (if Nat.eqb n n then run c None s else run c (Some (SlowPathEntry n)) s).
      now rewrite Nat.eqb_refl. }
    rewrite Hentry.
    rewrite run_cons. cbn [step].
    rewrite run_cons. cbn [step calls with_stack]. rewrite Ecalls.
    cbn [stack pool tags_of with_stack]. fold s_call.
    rewrite run_cons. cbn [step]. fold s_mov.
    rewrite run_cons.
    rewrite (restore_after_save cpu fpu (get_reg s) (get_vreg s) (stack s) s_mov).
    + fold s_cpu. fold s_res. reflexivity.
    + unfold s_mov. rewrite stack_set_reg. reflexivity.
  - unfold s_res. split; [| split; [| split]].
    + rewrite get_reg_with_stack.
      rewrite (proj1 (restore_vregs_frame fpu _ s_cpu dst)).
      unfold s_cpu. rewrite restore_regs_other by assumption.
      unfold s_mov. now rewrite get_set_reg_eq.
    + intros r Hr. rewrite get_reg_with_stack.
      rewrite (proj1 (restore_vregs_frame fpu _ s_cpu r)).
      unfold s_cpu. apply restore_regs_saved. now left.
    + intros v Hv. unfold get_vreg. cbn [vregs with_stack].
      apply (restore_vregs_saved fpu (fun v => get_vreg s v)). now left.
    + reflexivity.
Qed.

(** X22.  The slow path of [BoxDoubleInstr] calls the allocation stub and
    returns to the main line with the new object in the output register and
    with every live register, the output excepted, holding the value it had
    on entry, whatever the stub did to the registers; the save area is back
    to its former state. *)
Theorem BoxDoubleSlowPath_preserves_live_registers :
  forall (compiler : FlowGraphCompiler) (ins tmps : list Location)
         (out_reg : Register) (live : RegisterSet)
         (e : CallEffect) (rest : list CallEffect) (s : State),
    is_allocatable out_reg = true ->
    calls s = e :: rest ->
    exists (code : Code) (s' : State),
      BoxDoubleSlowPath_EmitNativeCode compiler
        (mkLocationSummary ins tmps (RegisterLocation out_reg) live) = Some code /\
      run code (Some (SlowPathEntry 0)) s = Jump (SlowPathExit 0) s' /\
      get_reg s' out_reg = call_regs e R0 /\
      (forall r : Register,
         In r (cpu_registers live) -> r <> out_reg -> get_reg s' r = get_reg s r) /\
      (forall v : VRegister,
         In v (fpu_registers live) -> get_vreg s' v = get_vreg s v) /\
      stack s' = stack s.
Proof.
  intros compiler ins tmps out_reg live e rest s Hal Ecalls.
  unfold BoxDoubleSlowPath_EmitNativeCode.
  cbn [obind out output reg live_registers RegisterSet_Remove cpu_registers
       fpu_registers].
  reg_facts.
  destruct (allocation_slow_path 0 (double_class compiler) out_reg
              (filter (fun r' => negb (Nat.eqb r' out_reg)) (cpu_registers live))
              (fpu_registers live) e rest s Ecalls Hzr (remove_not_in out_reg _))
    as (s' & Hrun & Hout & Hcpu & Hfpu & Hstack).
  eexists. exists s'. split; [reflexivity |]. split; [exact Hrun |].
  split; [exact Hout |]. split; [| split; [exact Hfpu | exact Hstack]].
  intros r Hr Hne. apply Hcpu. apply filter_In. split; [exact Hr |].
  apply negb_true_iff. now apply Nat.eqb_neq.
Qed.

(** X23.  The slow path of [StoreInstanceFieldInstr] calls the allocation
    stub for the class of the box and returns with the new object in the
    first temporary and every live register as on entry, provided the
    temporary is not itself among the live registers (it would be
    overwritten by the restore). *)
Theorem StoreInstanceFieldSlowPath_preserves_live_registers :
  forall (n : nat) (cls : Class) (ins tmps : list Location) (outl : Location)
         (temp0 : Register) (live : RegisterSet)
         (e : CallEffect) (rest : list CallEffect) (s : State),
    is_allocatable temp0 = true ->
    ~ In temp0 (cpu_registers (RegisterSet_Remove outl live)) ->
    calls s = e :: rest ->
    exists (code : Code) (s' : State),
      StoreInstanceFieldSlowPath_EmitNativeCode n
        (mkLocationSummary ins (RegisterLocation temp0 :: tmps) outl live) cls
        = Some code /\
      run code (Some (SlowPathEntry n)) s = Jump (SlowPathExit n) s' /\
      get_reg s' temp0 = call_regs e R0 /\
      (forall r : Register,
         In r (cpu_registers (RegisterSet_Remove outl live)) ->
         get_reg s' r = get_reg s r) /\
      (forall v : VRegister,
         In v (fpu_registers (RegisterSet_Remove outl live)) ->
         get_vreg s' v = get_vreg s v) /\
      stack s' = stack s.
Proof.
  intros n cls ins tmps outl temp0 live e rest s Hal Hnin Ecalls.
  unfold StoreInstanceFieldSlowPath_EmitNativeCode.
  cbn [obind out output temp_ temps nth_error reg live_registers].
  reg_facts.
  destruct (allocation_slow_path n cls temp0
              (cpu_registers (RegisterSet_Remove outl live))
              (fpu_registers (RegisterSet_Remove outl live)) e rest s Ecalls Hzr Hnin)
    as (s' & Hrun & Hout & Hcpu & Hfpu & Hstack).
  eexists. exists s'. split; [reflexivity |]. split; [exact Hrun |].
  split; [exact Hout |]. split; [exact Hcpu |]. split; [exact Hfpu | exact Hstack].
Qed.

End SlowPaths.

Section InstanceFields.

Local Arguments wrap : simpl never.
Local Arguments get_reg : simpl never.
Local Arguments set_reg : simpl never.
Local Arguments Z.pow : simpl never.
Local Arguments Z.add : simpl never.
Local Arguments Z.sub : simpl never.
Local Arguments Z.modulo : simpl never.
Local Arguments load_bytes : simpl never.
Local Arguments store_bytes : simpl never.

(** ** Plain stores into instance fields *)

(** X24.  A store into an instance field that cannot hold an unboxed value
    is one store instruction on the main line and has no slow path: it
    writes the eight bytes of the value, a register or a constant, at the
    field's offset in the instance, changes no byte outside the field and no
    register. *)
Theorem StoreInstanceField_plain_store :
  forall (compiler : FlowGraphCompiler) (this : StoreInstanceFieldInstr)
         (instance : Register) (value_loc : Location)
         (tmps : list Location) (outl : Location) (live : RegisterSet)
         (w : Z) (s : State),
    sf_IsPotentialUnboxedStore this = false ->
    sf_IsUnboxedStore this && is_optimizing compiler = false ->
    sf_locs this =
      mkLocationSummary [RegisterLocation instance; value_loc] tmps outl live ->
    (IsConstant value_loc = true -> sf_ShouldEmitStoreBarrier this = false) ->
    holds_word s value_loc w ->
    let fa := field_address s instance (sf_offset_in_bytes this) in
    exists (e : Emitted) (s' : State),
      StoreInstanceFieldInstr_EmitNativeCode compiler this = Some e /\
      slow_code e = [] /\
      length (main_code e) = 2%nat /\
      run (main_code e) None s = Fallthrough s' /\
      load_bytes 8 (mem s') fa = wrap w /\
      (forall a : Z, a < fa \/ fa + 8 <= a -> mem s' a = mem s a) /\
      (forall r : Register, get_reg s' r = get_reg s r).
Proof.
  intros compiler this instance value_loc tmps outl live w s
         Hpot Hunb Hlocs Hbar Hw fa.
  unfold StoreInstanceFieldInstr_EmitNativeCode.
  rewrite Hlocs, Hunb, Hpot.
  cbn [obind in_ nth_error inputs reg].
  assert (Hmem : forall m : Z -> Z,
            m = store_bytes 8 (mem s) fa w ->
            load_bytes 8 m fa = wrap w /\
            (forall a : Z, a < fa \/ fa + 8 <= a -> m a = mem s a)).
  { intros m ->. split; [apply load_store_bytes |].
    intros a Ha. now apply (store_bytes_outside 8). }
  destruct value_loc as [value | | c | |]; try contradiction; cbn [holds_word] in Hw.
  - destruct Hw as [_ Hw].
    destruct (sf_ShouldEmitStoreBarrier this); cbn [IsConstant obind reg app];
      (do 2 eexists; split; [reflexivity |]; split; [reflexivity |];
       split; [reflexivity |]; split; [cbn [run step]; reflexivity |]);
      unfold record_barrier;
      repeat match goal with
             | |- context [if ?c then _ else _] => destruct c
             end;
      cbn [mem with_store_buffer store_at with_mem];
      (destruct (Hmem (store_bytes 8 (mem s) fa w) eq_refl) as [H1 H2]);
      (split; [rewrite Hw; exact H1 |]);
      (split; [rewrite Hw; exact H2 | intros r; reflexivity]).
  - rewrite (Hbar eq_refl). cbn [IsConstant obind constant app].
    do 2 eexists. split; [reflexivity |]. split; [reflexivity |].
    split; [reflexivity |]. split; [cbn [run step]; reflexivity |].
    cbn [mem store_at with_mem].
    destruct (Hmem (store_bytes 8 (mem s) fa w) eq_refl) as [H1 H2].
    split; [rewrite Hw; exact H1 |].
    split; [rewrite Hw; exact H2 | intros r; reflexivity].
Qed.

End InstanceFields.

(** ** The further properties at concrete inputs *)

Lemma FlipCondition_exchanges_operands_witness :
  FlipCondition LT = Some GT /\
  ConditionHolds GT (snd (sub_flags 5 3)) = ConditionHolds LT (snd (sub_flags 3 5)).
Proof.
  split; [reflexivity |].
  destruct (FlipCondition_exchanges_operands LT) as [H _].
  destruct (H GT eq_refl) as (_ & _ & H'). apply H'.
Defined.

Lemma EmitSmiComparisonOp_decides_witness :
  exists (code : Code) (c : Condition) (f : Flags),
    EmitSmiComparisonOp
      (mkLocationSummary [Constant (Smi 3); RegisterLocation R1] [] Invalid
         Example.no_registers) kLT = Some (code, c) /\
    In c handled_conditions /\
    run code None (Sample.state 0 (RawValue 5) 0 [])
    = Fallthrough (with_flags f (Sample.state 0 (RawValue 5) 0 [])) /\
    ConditionHolds c f = true.
Proof.
  destruct (EmitSmiComparisonOp_decides kLT (Constant (Smi 3)) (RegisterLocation R1)
              [] Invalid Example.no_registers 3 5 true
              (Sample.state 0 (RawValue 5) 0 [])) as [_ H].
  - apply IsSmiValue_small. lia.
  - apply IsSmiValue_small. lia.
  - reflexivity.
  - split; reflexivity.
  - reflexivity.
  - apply H. reflexivity.
Defined.

Lemma RelationalOp_smi_decides_witness :
  exists (code : Code) (s' : State),
    RelationalOpInstr_EmitNativeCode (Sample.smi_comparison kGTE) = Some code /\
    run code None (Sample.state (RawValue 3) (RawValue 5) 0 []) = Fallthrough s' /\
    get_reg s' R2 = 4113.
Proof.
  destruct (RelationalOp_smi_decides (Sample.smi_comparison kGTE)
              (RegisterLocation R0) (RegisterLocation R1) R2 [RegisterLocation R3]
              Example.no_registers 3 5 false
              (Sample.state (RawValue 3) (RawValue 5) 0 [])) as [H _].
  - reflexivity.
  - reflexivity.
  - reflexivity.
  - reflexivity.
  - apply IsSmiValue_small. lia.
  - apply IsSmiValue_small. lia.
  - split; reflexivity.
  - split; reflexivity.
  - reflexivity.
  - exact H.
Defined.

Lemma EqualityCompare_smi_decides_witness :
  exists (code : Code) (s' : State),
    EqualityCompareInstr_EmitBranchCode (Sample.smi_comparison kNE)
      (mkBranchLabels (BlockLabel 1) (BlockLabel 2) (BlockLabel 3))
      = Some code /\
    transfers_to (mkBranchLabels (BlockLabel 1) (BlockLabel 2) (BlockLabel 3))
      (run code None (Sample.state (RawValue 3) (RawValue 5) 0 []))
      (BlockLabel 1) s'.
Proof.
  destruct (EqualityCompare_smi_decides (Sample.smi_comparison kNE)
              (RegisterLocation R0) (RegisterLocation R1) R2 [RegisterLocation R3]
              Example.no_registers 3 5
              (Sample.state (RawValue 3) (RawValue 5) 0 [])) as [H _].
  - reflexivity.
  - reflexivity.
  - reflexivity.
  - reflexivity.
  - apply IsSmiValue_small. lia.
  - apply IsSmiValue_small. lia.
  - split; reflexivity.
  - split; reflexivity.
  - destruct (H (or_intror eq_refl) true eq_refl) as [_ Hbr].
    exact (Hbr (mkBranchLabels (BlockLabel 1) (BlockLabel 2) (BlockLabel 3))).
Defined.

Lemma BinarySmiOp_bitwise_witness :
  exists (code : Code) (s' : State),
    BinarySmiOpInstr_EmitNativeCode Example.compiler (Example.binary_op kBIT_XOR)
      = Some code /\
    existsb transfers_control code = false /\
    run code None (Sample.state (RawValue (-6)) (RawValue 3) 0 []) = Fallthrough s' /\
    get_reg s' R2 = RawValue (-7) /\
    IsSmiValue (-7).
Proof.
  apply (BinarySmiOp_bitwise Example.compiler (Example.binary_op kBIT_XOR)
           R0 R2 (RegisterLocation R1) [RegisterLocation R3] Example.no_registers
           (-6) 3 (-7) (Sample.state (RawValue (-6)) (RawValue 3) 0 [])).
  - reflexivity.
  - reflexivity.
  - reflexivity.
  - reflexivity.
  - apply IsSmiValue_small. lia.
  - apply IsSmiValue_small. lia.
  - split; reflexivity.
  - split; reflexivity.
  - reflexivity.
Defined.

Lemma BinarySmiOp_without_guard_witness :
  exists (code : Code) (s' : State),
    BinarySmiOpInstr_EmitNativeCode Example.compiler (Sample.unguarded_op kMUL)
      = Some code /\
    existsb transfers_control code = false /\
    run code None (Sample.state (RawValue (-6)) (RawValue 3) 0 []) = Fallthrough s' /\
    get_reg s' R2 = RawValue (-18).
Proof.
  apply (BinarySmiOp_without_guard Example.compiler (Sample.unguarded_op kMUL)
           R0 R2 (RegisterLocation R1) [RegisterLocation R3] Example.no_registers
           (-6) 3 (-18) (Sample.state (RawValue (-6)) (RawValue 3) 0 [])).
  - reflexivity.
  - reflexivity.
  - reflexivity.
  - reflexivity.
  - reflexivity.
  - apply IsSmiValue_small. lia.
  - apply IsSmiValue_small. lia.
  - split; reflexivity.
  - split; reflexivity.
  - reflexivity.
Defined.

Lemma BinarySmiOp_shift_right_witness :
  exists (code : Code) (s' : State),
    BinarySmiOpInstr_EmitNativeCode Example.compiler (Example.binary_op kSHR)
      = Some code /\
    run code None (Sample.state (RawValue (-7)) (RawValue 1) 0 []) = Fallthrough s' /\
    get_reg s' R2 = RawValue (-4).
Proof.
  destruct (BinarySmiOp_shift_right Example.compiler (Example.binary_op kSHR)
              R0 R2 (RegisterLocation R1) [RegisterLocation R3] Example.no_registers
              (-7) 1 (Sample.state (RawValue (-7)) (RawValue 1) 0 []))
    as (code & s' & E & Hrun & Hres).
  - reflexivity.
  - reflexivity.
  - reflexivity.
  - reflexivity.
  - intros _. exists R3, []. split; reflexivity.
  - reflexivity.
  - apply IsSmiValue_small. lia.
  - apply IsSmiValue_small. lia.
  - split; reflexivity.
  - split; reflexivity.
  - exact I.
  - reflexivity.
  - exists code, s'. split; [exact E |]. split; [exact Hrun |].
    apply Hres. lia.
Defined.

Lemma BinarySmiOp_truncdiv_constant_witness :
  exists (code : Code) (s' : State),
    BinarySmiOpInstr_EmitNativeCode Example.compiler
      (Sample.constant_op kTRUNCDIV (-4) false) = Some code /\
    run code None (Sample.state (RawValue (-7)) 0 0 []) = Fallthrough s' /\
    get_reg s' R2 = RawValue 1.
Proof.
  destruct (BinarySmiOp_truncdiv_constant Example.compiler
              (Sample.constant_op kTRUNCDIV (-4) false) R0 R2 []
              Example.no_registers (-7) (-4) 2
              (Sample.state (RawValue (-7)) 0 0 []))
    as (code & s' & E & Hrun & Hres).
  - reflexivity.
  - reflexivity.
  - reflexivity.
  - reflexivity.
  - reflexivity.
  - apply IsSmiValue_small. lia.
  - apply IsSmiValue_small. lia.
  - lia.
  - reflexivity.
  - split; reflexivity.
  - reflexivity.
  - exists code, s'. split; [exact E |]. split; [exact Hrun |].
    apply Hres. reflexivity.
Defined.

Lemma EmitSmiShiftLeft_constant_witness :
  exists (code : Code) (s' : State),
    BinarySmiOpInstr_EmitNativeCode Example.compiler
      (Sample.constant_op kSHL 3 false) = Some code /\
    run code None (Sample.state (RawValue (-7)) 0 0 []) = Fallthrough s' /\
    get_reg s' R2 = RawValue (-56).
Proof.
  destruct (EmitSmiShiftLeft_constant Example.compiler
              (Sample.constant_op kSHL 3 false) R0 R2 [] Example.no_registers
              (-7) 3 (Sample.state (RawValue (-7)) 0 0 []))
    as (code & s' & E & Hrun & Hres).
  - reflexivity.
  - reflexivity.
  - reflexivity.
  - reflexivity.
  - apply IsSmiValue_small. lia.
  - split; reflexivity.
  - reflexivity.
  - exists code, s'. split; [exact E |]. split; [exact Hrun |].
    apply Hres. reflexivity.
Defined.

Lemma EmitSmiShiftLeft_register_witness :
  exists (code : Code) (s' : State),
    BinarySmiOpInstr_EmitNativeCode Example.compiler (Example.binary_op kSHL)
      = Some code /\
    run code None (Sample.state (RawValue 4611686018427387903) (RawValue 1) 0 [])
    = Jump (DeoptStub 7 kDeoptBinarySmiOp) s'.
Proof.
  destruct (EmitSmiShiftLeft_register Example.compiler (Example.binary_op kSHL)
              R0 R1 R2 R3 [] Example.no_registers 4611686018427387903 1
              (Sample.state (RawValue 4611686018427387903) (RawValue 1) 0 []))
    as (code & s' & E & Hrun & _).
  - reflexivity.
  - reflexivity.
  - reflexivity.
  - reflexivity.
  - reflexivity.
  - reflexivity.
  - unfold IsSmiValue, kSmiMin, kSmiMax. lia.
  - apply IsSmiValue_small. lia.
  - split; reflexivity.
  - split; reflexivity.
  - exact I.
  - reflexivity.
  - reflexivity.
  - discriminate.
  - exists code, s'. split; [exact E | exact Hrun].
Defined.

Lemma EmitSmiShiftLeft_truncating_register_witness :
  exists (code : Code) (s' : State),
    BinarySmiOpInstr_EmitNativeCode Example.compiler Sample.truncating_shift
      = Some code /\
    run code None (Sample.state (RawValue 3) (RawValue 62) 0 []) = Fallthrough s' /\
    get_reg s' R2 = 0.
Proof.
  destruct (EmitSmiShiftLeft_truncating_register Example.compiler
              Sample.truncating_shift R0 R1 R2 [RegisterLocation R3]
              Example.no_registers 3 62
              (Sample.state (RawValue 3) (RawValue 62) 0 []))
    as (code & s' & E & _ & Hrun & Hres).
  - reflexivity.
  - reflexivity.
  - reflexivity.
  - reflexivity.
  - reflexivity.
  - apply IsSmiValue_small. lia.
  - apply IsSmiValue_small. lia.
  - split; reflexivity.
  - split; reflexivity.
  - exact I.
  - reflexivity.
  - intros r [H | [H | []]]; inversion H; discriminate.
  - exists code, s'. split; [exact E |]. split; [exact Hrun |].
    apply Hres. lia.
Defined.

Lemma LoadIndexed_integer_element_witness :
  exists (code : Code) (s' : State),
    LoadIndexedInstr_EmitNativeCode Example.compiler
      (Sample.load kTypedDataInt16ArrayCid 2 (RegisterLocation R2)) = Some code /\
    existsb transfers_control code = false /\
    run code None (Example.state 8193 (RawValue 3) 255 0 []) = Fallthrough s' /\
    get_reg s' R2 = RawValue (-1) /\
    IsSmiValue (-1) /\
    mem s' = mem (Example.state 8193 (RawValue 3) 255 0 []).
Proof.
  apply (LoadIndexed_integer_element Example.compiler
           (Sample.load kTypedDataInt16ArrayCid 2 (RegisterLocation R2))
           R0 R1 R2 kHalfword [] Example.no_registers 3
           (Example.state 8193 (RawValue 3) 255 0 [])).
  - reflexivity.
  - reflexivity.
  - reflexivity.
  - reflexivity.
  - reflexivity.
  - apply IsSmiValue_small. lia.
  - reflexivity.
Defined.

Lemma StoreIndexed_LoadIndexed_roundtrip_witness :
  exists (code1 : Code) (s1 : State),
    StoreIndexedInstr_EmitNativeCode Example.compiler
      (Sample.store kTypedDataInt8ArrayCid 1 (RegisterLocation R2)) = Some code1 /\
    run code1 None (Sample.state 8193 (RawValue 3) (RawValue 200) []) = Fallthrough s1 /\
    exists (code2 : Code) (s3 : State),
      LoadIndexedInstr_EmitNativeCode Example.compiler
        (Sample.load kTypedDataInt8ArrayCid 1 (RegisterLocation R2)) = Some code2 /\
      run code2 None (with_mem (mem s1) (Sample.state 8193 (RawValue 3) 0 []))
      = Fallthrough s3 /\
      get_reg s3 R2 = RawValue (-56).
Proof.
  destruct (StoreIndexed_LoadIndexed_roundtrip Example.compiler
              (Sample.store kTypedDataInt8ArrayCid 1 (RegisterLocation R2))
              (Sample.load kTypedDataInt8ArrayCid 1 (RegisterLocation R2))
              R0 R1 R2 R0 R1 R2 kByte [] [] Invalid
              Example.no_registers Example.no_registers 3 200
              (Sample.state 8193 (RawValue 3) (RawValue 200) []))
    as (code1 & s1 & E1 & Hrun1 & _ & Hload).
  - reflexivity.
  - reflexivity.
  - discriminate.
  - reflexivity.
  - reflexivity.
  - reflexivity.
  - reflexivity.
  - reflexivity.
  - reflexivity.
  - reflexivity.
  - reflexivity.
  - reflexivity.
  - reflexivity.
  - reflexivity.
  - discriminate.
  - discriminate.
  - discriminate.
  - apply IsSmiValue_small. lia.
  - apply IsSmiValue_small. lia.
  - reflexivity.
  - reflexivity.
  - exists code1, s1. split; [exact E1 |]. split; [exact Hrun1 |].
    apply (Hload (with_mem (mem s1) (Sample.state 8193 (RawValue 3) 0 [])));
      reflexivity.
Defined.

Lemma StoreIndexed_LoadIndexed_array_witness :
  exists (code1 : Code) (s1 : State),
    StoreIndexedInstr_EmitNativeCode Example.compiler
      (Sample.store kArrayCid 8 (RegisterLocation R2)) = Some code1 /\
    run code1 None (Sample.state 8193 (RawValue 3) 12289 []) = Fallthrough s1 /\
    exists (code2 : Code) (s3 : State),
      LoadIndexedInstr_EmitNativeCode Example.compiler
        (Sample.load kArrayCid 8 (RegisterLocation R2)) = Some code2 /\
      run code2 None (with_mem (mem s1) (Sample.state 8193 (RawValue 3) 0 []))
      = Fallthrough s3 /\
      get_reg s3 R2 = 12289.
Proof.
  destruct (StoreIndexed_LoadIndexed_array Example.compiler
              (Sample.store kArrayCid 8 (RegisterLocation R2))
              (Sample.load kArrayCid 8 (RegisterLocation R2))
              R0 R1 R0 R1 R2 (RegisterLocation R2) [] [] Invalid
              Example.no_registers Example.no_registers 3 12289
              (Sample.state 8193 (RawValue 3) 12289 []))
    as (code1 & s1 & E1 & Hrun1 & _ & Hload).
  - reflexivity.
  - reflexivity.
  - reflexivity.
  - reflexivity.
  - reflexivity.
  - reflexivity.
  - reflexivity.
  - reflexivity.
  - reflexivity.
  - reflexivity.
  - reflexivity.
  - discriminate.
  - discriminate.
  - discriminate.
  - apply IsSmiValue_small. lia.
  - reflexivity.
  - split; reflexivity.
  - exists code1, s1. split; [exact E1 |]. split; [exact Hrun1 |].
    apply (Hload (with_mem (mem s1) (Sample.state 8193 (RawValue 3) 0 [])));
      reflexivity.
Defined.

Lemma StoreIndexed_LoadIndexed_unboxed_witness :
  exists (code1 : Code) (s1 : State),
    StoreIndexedInstr_EmitNativeCode Example.compiler
      (Sample.store kTypedDataFloat64ArrayCid 8 (FpuRegisterLocation 0%nat))
      = Some code1 /\
    run code1 None (set_vreg 0%nat 9221120237041090561
                      (Sample.state 8193 (RawValue 3) 0 [])) = Fallthrough s1 /\
    exists (code2 : Code) (s3 : State),
      LoadIndexedInstr_EmitNativeCode Example.compiler
        (Sample.load kTypedDataFloat64ArrayCid 8 (FpuRegisterLocation 1%nat))
        = Some code2 /\
      run code2 None (with_mem (mem s1) (Sample.state 8193 (RawValue 3) 0 []))
      = Fallthrough s3 /\
      get_vreg s3 1%nat = 9221120237041090561.
Proof.
  destruct (StoreIndexed_LoadIndexed_unboxed Example.compiler
              (Sample.store kTypedDataFloat64ArrayCid 8 (FpuRegisterLocation 0%nat))
              (Sample.load kTypedDataFloat64ArrayCid 8 (FpuRegisterLocation 1%nat))
              R0 R1 R0 R1 0%nat 1%nat 8%nat [] [] Invalid
              Example.no_registers Example.no_registers 3
              (set_vreg 0%nat 9221120237041090561
                 (Sample.state 8193 (RawValue 3) 0 [])))
    as (code1 & s1 & E1 & Hrun1 & _ & Hload).
  - reflexivity.
  - reflexivity.
  - reflexivity.
  - reflexivity.
  - reflexivity.
  - reflexivity.
  - reflexivity.
  - reflexivity.
  - reflexivity.
  - reflexivity.
  - discriminate.
  - apply IsSmiValue_small. lia.
  - reflexivity.
  - exists code1, s1. split; [exact E1 |]. split; [exact Hrun1 |].
    apply (Hload (with_mem (mem s1) (Sample.state 8193 (RawValue 3) 0 [])));
      reflexivity.
Defined.

Lemma CheckSmi_guard_iff_tagged_object_witness :
  exists (code : Code) (f : Flags),
    CheckSmiInstr_EmitNativeCode Sample.check_smi = Some code /\
    run code None (Sample.state 8193 0 0 [])
    = Jump (DeoptStub 5 kDeoptCheckSmi) (with_flags f (Sample.state 8193 0 0 [])).
Proof.
  destruct (CheckSmi_guard_iff_tagged_object Sample.check_smi R0 [] Invalid
              Example.no_registers (Sample.state 8193 0 0 []))
    as (code & f & E & Hrun & _).
  - reflexivity.
  - exists code, f. split; [exact E | exact Hrun].
Defined.

Lemma CheckEitherNonSmi_guard_iff_both_smi_witness :
  exists (code : Code) (s' : State),
    CheckEitherNonSmiInstr_EmitNativeCode Sample.check_either = Some code /\
    run code None (Sample.state (RawValue 3) 8193 0 []) = Fallthrough s'.
Proof.
  destruct (CheckEitherNonSmi_guard_iff_both_smi Sample.check_either R0 R1 [] Invalid
              Example.no_registers (Sample.state (RawValue 3) 8193 0 []))
    as (code & s' & E & Hrun & _).
  - reflexivity.
  - discriminate.
  - discriminate.
  - exists code, s'. split; [exact E | exact Hrun].
Defined.

Lemma BooleanNegate_complements_witness :
  exists (code : Code) (s' : State),
    BooleanNegateInstr_EmitNativeCode (Sample.registers [R0] R2) = Some code /\
    run code None (Sample.state 4097 0 0 []) = Fallthrough s' /\
    get_reg s' R2 = 4113.
Proof.
  destruct (BooleanNegate_complements (Sample.registers [R0] R2) R0 R2
              [RegisterLocation R3] Example.no_registers true
              (Sample.state 4097 0 0 []))
    as (code & s' & E & Hrun & Hres & _).
  - reflexivity.
  - reflexivity.
  - reflexivity.
  - discriminate.
  - discriminate.
  - reflexivity.
  - exists code, s'. split; [exact E |]. split; [exact Hrun | exact Hres].
Defined.

Lemma StoreStaticField_LoadStaticField_roundtrip_witness :
  exists (code1 : Code) (s1 : State),
    StoreStaticFieldInstr_EmitNativeCode 16 Sample.static_store = Some code1 /\
    run code1 None (Sample.state 12289 0 0 []) = Fallthrough s1 /\
    exists (code2 : Code) (s3 : State),
      LoadStaticFieldInstr_EmitNativeCode 16 (Sample.registers [R1] R2) = Some code2 /\
      run code2 None (with_mem (mem s1) (Sample.state 0 4145 0 [])) = Fallthrough s3 /\
      get_reg s3 R2 = 12289.
Proof.
  destruct (StoreStaticField_LoadStaticField_roundtrip 16 Sample.static_store
              (Sample.registers [R1] R2) R0 R3 R1 R2 [] [RegisterLocation R3]
              Invalid Example.no_registers Example.no_registers
              (Sample.state 12289 0 0 []))
    as (code1 & s1 & E1 & Hrun1 & _ & Hload).
  - reflexivity.
  - reflexivity.
  - reflexivity.
  - reflexivity.
  - reflexivity.
  - discriminate.
  - exists code1, s1. split; [exact E1 |]. split; [exact Hrun1 |].
    apply (Hload (with_mem (mem s1) (Sample.state 0 4145 0 []))); reflexivity.
Defined.

Lemma EmitJavascriptOverflowCheck_bounds_witness :
  exists (code : Code) (f : Flags),
    EmitJavascriptOverflowCheck (Some (mkRange kMinusInfinity kPlusInfinity))
      (Some (DeoptStub 7 kDeoptBinarySmiOp)) R0 = Some code /\
    run code None (Sample.state (RawValue 4503599627370497) 0 0 [])
    = Jump (DeoptStub 7 kDeoptBinarySmiOp)
        (with_flags f (Sample.state (RawValue 4503599627370497) 0 0 [])).
Proof.
  destruct (EmitJavascriptOverflowCheck_bounds (mkRange kMinusInfinity kPlusInfinity)
              (DeoptStub 7 kDeoptBinarySmiOp) R0 4503599627370497
              (Sample.state (RawValue 4503599627370497) 0 0 [])) as [_ H].
  - unfold IsSmiValue, kSmiMin, kSmiMax. lia.
  - reflexivity.
  - destruct (H eq_refl) as (_ & code & f & E & Hrun).
    exists code, f. split; [exact E | exact Hrun].
Defined.

Lemma UnboxDouble_nullable_witness :
  exists (code : Code) (s' : State),
    UnboxDoubleInstr_EmitNativeCode Example.compiler Sample.nullable_unbox
      = Some code /\
    run code None (Sample.state 4129 0 0 [])
    = Jump (DeoptStub 11 kDeoptBinaryDoubleOp) s'.
Proof.
  destruct (UnboxDouble_nullable Example.compiler Sample.nullable_unbox R0 1%nat []
              Example.no_registers (Sample.state 4129 0 0 []))
    as (code & s' & E & Hrun & _).
  - discriminate.
  - discriminate.
  - reflexivity.
  - reflexivity.
  - reflexivity.
  - exists code, s'. split; [exact E | exact Hrun].
Defined.

Lemma BoxDoubleSlowPath_preserves_live_registers_witness :
  exists (code : Code) (s' : State),
    BoxDoubleSlowPath_EmitNativeCode Example.compiler
      (mkLocationSummary [FpuRegisterLocation 0%nat] [RegisterLocation R3]
         (RegisterLocation R2) (mkRegisterSet [R1; R2] [0%nat])) = Some code /\
    run code (Some (SlowPathEntry 0))
      (Sample.state 0 77 0 [Example.stub_effect]) = Jump (SlowPathExit 0) s' /\
    get_reg s' R2 = 8193 /\
    get_reg s' R1 = 77.
Proof.
  destruct (BoxDoubleSlowPath_preserves_live_registers Example.compiler
              [FpuRegisterLocation 0%nat] [RegisterLocation R3] R2
              (mkRegisterSet [R1; R2] [0%nat]) Example.stub_effect []
              (Sample.state 0 77 0 [Example.stub_effect]))
    as (code & s' & E & Hrun & Hout & Hcpu & _).
  - reflexivity.
  - reflexivity.
  - exists code, s'. split; [exact E |]. split; [exact Hrun |].
    split; [exact Hout |]. apply (Hcpu R1); [cbn; tauto | discriminate].
Defined.

Lemma StoreInstanceFieldSlowPath_preserves_live_registers_witness :
  exists (code : Code) (s' : State),
    StoreInstanceFieldSlowPath_EmitNativeCode 1
      (mkLocationSummary [RegisterLocation R0; RegisterLocation R1]
         [RegisterLocation R3] Invalid (mkRegisterSet [R0; R1] []))
      (mkClass kDoubleCid 16) = Some code /\
    run code (Some (SlowPathEntry 1))
      (Sample.state 55 77 0 [Example.stub_effect]) = Jump (SlowPathExit 1) s' /\
    get_reg s' R3 = 8193 /\
    get_reg s' R0 = 55.
Proof.
  destruct (StoreInstanceFieldSlowPath_preserves_live_registers 1
              (mkClass kDoubleCid 16) [RegisterLocation R0; RegisterLocation R1] []
              Invalid R3 (mkRegisterSet [R0; R1] []) Example.stub_effect []
              (Sample.state 55 77 0 [Example.stub_effect]))
    as (code & s' & E & Hrun & Hout & Hcpu & _).
  - reflexivity.
  - cbn. intros [H | [H | []]]; discriminate H.
  - reflexivity.
  - exists code, s'. split; [exact E |]. split; [exact Hrun |].
    split; [exact Hout |]. apply (Hcpu R0). cbn. tauto.
Defined.

Lemma StoreInstanceField_plain_store_witness :
  exists (e : Emitted) (s' : State),
    StoreInstanceFieldInstr_EmitNativeCode Example.compiler Sample.plain_field_store
      = Some e /\
    run (main_code e) None (Sample.state 8193 12289 0 []) = Fallthrough s' /\
    load_bytes 8 (mem s') 8216 = 12289.
Proof.
  destruct (StoreInstanceField_plain_store Example.compiler Sample.plain_field_store
              R0 (RegisterLocation R1) [] Invalid Example.no_registers 12289
              (Sample.state 8193 12289 0 []))
    as (e & s' & E & _ & _ & Hrun & Hmem & _).
  - reflexivity.
  - reflexivity.
  - reflexivity.
  - discriminate.
  - split; reflexivity.
  - exists e, s'. split; [exact E |]. split; [exact Hrun | exact Hmem].
Defined.

